(** * floq: linear-algebra helpers, cached evolution and fidelity metrics

    A shallow embedding of

    - [floq/helpers/matrix.py] (unitarity check, modified Gram-Schmidt),
    - [systems/parametric_system.py] (the one-slot cache in front of the
      fixed-system solver),
    - [optimization/fidelity.py] (fidelity base class, ensemble average,
      operator distance),

    followed by the properties of these functions.

    Numbers.  [gram_schmidt], [product] and [norm] are written over an
    arbitrary arithmetic (class [Arithmetic]: the operations the code
    applies to array entries and its comparison [== 0.0], with no law
    assumed), which has two instances here: the exact complex numbers
    (pairs of reals of the Standard Library) and IEEE binary64 (the
    primitive floats), the dtype float64 of numpy.  What is proved for
    every arithmetic holds of the code as it runs; what is proved at the
    exact instance only is marked as such.  The unitarity check, the
    adjoint and the fidelity values are carried out over the exact
    numbers: rounding of IEEE doubles is outside that part of the model.
    The control amplitudes and the pulse duration, which the cache only
    ever compares, are kept abstract: a type [scalar] with the boolean
    comparison [scalar_eqb] standing for Python's [==]; no law is assumed
    of it, so that a comparison that is not reflexive (nan) is covered. *)

From Stdlib Require Import Reals Lra Lia List ZArith Bool Arith Ring Field.
From Stdlib Require PrimFloat SpecFloat FloatOps.
Import ListNotations.

Local Open Scope R_scope.

(** ** Exceptions and results *)

(** The Python exceptions that the modelled code can raise, and
    [OtherError] for whatever a user-supplied hook or the external solver
    raises. *)
Inductive exn : Type :=
| ArithmeticError
| IndexError
| AttributeError
| NotImplementedError
| ValueError
| OtherError (code : nat).

Inductive result (A : Type) : Type :=
| Ok (a : A)
| Raise (e : exn).

Arguments Ok {A} a.
Arguments Raise {A} e.

(** ** Complex numbers over the reals *)

Definition C : Type := (R * R)%type.

Definition C0 : C := (0, 0).
Definition C1 : C := (1, 0).
Definition RtoC (x : R) : C := (x, 0).

Definition Cadd (z w : C) : C := (fst z + fst w, snd z + snd w).
Definition Copp (z : C) : C := (- fst z, - snd z).
Definition Csub (z w : C) : C := (fst z - fst w, snd z - snd w).
Definition Cmul (z w : C) : C :=
  (fst z * fst w - snd z * snd w, fst z * snd w + snd z * fst w).

(** [np.conj] *)
Definition Cconj (z : C) : C := (fst z, - snd z).

(** Squared modulus, and [np.absolute]. *)
Definition Cmod2 (z : C) : R := fst z * fst z + snd z * snd z.
Definition Cabs (z : C) : R := sqrt (Cmod2 z).

Definition Cinv (z : C) : C := (fst z / Cmod2 z, - snd z / Cmod2 z).
Definition Cdiv (z w : C) : C := Cmul z (Cinv w).

(** [np.sqrt] on a complex number: the principal square root. *)
Definition Csqrt (z : C) : C :=
  (sqrt ((Cabs z + fst z) / 2),
   (if Rlt_dec (snd z) 0 then -1 else 1) * sqrt ((Cabs z - fst z) / 2)).

(** Python's [==] on two (exact) complex numbers. *)
Definition Ceqb (z w : C) : bool :=
  if Req_dec_T (fst z) (fst w)
  then if Req_dec_T (snd z) (snd w) then true else false
  else false.

Definition Rleb (x y : R) : bool := if Rle_dec x y then true else false.

(** ** Arrays *)

(** A one-dimensional complex array, and a two-dimensional one given by
    its rows. *)
Definition vec : Type := list C.
Definition matrix : Type := list vec.

Definition vscale (c : C) (v : vec) : vec := map (Cmul c) v.
Definition vsub (a b : vec) : vec :=
  map (fun p => Csub (fst p) (snd p)) (combine a b).
Definition vdiv (v : vec) (r : C) : vec := map (fun z => Cdiv z r) v.

(** [a.dot(b)] for one-dimensional arrays of the same length. *)
Definition dot (a b : vec) : C :=
  fold_right (fun p acc => Cadd (Cmul (fst p) (snd p)) acc) C0 (combine a b).

Definition row (m : matrix) (i : nat) : vec := nth i m [].

(** [m[j] = v] for [j] in range; out of range nothing is written (the
    callers below only write in range). *)
Fixpoint set_row (j : nat) (v : vec) (m : matrix) : matrix :=
  match m, j with
  | [], _ => []
  | _ :: m', O => v :: m'
  | r :: m', S j' => r :: set_row j' v m'
  end.

Definition zeros_like (m : matrix) : matrix := map (map (fun _ => C0)) m.

Definition nrows (m : matrix) : nat := length m.
Definition ncols (m : matrix) : nat := length (row m 0).
Definition col (m : matrix) (j : nat) : vec := map (fun r => nth j r C0) m.

Definition transpose (m : matrix) : matrix :=
  map (col m) (seq 0 (ncols m)).

Definition matmul (a b : matrix) : matrix :=
  map (fun r => map (fun j => dot r (col b j)) (seq 0 (ncols b))) a.

(** [np.eye(n)] *)
Definition eye (n : nat) : list (list R) :=
  map (fun i => map (fun j => if Nat.eqb i j then 1 else 0) (seq 0 n))
      (seq 0 n).

(** ** Arithmetic of the array entries *)

(** What [gram_schmidt], [product] and [norm] do with array entries:
    [+], [-], [*], [/], [np.conj], [np.sqrt], the zero of
    [np.zeros_like], and the test [r == 0.0].  No law is assumed. *)
Class Arithmetic : Type := mkArithmetic {
  num : Type;
  n_zero : num;
  n_add : num -> num -> num;
  n_sub : num -> num -> num;
  n_mul : num -> num -> num;
  n_div : num -> num -> num;
  n_conj : num -> num;
  n_sqrt : num -> num;
  n_is_zero : num -> bool
}.

(** Exact complex arithmetic. *)
#[export] Instance exact_arith : Arithmetic := {|
  num := C;
  n_zero := C0;
  n_add := Cadd;
  n_sub := Csub;
  n_mul := Cmul;
  n_div := Cdiv;
  n_conj := Cconj;
  n_sqrt := Csqrt;
  n_is_zero := fun r => Ceqb r C0
|}.

(** IEEE binary64, the arithmetic of an array of dtype float64:
    correctly rounded operations (round to nearest, ties to even) with
    gradual underflow; [np.conj] is the identity on real entries; nan
    compares unequal to zero. *)
Definition binary64 : Arithmetic := {|
  num := PrimFloat.float;
  n_zero := PrimFloat.zero;
  n_add := PrimFloat.add;
  n_sub := PrimFloat.sub;
  n_mul := PrimFloat.mul;
  n_div := PrimFloat.div;
  n_conj := fun x => x;
  n_sqrt := PrimFloat.sqrt;
  n_is_zero := fun r => PrimFloat.eqb r PrimFloat.zero
|}.

(** Arrays over an arithmetic.  The sum of [a.dot(b)] is accumulated
    from the last product to the first; numpy leaves the order to the
    BLAS library. *)
Module Arr.

Section Arrays.

Context {A : Arithmetic}.

Definition vscale (c : num) (v : list num) : list num := map (n_mul c) v.
Definition vsub (a b : list num) : list num :=
  map (fun p => n_sub (fst p) (snd p)) (combine a b).
Definition vdiv (v : list num) (r : num) : list num :=
  map (fun z => n_div z r) v.

Definition dot (a b : list num) : num :=
  fold_right (fun p acc => n_add (n_mul (fst p) (snd p)) acc) n_zero
             (combine a b).

Definition row (m : list (list num)) (i : nat) : list num := nth i m [].

Fixpoint set_row (j : nat) (v : list num) (m : list (list num))
    : list (list num) :=
  match m, j with
  | [], _ => []
  | _ :: m', O => v :: m'
  | r :: m', S j' => r :: set_row j' v m'
  end.

Definition zeros_like (m : list (list num)) : list (list num) :=
  map (map (fun _ => n_zero)) m.

End Arrays.

End Arr.

(** ** matrix.py *)

Module Matrix.

(** [np.transpose(np.conj(m))] *)
Definition adjoint (m : matrix) : matrix := transpose (map (map Cconj) m).

(** The default [rtol] of [numpy.allclose]. *)
Definition default_rtol : R := 1 / 100000.

(** One comparison of [numpy.allclose(a, b, rtol, atol)]:
    [absolute(a - b) <= atol + rtol * absolute(b)]. *)
Definition isclose (rtol atol : R) (a : C) (b : R) : bool :=
  Rleb (Cabs (Csub a (RtoC b))) (atol + rtol * Rabs b).

Definition entry (m : matrix) (i j : nat) : C := nth j (row m i) C0.
Definition entryR (m : list (list R)) (i j : nat) : R :=
  nth j (nth i m []) 0.

Definition all_pairs (n : nat) (p : nat -> nat -> bool) : bool :=
  forallb (fun i => forallb (p i) (seq 0 n)) (seq 0 n).

(** [numpy.allclose] of a [k] by [k] complex array [a] against the [n] by
    [n] array [b]: the shapes broadcast when they are equal or when one of
    them is 1 by 1, and do not otherwise. *)
Definition allclose (k : nat) (a : matrix) (n : nat) (b : list (list R))
    (rtol atol : R) : result bool :=
  if Nat.eqb k n then
    Ok (all_pairs n (fun i j => isclose rtol atol (entry a i j) (entryR b i j)))
  else if Nat.eqb n 1 then
    Ok (all_pairs k (fun i j => isclose rtol atol (entry a i j) (entryR b 0 0)))
  else if Nat.eqb k 1 then
    Ok (all_pairs n (fun i j => isclose rtol atol (entry a 0 0) (entryR b i j)))
  else Raise ValueError.

(** [is_unitary(u, tolerance)]; [np.mat(u).H] is the conjugate transpose. *)
Definition is_unitary (u : matrix) (tolerance : R) : result bool :=
  let unitary := eye (nrows u) in
  let umat := u in
  let product := matmul (adjoint umat) umat in
  allclose (ncols u) product (nrows u) unitary default_rtol tolerance.

Definition default_tolerance : R := 1 / 10000000000.

Section Arith.

Context {A : Arithmetic}.

(** [np.conj(a).dot(b)] *)
Definition product (a b : list num) : num := Arr.dot (map n_conj a) b.

(** [np.sqrt(product(a, a))] *)
Definition norm (a : list num) : num := n_sqrt (product a a).

(** The body of the inner loop of [gram_schmidt]:
    [rij = product(result[i], q); q = q - rij*result[i]]. *)
Definition inner_step (res : list (list num)) (q : list num) (i : nat)
    : list num :=
  let rij := product (Arr.row res i) q in
  Arr.vsub q (Arr.vscale rij (Arr.row res i)).

(** [q] after the first [i] rounds of the inner loop for row [j],
    starting from [q = vecs[j]]. *)
Definition residual (res : list (list num)) (vj : list num) (i : nat)
    : list num :=
  fold_left (inner_step res) (seq 0 i) vj.

(** The body of the outer loop, for one [j]. *)
Definition outer_step (vecs : list (list num)) (res : list (list num))
    (j : nat) : result (list (list num)) :=
  let q := residual res (Arr.row vecs j) j in
  let rjj := norm q in
  if n_is_zero rjj then Raise ArithmeticError
  else Ok (Arr.set_row j (Arr.vdiv q rjj) res).

(** The outer loop over the indices [js], stopping at the first raise. *)
Fixpoint outer_loop (vecs : list (list num)) (js : list nat)
    (res : list (list num)) : result (list (list num)) :=
  match js with
  | [] => Ok res
  | j :: js' =>
      match outer_step vecs res j with
      | Ok res' => outer_loop vecs js' res'
      | Raise e => Raise e
      end
  end.

(** The first [m] rows of the computation: row 0 and the rounds
    [j = 1 .. m-1] of the outer loop. *)
Definition gs_upto (vecs : list (list num)) (m : nat)
    : result (list (list num)) :=
  match vecs with
  | [] => Raise IndexError
  | v0 :: _ =>
      let result := Arr.zeros_like vecs in
      let r := norm v0 in
      if n_is_zero r then Raise ArithmeticError
      else outer_loop vecs (seq 1 (m - 1))
                      (Arr.set_row 0 (Arr.vdiv v0 r) result)
  end.

(** [gram_schmidt(vecs)]: [vecs[0]] raises [IndexError] on an array
    without rows. *)
Definition gram_schmidt (vecs : list (list num)) : result (list (list num)) :=
  gs_upto vecs (length vecs).

End Arith.

End Matrix.

(** ** State with exceptions *)

(** A method body: it reads and writes the object it is called on and
    returns or raises.  What was written before a raise stays written. *)
Definition M (S A : Type) : Type := S -> result A * S.

Definition ret {S A : Type} (a : A) : M S A := fun s => (Ok a, s).

Definition raise {S A : Type} (e : exn) : M S A := fun s => (Raise e, s).

Definition bind {S A B : Type} (c : M S A) (k : A -> M S B) : M S B :=
  fun s =>
    match c s with
    | (Ok a, s') => k a s'
    | (Raise e, s') => (Raise e, s')
    end.

Notation "x <- c ;; k" := (bind c (fun x => k))
  (at level 61, c at next level, right associativity).
Notation "c ;;; k" := (bind c (fun _ => k))
  (at level 61, right associativity).

(** ** External collaborators *)

(** Modelled from the spec: the collaborators that are not under [src/],
    namely the fixed-system solver of [core/fixed_system.py] and the
    operator distance of [core/fidelities.py], together with the scalars
    of the control arrays and their [==].

    [FixedSystem(hf, dhf, nz, omega, t)] is the call of the external
    solver: it takes the Fourier coefficients, their derivative, the
    mode-truncation count, the angular frequency and the duration, and
    either raises or yields an object holding the propagator [u], its
    derivative [du] and the updated truncation count [params.nz], which
    are then read without further computation.  [operator_distance] and
    [d_operator_distance] are the distance and its gradient, a real
    number and a vector of reals. *)
Class Collaborators : Type := {
  scalar : Type;
  scalar_eqb : scalar -> scalar -> bool;
  hamiltonian : Type;
  dhamiltonian : Type;
  propagator : Type;
  dpropagator : Type;
  target : Type;
  FixedSystem : Type;
  FixedSystem_init :
    hamiltonian -> dhamiltonian -> Z -> scalar -> scalar -> result FixedSystem;
  fs_u : FixedSystem -> propagator;
  fs_du : FixedSystem -> dpropagator;
  fs_params_nz : FixedSystem -> Z;
  operator_distance : propagator -> target -> R;
  d_operator_distance : propagator -> dpropagator -> target -> list R
}.

Section Objects.

Context {collab : Collaborators}.

(** ** Python values passed as [controls] *)

(** A control vector arrives as a one-dimensional [numpy.ndarray]; a list
    or [None] stand for what is not an array.  Arrays are values here: no
    modelled method writes into one. *)
Inductive pyobj : Type :=
| PyNone
| PyList (xs : list scalar)
| NdArray (xs : list scalar).

Definition isinstance_ndarray (c : pyobj) : bool :=
  match c with
  | NdArray _ => true
  | _ => false
  end.

Fixpoint all_eqb (xs ys : list scalar) : bool :=
  match xs, ys with
  | [], [] => true
  | x :: xs', y :: ys' => scalar_eqb x y && all_eqb xs' ys'
  | _, _ => false
  end.

(** [np.array_equal(a1, a2)]: the shapes agree and all entries compare
    equal with [==]. *)
Definition array_equal (a1 a2 : pyobj) : bool :=
  match a1, a2 with
  | PyNone, PyNone => true
  | PyList xs, PyList ys => all_eqb xs ys
  | PyList xs, NdArray ys => all_eqb xs ys
  | NdArray xs, PyList ys => all_eqb xs ys
  | NdArray xs, NdArray ys => all_eqb xs ys
  | _, _ => false
  end.

(** [last_t != t], where [last_t] is [None] or a number. *)
Definition py_ne (last_t : option scalar) (t : scalar) : bool :=
  match last_t with
  | None => true
  | Some t' => negb (scalar_eqb t' t)
  end.

(** ** parametric_system.py *)

(** Instrumentation: the calls of the Hamiltonian-builder hooks and of
    the solver, most recent first. *)
Inductive call : Type :=
| Call_hf (controls : pyobj)
| Call_dhf (controls : pyobj)
| Call_FixedSystem.

(** An instance of (a subclass of) [ParametricSystemBase].  [_hf] and
    [_dhf] are the hooks of its class; an attribute that was never
    assigned is [None], and reading it raises [AttributeError]. *)
Record ParametricSystem : Type := mkSystem {
  _hf : pyobj -> result hamiltonian;
  _dhf : pyobj -> result dhamiltonian;
  _last_controls : option pyobj;
  _last_t : option (option scalar);
  _fixed_system : option FixedSystem;
  nz : option Z;
  omega : option scalar;
  calls : list call
}.

Definition getattr {A : Type} (field : ParametricSystem -> option A)
    : M ParametricSystem A :=
  fun self =>
    match field self with
    | Some a => (Ok a, self)
    | None => (Raise AttributeError, self)
    end.

Definition set__last_controls (v : pyobj) : M ParametricSystem unit :=
  fun self =>
    (Ok tt, mkSystem (_hf self) (_dhf self) (Some v) (_last_t self)
              (_fixed_system self) (nz self) (omega self) (calls self)).

Definition set__last_t (v : scalar) : M ParametricSystem unit :=
  fun self =>
    (Ok tt, mkSystem (_hf self) (_dhf self) (_last_controls self)
              (Some (Some v)) (_fixed_system self) (nz self) (omega self)
              (calls self)).

Definition set__fixed_system (v : FixedSystem) : M ParametricSystem unit :=
  fun self =>
    (Ok tt, mkSystem (_hf self) (_dhf self) (_last_controls self)
              (_last_t self) (Some v) (nz self) (omega self) (calls self)).

Definition set_nz (v : Z) : M ParametricSystem unit :=
  fun self =>
    (Ok tt, mkSystem (_hf self) (_dhf self) (_last_controls self)
              (_last_t self) (_fixed_system self) (Some v) (omega self)
              (calls self)).

Definition log (c : call) : M ParametricSystem unit :=
  fun self =>
    (Ok tt, mkSystem (_hf self) (_dhf self) (_last_controls self)
              (_last_t self) (_fixed_system self) (nz self) (omega self)
              (c :: calls self)).

(** A call of a hook or of the solver: logged, then run. *)
Definition invoke {A : Type} (c : call) (r : ParametricSystem -> result A)
    : M ParametricSystem A :=
  log c ;;; (fun self => (r self, self)).

End Objects.

Module ParametricSystemBase.

Section Methods.

Context {collab : Collaborators}.

(** [__init__] of the base class, on an object of a class with the hooks
    [hf] and [dhf] whose own [__init__] has set [nz] and [omega] (both
    [None] for the bare base class). *)
Definition __init__ (hf : pyobj -> result hamiltonian)
    (dhf : pyobj -> result dhamiltonian) (nz0 : option Z)
    (omega0 : option scalar) : ParametricSystem :=
  mkSystem hf dhf (Some PyNone) (Some None) None nz0 omega0 [].

(** The hooks of the base class itself. *)
Definition _hf_abstract (controls : pyobj) : result hamiltonian :=
  Raise NotImplementedError.
Definition _dhf_abstract (controls : pyobj) : result dhamiltonian :=
  Raise NotImplementedError.

Definition _is_cached (controls : pyobj) (t : scalar)
    : M ParametricSystem bool :=
  if negb (isinstance_ndarray controls) then ret false
  else
    last_t <- getattr _last_t ;;
    if py_ne last_t t then ret false
    else
      last_controls <- getattr _last_controls ;;
      ret (array_equal last_controls controls).

Definition _set_cached (controls : pyobj) (t : scalar)
    : M ParametricSystem unit :=
  set__last_controls controls ;;;
  set__last_t t ;;;
  hf <- invoke (Call_hf controls) (fun self => _hf self controls) ;;
  dhf <- invoke (Call_dhf controls) (fun self => _dhf self controls) ;;
  nz0 <- getattr nz ;;
  omega0 <- getattr omega ;;
  fs <- invoke Call_FixedSystem
          (fun _ => FixedSystem_init hf dhf nz0 omega0 t) ;;
  set__fixed_system fs.

Definition u (controls : pyobj) (t : scalar)
    : M ParametricSystem propagator :=
  cached <- _is_cached controls t ;;
  if cached then
    fs <- getattr _fixed_system ;;
    ret (fs_u fs)
  else
    _set_cached controls t ;;;
    fs <- getattr _fixed_system ;;
    let u := fs_u fs in
    fs' <- getattr _fixed_system ;;
    set_nz (fs_params_nz fs') ;;;
    ret u.

Definition du (controls : pyobj) (t : scalar)
    : M ParametricSystem dpropagator :=
  cached <- _is_cached controls t ;;
  if cached then
    fs <- getattr _fixed_system ;;
    ret (fs_du fs)
  else
    _set_cached controls t ;;;
    fs <- getattr _fixed_system ;;
    let du := fs_du fs in
    fs' <- getattr _fixed_system ;;
    set_nz (fs_params_nz fs') ;;;
    ret du.

End Methods.

End ParametricSystemBase.

Module ParametricSystemWithFunctions.

Section Methods.

Context {collab : Collaborators}.

(** [__init__(hf, dhf, nz, omega, parameters)]: it stores its arguments
    and does not run the [__init__] of the base class, so [_last_controls]
    and [_last_t] stay unassigned.  The hooks are
    [self.hf(controls, self.parameters, self.omega)] and likewise for
    [dhf]. *)
Definition __init__ {P : Type}
    (hf : pyobj -> P -> scalar -> result hamiltonian)
    (dhf : pyobj -> P -> scalar -> result dhamiltonian)
    (nz0 : Z) (omega0 : scalar) (parameters : P) : ParametricSystem :=
  mkSystem (fun controls => hf controls parameters omega0)
           (fun controls => dhf controls parameters omega0)
           None None None (Some nz0) (Some omega0) [].

End Methods.

End ParametricSystemWithFunctions.

(** ** Values of the fidelities *)

(** What [f] and [df] return: a float, a one-dimensional array of floats,
    or [VNan] for the nan (or array of nan) that [np.mean] makes of an
    empty list; a sum with nan is nan again. *)
Inductive val : Type :=
| VFloat (x : R)
| VArray (xs : list R)
| VNan.

Definition Rsum (l : list R) : R := fold_right Rplus 0 l.

Fixpoint map2 (g : R -> R -> R) (xs ys : list R) : list R :=
  match xs, ys with
  | x :: xs', y :: ys' => g x y :: map2 g xs' ys'
  | _, _ => []
  end.

(** [a + b] with numpy's broadcasting. *)
Definition np_add (a b : val) : result val :=
  match a, b with
  | VNan, _ => Ok VNan
  | _, VNan => Ok VNan
  | VFloat x, VFloat y => Ok (VFloat (x + y))
  | VFloat x, VArray ys => Ok (VArray (map (fun y => x + y) ys))
  | VArray xs, VFloat y => Ok (VArray (map (fun x => x + y) xs))
  | VArray xs, VArray ys =>
      if Nat.eqb (length xs) (length ys) then Ok (VArray (map2 Rplus xs ys))
      else
        match xs, ys with
        | [x], _ => Ok (VArray (map (fun y => x + y) ys))
        | _, [y] => Ok (VArray (map (fun x => x + y) xs))
        | _, _ => Raise ValueError
        end
  end.

Definition is_nan (v : val) : bool :=
  match v with
  | VNan => true
  | _ => false
  end.

(** The list as a list of floats, when it is one. *)
Fixpoint floats_of (vs : list val) : option (list R) :=
  match vs with
  | [] => Some []
  | VFloat x :: vs' =>
      match floats_of vs' with
      | Some xs => Some (x :: xs)
      | None => None
      end
  | _ :: _ => None
  end.

(** The list as the rows of a two-dimensional array with [k] columns,
    when it is one. *)
Fixpoint arrays_of (k : nat) (vs : list val) : option (list (list R)) :=
  match vs with
  | [] => Some []
  | VArray xs :: vs' =>
      if Nat.eqb (length xs) k then
        match arrays_of k vs' with
        | Some rows => Some (xs :: rows)
        | None => None
        end
      else None
  | _ :: _ => None
  end.

Definition first_width (vs : list val) : nat :=
  match vs with
  | VArray xs :: _ => length xs
  | _ => 0%nat
  end.

(** [np.mean(vs)] of a list of floats or of equally long arrays: the mean
    of all entries.  A list that is neither does not make a numeric array
    ([ValueError]). *)
Definition np_mean (vs : list val) : result val :=
  if existsb is_nan vs then Ok VNan
  else
    match floats_of vs with
    | Some [] => Ok VNan
    | Some xs => Ok (VFloat (Rsum xs / INR (length xs)))
    | None =>
        match arrays_of (first_width vs) vs with
        | Some rows =>
            match concat rows with
            | [] => Ok VNan
            | xs => Ok (VFloat (Rsum xs / INR (length xs)))
            end
        | None => Raise ValueError
        end
    end.

(** [np.mean(vs, axis=0)]: the mean across the list, entry by entry. *)
Definition np_mean_axis0 (vs : list val) : result val :=
  if existsb is_nan vs then Ok VNan
  else
    match floats_of vs with
    | Some [] => Ok VNan
    | Some xs => Ok (VFloat (Rsum xs / INR (length xs)))
    | None =>
        match arrays_of (first_width vs) vs with
        | Some rows =>
            Ok (VArray
                  (map (fun c => Rsum (map (fun r => nth c r 0) rows)
                                 / INR (length rows))
                       (seq 0 (first_width vs))))
        | None => Raise ValueError
        end
    end.

(** ** fidelity.py *)

Section Fidelities.

Context {collab : Collaborators}.

(** What a subclass may override besides the core: the penalty, its
    gradient and the per-iteration hook, each a function of the controls
    that returns or raises.  [None] is "not overridden". *)
Record overrides : Type := mkOverrides {
  ov_penalty : option (pyobj -> result val);
  ov_d_penalty : option (pyobj -> result val);
  ov__iterate : option (pyobj -> result unit)
}.

Definition no_overrides : overrides := mkOverrides None None None.

(** An instance of a class derived from [FidelityBase]:

    - [MetricObj]: a class that takes [f], [df] from the base and implements
      [_f], [_df] on its system ([None]: not implemented, as in
      [FidelityBase] itself);
    - [EnsembleFidelityObj], with its list [fidelities] of members;
    - [OperatorDistanceObj], with its system, [t] and [target].

    Every instance has its own [iterations]; the core of a metric works
    on the system of the instance and does not reach the counter.  The
    attribute [_last_controls_and_t], which no method reads, is left
    out. *)
#[warnings="-register-all"] Inductive fidelity : Type :=
| MetricObj (core_f core_df : option (pyobj -> M ParametricSystem val))
            (ov : overrides) (system : ParametricSystem) (iterations : Z)
| EnsembleFidelityObj (ov : overrides) (fidelities : list fidelity)
                      (iterations : Z)
| OperatorDistanceObj (ov : overrides) (system : ParametricSystem)
                      (t : scalar) (tg : target) (iterations : Z).

Definition iterations (self : fidelity) : Z :=
  match self with
  | MetricObj _ _ _ _ it => it
  | EnsembleFidelityObj _ _ it => it
  | OperatorDistanceObj _ _ _ _ it => it
  end.

Definition set_iterations (v : Z) : M fidelity unit :=
  fun self =>
    (Ok tt,
     match self with
     | MetricObj cf cdf ov sys _ => MetricObj cf cdf ov sys v
     | EnsembleFidelityObj ov fids _ => EnsembleFidelityObj ov fids v
     | OperatorDistanceObj ov sys t tg _ => OperatorDistanceObj ov sys t tg v
     end).

Definition get_iterations : M fidelity Z := fun self => (Ok (iterations self), self).

Definition overrides_of (self : fidelity) : overrides :=
  match self with
  | MetricObj _ _ ov _ _ => ov
  | EnsembleFidelityObj ov _ _ => ov
  | OperatorDistanceObj ov _ _ _ _ => ov
  end.

(** A method of [self.system], run on the system the instance holds. *)
Definition on_system {A : Type} (c : M ParametricSystem A) : M fidelity A :=
  fun self =>
    match self with
    | MetricObj cf cdf ov sys it =>
        let (r, sys') := c sys in (r, MetricObj cf cdf ov sys' it)
    | OperatorDistanceObj ov sys t tg it =>
        let (r, sys') := c sys in (r, OperatorDistanceObj ov sys' t tg it)
    | EnsembleFidelityObj _ _ _ => (Raise AttributeError, self)
    end.

Definition pure_call {S A : Type} (r : result A) : M S A := fun s => (r, s).

(** [[g(fid) for fid in fids]]: the members in order, each replaced by
    its state after the call; the first raise ends the comprehension. *)
Section ForEach.

Variable g : M fidelity val.

Fixpoint for_each (fids : list fidelity) : result (list val) * list fidelity :=
  match fids with
  | [] => (Ok [], [])
  | fid :: fids' =>
      match g fid with
      | (Raise e, fid') => (Raise e, fid' :: fids')
      | (Ok v, fid') =>
          match for_each fids' with
          | (Raise e, fids'') => (Raise e, fid' :: fids'')
          | (Ok vs, fids'') => (Ok (v :: vs), fid' :: fids'')
          end
      end
  end.

End ForEach.

End Fidelities.

Module FidelityBase.

Section Methods.

Context {collab : Collaborators}.

Definition __init__ (core_f core_df : option (pyobj -> M ParametricSystem val))
    (ov : overrides) (system : ParametricSystem) : fidelity :=
  MetricObj core_f core_df ov system 0.

(** [self._f(x) + self.penalty(x)], with the methods that [self._f] and
    [self.penalty] resolve to. *)
Definition f (_f penalty : pyobj -> M fidelity val) (controls_and_t : pyobj)
    : M fidelity val :=
  a <- _f controls_and_t ;;
  p <- penalty controls_and_t ;;
  pure_call (np_add a p).

Definition df (_df d_penalty : pyobj -> M fidelity val)
    (controls_and_t : pyobj) : M fidelity val :=
  a <- _df controls_and_t ;;
  p <- d_penalty controls_and_t ;;
  pure_call (np_add a p).

Definition iterate (_iterate : pyobj -> M fidelity unit)
    (f : pyobj -> M fidelity val) (controls_and_t : pyobj) : M fidelity unit :=
  n <- get_iterations ;;
  set_iterations (n + 1) ;;;
  _iterate controls_and_t ;;;
  f0 <- f controls_and_t ;;
  ret tt.

Definition reset_iterations : M fidelity unit := set_iterations 0.

Definition _f (controls_and_t : pyobj) : M fidelity val :=
  raise NotImplementedError.

Definition _df (controls_and_t : pyobj) : M fidelity val :=
  raise NotImplementedError.

Definition _iterate (controls_and_t : pyobj) : M fidelity unit := ret tt.

Definition penalty (controls_and_t : pyobj) : M fidelity val :=
  ret (VFloat 0).

Definition d_penalty (controls_and_t : pyobj) : M fidelity val :=
  ret (VFloat 0).

End Methods.

End FidelityBase.

Module EnsembleFidelity.

Section Methods.

Context {collab : Collaborators}.

(** [__init__(ensemble, fidelity, **params)]: one member
    [fidelity(sys, **params)] for each of [ensemble.systems]. *)
Definition __init__ (systems : list ParametricSystem)
    (make_fidelity : ParametricSystem -> fidelity) : fidelity :=
  EnsembleFidelityObj no_overrides (map make_fidelity systems) 0.

(** [np.mean([fid.f(controls_and_t) for fid in self.fidelities])], with
    [member_f] the call [fid.f(controls_and_t)]. *)
Definition _f (member_f : M fidelity val) : M fidelity val :=
  fun self =>
    match self with
    | EnsembleFidelityObj ov fids it =>
        match for_each member_f fids with
        | (Ok vs, fids') => (np_mean vs, EnsembleFidelityObj ov fids' it)
        | (Raise e, fids') => (Raise e, EnsembleFidelityObj ov fids' it)
        end
    | _ => (Raise AttributeError, self)
    end.

Definition _df (member_df : M fidelity val) : M fidelity val :=
  fun self =>
    match self with
    | EnsembleFidelityObj ov fids it =>
        match for_each member_df fids with
        | (Ok vs, fids') =>
            (np_mean_axis0 vs, EnsembleFidelityObj ov fids' it)
        | (Raise e, fids') => (Raise e, EnsembleFidelityObj ov fids' it)
        end
    | _ => (Raise AttributeError, self)
    end.

End Methods.

End EnsembleFidelity.

Module OperatorDistance.

Section Methods.

Context {collab : Collaborators}.

Definition __init__ (system : ParametricSystem) (t : scalar) (tg : target)
    : fidelity :=
  OperatorDistanceObj no_overrides system t tg 0.

Definition get_t : M fidelity scalar :=
  fun self =>
    match self with
    | OperatorDistanceObj _ _ t _ _ => (Ok t, self)
    | _ => (Raise AttributeError, self)
    end.

Definition get_target : M fidelity target :=
  fun self =>
    match self with
    | OperatorDistanceObj _ _ _ tg _ => (Ok tg, self)
    | _ => (Raise AttributeError, self)
    end.

Definition f (controls : pyobj) : M fidelity val :=
  t <- get_t ;;
  u <- on_system (ParametricSystemBase.u controls t) ;;
  tg <- get_target ;;
  ret (VFloat (operator_distance u tg)).

Definition df (controls : pyobj) : M fidelity val :=
  t <- get_t ;;
  u <- on_system (ParametricSystemBase.u controls t) ;;
  t' <- get_t ;;
  du <- on_system (ParametricSystemBase.du controls t') ;;
  tg <- get_target ;;
  ret (VArray (d_operator_distance u du tg)).

End Methods.

End OperatorDistance.

(** ** Method resolution *)

Section Dispatch.

Context {collab : Collaborators}.

(** [self.penalty], [self.d_penalty], [self._iterate]: the override of
    the instance's class, or the method of [FidelityBase]. *)
Definition fidelity_penalty (x : pyobj) : M fidelity val :=
  fun self =>
    match ov_penalty (overrides_of self) with
    | Some p => (p x, self)
    | None => FidelityBase.penalty x self
    end.

Definition fidelity_d_penalty (x : pyobj) : M fidelity val :=
  fun self =>
    match ov_d_penalty (overrides_of self) with
    | Some p => (p x, self)
    | None => FidelityBase.d_penalty x self
    end.

Definition fidelity__iterate (x : pyobj) : M fidelity unit :=
  fun self =>
    match ov__iterate (overrides_of self) with
    | Some h => (h x, self)
    | None => FidelityBase._iterate x self
    end.

(** [self._f] and [self._df], given what [fid.f] and [fid.df] are for the
    members of an ensemble. *)
Definition resolve__f (member_f : pyobj -> M fidelity val) (x : pyobj)
    : M fidelity val :=
  fun self =>
    match self with
    | MetricObj (Some h) _ _ _ _ => on_system (h x) self
    | MetricObj None _ _ _ _ => FidelityBase._f x self
    | EnsembleFidelityObj _ _ _ => EnsembleFidelity._f (member_f x) self
    | OperatorDistanceObj _ _ _ _ _ => FidelityBase._f x self
    end.

Definition resolve__df (member_df : pyobj -> M fidelity val) (x : pyobj)
    : M fidelity val :=
  fun self =>
    match self with
    | MetricObj _ (Some h) _ _ _ => on_system (h x) self
    | MetricObj _ None _ _ _ => FidelityBase._df x self
    | EnsembleFidelityObj _ _ _ => EnsembleFidelity._df (member_df x) self
    | OperatorDistanceObj _ _ _ _ _ => FidelityBase._df x self
    end.

(** [self.f(x)]: [OperatorDistance] has its own [f]; the other classes
    take the one of [FidelityBase]. *)
Fixpoint fidelity_f (x : pyobj) (self : fidelity) {struct self}
    : result val * fidelity :=
  match self with
  | OperatorDistanceObj _ _ _ _ _ => OperatorDistance.f x self
  | _ => FidelityBase.f (resolve__f fidelity_f) fidelity_penalty x self
  end.

Fixpoint fidelity_df (x : pyobj) (self : fidelity) {struct self}
    : result val * fidelity :=
  match self with
  | OperatorDistanceObj _ _ _ _ _ => OperatorDistance.df x self
  | _ => FidelityBase.df (resolve__df fidelity_df) fidelity_d_penalty x self
  end.

Definition fidelity__f : pyobj -> M fidelity val := resolve__f fidelity_f.
Definition fidelity__df : pyobj -> M fidelity val := resolve__df fidelity_df.

(** [self.iterate(x)] and [self.reset_iterations()], which no class
    overrides. *)
Definition fidelity_iterate (x : pyobj) : M fidelity unit :=
  FidelityBase.iterate fidelity__iterate fidelity_f x.

Definition fidelity_reset_iterations : M fidelity unit :=
  FidelityBase.reset_iterations.

(** Whether the class of [self] replaces [f] and [df] of the base. *)
Definition overrides_f (self : fidelity) : bool :=
  match self with
  | OperatorDistanceObj _ _ _ _ _ => true
  | _ => false
  end.

(** The public operations, and a program of them run on an instance:
    a raise ends the operation, not the program. *)
Inductive op : Type :=
| Op_f (x : pyobj)
| Op_df (x : pyobj)
| Op_iterate (x : pyobj)
| Op_reset_iterations.

Definition step (self : fidelity) (o : op) : fidelity :=
  match o with
  | Op_f x => snd (fidelity_f x self)
  | Op_df x => snd (fidelity_df x self)
  | Op_iterate x => snd (fidelity_iterate x self)
  | Op_reset_iterations => snd (fidelity_reset_iterations self)
  end.

Definition run (ops : list op) (self : fidelity) : fidelity :=
  fold_left step ops self.

Definition is_reset (o : op) : bool :=
  match o with
  | Op_reset_iterations => true
  | _ => false
  end.

End Dispatch.

(** ** Vocabulary of the statements about the cache *)

Section CacheVocabulary.

Context {collab : Collaborators}.

(** The slot's key matches the query: [controls] is an array, the stored
    controls compare equal to it entry by entry, and the stored duration
    compares equal to [t]. *)
Definition key_matches (self : ParametricSystem) (controls : pyobj)
    (t : scalar) : Prop :=
  exists last_controls last_t,
    isinstance_ndarray controls = true /\
    _last_controls self = Some last_controls /\
    _last_t self = Some (Some last_t) /\
    scalar_eqb last_t t = true /\
    array_equal last_controls controls = true.

(** [_last_controls] and [_last_t] have been assigned, as they are once
    the [__init__] of the base class has run. *)
Definition initialised (self : ParametricSystem) : Prop :=
  _last_controls self <> None /\ _last_t self <> None.

Definition is_hf_call (c : call) : bool :=
  match c with
  | Call_hf _ => true
  | _ => false
  end.

Definition is_dhf_call (c : call) : bool :=
  match c with
  | Call_dhf _ => true
  | _ => false
  end.

Definition is_solver_call (c : call) : bool :=
  match c with
  | Call_FixedSystem => true
  | _ => false
  end.

Definition count_calls (p : call -> bool) (self : ParametricSystem) : nat :=
  length (filter p (calls self)).



(** The state in the middle of [_set_cached]: the key is overwritten and
    the calls [l] have been made; nothing else has changed. *)
Definition rekeyed (self : ParametricSystem) (controls : pyobj) (t : scalar)
    (l : list call) : ParametricSystem :=
  mkSystem (_hf self) (_dhf self) (Some controls) (Some (Some t))
           (_fixed_system self) (nz self) (omega self) (l ++ calls self).

(** The state after a miss that solved: the key, the new solve result,
    the truncation count taken from it, the three calls. *)
Definition solved (self : ParametricSystem) (controls : pyobj) (t : scalar)
    (fs : FixedSystem) : ParametricSystem :=
  mkSystem (_hf self) (_dhf self) (Some controls) (Some (Some t))
           (Some fs) (Some (fs_params_nz fs)) (omega self)
           (Call_FixedSystem :: Call_dhf controls :: Call_hf controls
              :: calls self).

(** The solve that a miss for [controls], [t] performs on [self]. *)
Definition fresh_solve (self : ParametricSystem) (controls : pyobj)
    (t : scalar) : result FixedSystem * list call :=
  match _hf self controls with
  | Raise e => (Raise e, [Call_hf controls])
  | Ok h =>
      match _dhf self controls with
      | Raise e => (Raise e, [Call_dhf controls; Call_hf controls])
      | Ok dh =>
          match nz self, omega self with
          | None, _ => (Raise AttributeError,
                        [Call_dhf controls; Call_hf controls])
          | Some _, None => (Raise AttributeError,
                             [Call_dhf controls; Call_hf controls])
          | Some n, Some w =>
              (FixedSystem_init h dh n w t,
               [Call_FixedSystem; Call_dhf controls; Call_hf controls])
          end
      end
  end.

(** Two results agree as values: both raise, or both return the same. *)
Definition same_value {A : Type} (r1 r2 : result A) : Prop :=
  match r1, r2 with
  | Ok a1, Ok a2 => a1 = a2
  | Raise _, Raise _ => True
  | _, _ => False
  end.

(** The propagator and the derivative that the solver returns do not
    depend on the truncation count it is started with. *)
Definition solver_insensitive : Prop :=
  forall h dh n n' w t,
    match FixedSystem_init h dh n w t, FixedSystem_init h dh n' w t with
    | Ok a, Ok b => fs_u a = fs_u b /\ fs_du a = fs_du b
    | Raise _, Raise _ => True
    | _, _ => False
    end.

(** The slot is coherent for the query [controls], [t]: if its key
    matches, it holds the propagator and derivative of a solve for
    [controls] and [t]. *)
Definition coherent (self : ParametricSystem) (controls : pyobj)
    (t : scalar) : Prop :=
  key_matches self controls t ->
  exists fs h dh n w fs0,
    _fixed_system self = Some fs /\
    _hf self controls = Ok h /\ _dhf self controls = Ok dh /\
    omega self = Some w /\
    FixedSystem_init h dh n w t = Ok fs0 /\
    fs_u fs0 = fs_u fs /\ fs_du fs0 = fs_du fs.

End CacheVocabulary.

(** ** Instances used in the examples *)

(** A solver over the integers.  Its propagator is [sum(hf) * t], plus
    the truncation count it was started with when [sensitive]; it hands
    back the truncation count raised by one. *)
Record example_fs : Type := mkExampleFs {
  ex_u : Z;
  ex_du : list Z;
  ex_nz : Z
}.

Definition example_solver (sensitive : bool) (h dh : list Z) (n w t : Z)
    : result example_fs :=
  Ok (mkExampleFs (fold_right Z.add 0%Z h * t + (if sensitive then n else 0))%Z
                  dh (n + 1)%Z).

Definition example_collab (sensitive : bool) : Collaborators := {|
  scalar := Z;
  scalar_eqb := Z.eqb;
  hamiltonian := list Z;
  dhamiltonian := list Z;
  propagator := Z;
  dpropagator := list Z;
  target := Z;
  FixedSystem := example_fs;
  FixedSystem_init := example_solver sensitive;
  fs_u := ex_u;
  fs_du := ex_du;
  fs_params_nz := ex_nz;
  operator_distance := fun u tg => IZR (u - tg);
  d_operator_distance := fun u du tg => map IZR du
|}.

(** Hooks in the style of the tests: they read [controls[0]] and
    [controls[1]], so a shorter sequence raises [IndexError]; [None]
    cannot be indexed. *)
Definition example_hf (b : bool) (controls : @pyobj (example_collab b))
    (parameters : unit) (w : Z) : result (list Z) :=
  match controls with
  | PyNone => Raise (OtherError 0)
  | PyList xs | NdArray xs =>
      if (length xs <? 2)%nat then Raise IndexError else Ok xs
  end.

(** A system made with [ParametricSystemWithFunctions]. *)
Definition example_system (b : bool) : @ParametricSystem (example_collab b) :=
  ParametricSystemWithFunctions.__init__ (example_hf b) (example_hf b)
    5%Z 1%Z tt.

(** The same hooks on a class whose [__init__] runs the one of the base
    class, as the docstring of the base class asks. *)
Definition example_system_init (b : bool)
    : @ParametricSystem (example_collab b) :=
  ParametricSystemBase.__init__
    (fun c => example_hf b c tt 1%Z) (fun c => example_hf b c tt 1%Z)
    (Some 5%Z) (Some 1%Z).

Section CacheVocabulary2.

Context {collab : Collaborators}.

(** From [s] to [s'], each hook and the solver were called at most once. *)
Definition at_most_one_more (s s' : ParametricSystem) : Prop :=
  (count_calls is_hf_call s' <= count_calls is_hf_call s + 1)%nat /\
  (count_calls is_dhf_call s' <= count_calls is_dhf_call s + 1)%nat /\
  (count_calls is_solver_call s' <= count_calls is_solver_call s + 1)%nat.

(** What a miss for [controls], [t] on [self] returns and leaves behind,
    with [get] the attribute that is read from the solve result. *)
Definition miss_outcome {A : Type} (get : FixedSystem -> A)
    (self : ParametricSystem) (controls : pyobj) (t : scalar)
    : result A * ParametricSystem :=
  match fresh_solve self controls t with
  | (Ok fs, _) => (Ok (get fs), solved self controls t fs)
  | (Raise e, l) => (Raise e, rekeyed self controls t l)
  end.

End CacheVocabulary2.

(** Controls that are a list and controls that are too short for the
    hooks of the examples. *)
Definition list_controls : @pyobj (example_collab true) :=
  @PyList (example_collab true) [1%Z; 2%Z].
Definition good_controls : @pyobj (example_collab true) :=
  @NdArray (example_collab true) [1%Z; 2%Z].
Definition other_controls : @pyobj (example_collab true) :=
  @NdArray (example_collab true) [4%Z; 5%Z].
Definition short_controls : @pyobj (example_collab true) :=
  @NdArray (example_collab true) [7%Z].

Definition example_t : @scalar (example_collab true) := 3%Z.

(** The example system after one successful solve for [good_controls]. *)
Definition example_system_solved : @ParametricSystem (example_collab true) :=
  snd (ParametricSystemBase.u good_controls example_t (example_system_init true)).


Section ReferenceSolve.

Context {collab : Collaborators}.

Definition result_map {A B : Type} (g : A -> B) (r : result A) : result B :=
  match r with
  | Ok a => Ok (g a)
  | Raise e => Raise e
  end.

(** The propagator and derivative of a solve for [controls], [t] with the
    hooks and frequency of [self], started at the truncation count [n0]. *)
Definition reference_solve (self : ParametricSystem) (controls : pyobj)
    (t : scalar) (n0 : Z) : result (propagator * dpropagator) :=
  match _hf self controls with
  | Raise e => Raise e
  | Ok h =>
      match _dhf self controls with
      | Raise e => Raise e
      | Ok dh =>
          match omega self with
          | None => Raise AttributeError
          | Some w =>
              result_map (fun fs => (fs_u fs, fs_du fs))
                         (FixedSystem_init h dh n0 w t)
          end
      end
  end.

End ReferenceSolve.

(** Arrays for either example solver, and [OperatorDistance] instances
    with duration 3 and target 0 on the example system. *)
Definition example_array (b : bool) (xs : list Z) : @pyobj (example_collab b) :=
  @NdArray (example_collab b) xs.

Definition example_distance (b : bool) (sys : @ParametricSystem (example_collab b))
    (it : Z) : @fidelity (example_collab b) :=
  @OperatorDistanceObj (example_collab b) no_overrides sys 3%Z 0%Z it.

(** The example system right after construction, and after a first
    [f] for the controls [xs]. *)
Definition example_fresh (b : bool) : @fidelity (example_collab b) :=
  @OperatorDistance.__init__ (example_collab b) (example_system_init b) 3%Z 0%Z.

Definition example_after (b : bool) (xs : list Z) : @fidelity (example_collab b) :=
  snd (fidelity_f (example_array b xs) (example_fresh b)).

Definition system_of {collab : Collaborators} (self : fidelity)
    : option ParametricSystem :=
  match self with
  | MetricObj _ _ _ sys _ => Some sys
  | OperatorDistanceObj _ sys _ _ _ => Some sys
  | EnsembleFidelityObj _ _ _ => None
  end.

Definition example_system_after (b : bool) (xs : list Z)
    : @ParametricSystem (example_collab b) :=
  snd (ParametricSystemBase.u (example_array b xs) 3%Z (example_system_init b)).

(** A metric whose core returns the constant [v] and the constant
    gradient [g], with the overrides [ov]. *)
Definition example_metric (ov : @overrides (example_collab true)) (v : R)
    (g : list R) : @fidelity (example_collab true) :=
  @FidelityBase.__init__ (example_collab true)
    (Some (fun _ => ret (VFloat v))) (Some (fun _ => ret (VArray g)))
    ov (example_system_init true).

(** A penalty of 2 on every input. *)
Definition example_penalty : @overrides (example_collab true) :=
  @mkOverrides (example_collab true)
    (Some (fun _ => Ok (VFloat 2))) None None.

(** Three members returning 0.1, 0.2, 0.3. *)
Definition example_members : list (@fidelity (example_collab true)) :=
  [example_metric no_overrides (1 / 10) [1; 2];
   example_metric no_overrides (2 / 10) [3; 4];
   example_metric no_overrides (3 / 10) [5; 9]].

Definition example_ensemble : @fidelity (example_collab true) :=
  @EnsembleFidelityObj (example_collab true) no_overrides example_members 0.
(** ** Vocabulary of the statements about matrix.py *)

(** [product], [norm] and [gram_schmidt] of [Matrix] at the exact
    arithmetic, written out over [C] (lemma [exact_gram_schmidt] and its
    neighbours: they are the same functions).  The proofs that hold in
    exact arithmetic only are carried out on this form. *)
Module Exact.

Definition product (a b : vec) : C := dot (map Cconj a) b.

Definition norm (a : vec) : C := Csqrt (product a a).

Definition inner_step (res : matrix) (q : vec) (i : nat) : vec :=
  let rij := product (row res i) q in
  vsub q (vscale rij (row res i)).

Definition residual (res : matrix) (vj : vec) (i : nat) : vec :=
  fold_left (inner_step res) (seq 0 i) vj.

Definition outer_step (vecs : matrix) (res : matrix) (j : nat)
    : result matrix :=
  let q := residual res (row vecs j) j in
  let rjj := norm q in
  if Ceqb rjj C0 then Raise ArithmeticError
  else Ok (set_row j (vdiv q rjj) res).

Fixpoint outer_loop (vecs : matrix) (js : list nat) (res : matrix)
    : result matrix :=
  match js with
  | [] => Ok res
  | j :: js' =>
      match outer_step vecs res j with
      | Ok res' => outer_loop vecs js' res'
      | Raise e => Raise e
      end
  end.

Definition gs_upto (vecs : matrix) (m : nat) : result matrix :=
  match vecs with
  | [] => Raise IndexError
  | v0 :: _ =>
      let result := zeros_like vecs in
      let r := norm v0 in
      if Ceqb r C0 then Raise ArithmeticError
      else outer_loop vecs (seq 1 (m - 1)) (set_row 0 (vdiv v0 r) result)
  end.

Definition gram_schmidt (vecs : matrix) : result matrix :=
  gs_upto vecs (nrows vecs).

End Exact.

(** Sum of the squared moduli of the entries. *)
Definition sumsq (a : vec) : R := fold_right (fun z acc => Cmod2 z + acc) 0 a.

Definition all_zero (a : vec) : Prop := Forall (fun z => z = C0) a.

(** An array with rows of length [d]. *)
Definition rectangular {T : Type} (d : nat) (m : list (list T)) : Prop :=
  Forall (fun v => length v = d) m.

(** The rows of [vs] are linearly independent: a combination of the rows
    with coefficients [cs] that vanishes in every component has all
    coefficients zero.  Component [k] of the combination is
    [dot cs (col vs k)]. *)
Definition lin_indep (d : nat) (vs : matrix) : Prop :=
  forall cs : vec, length cs = length vs ->
    (forall k, (k < d)%nat -> dot cs (col vs k) = C0) -> all_zero cs.

(** [w] is, in its first [d] components, a combination of the first [m]
    rows of [vs]. *)
Definition in_span (vs : matrix) (d m : nat) (w : vec) : Prop :=
  exists cs : vec, length cs = length vs /\
    (forall t, (m <= t)%nat -> nth t cs C0 = C0) /\
    (forall k, (k < d)%nat -> nth k w C0 = dot cs (col vs k)).

Definition unit_vec (n j : nat) : vec :=
  map (fun i => if Nat.eqb i j then C1 else C0) (seq 0 n).

(** The first [m] rows of [res] have length [d] and are orthonormal for
    [Exact.product]. *)
Definition ortho_upto (res : matrix) (d m : nat) : Prop :=
  (forall i, (i < m)%nat -> length (row res i) = d) /\
  (forall i k, (i < m)%nat -> (k < m)%nat ->
     Exact.product (row res i) (row res k) = if Nat.eqb i k then C1 else C0).

(** Row [i] of [res] is a combination of the rows [0..i] of [vecs], for
    the first [m] rows. *)
Definition spanned (vecs : matrix) (d : nat) (res : matrix) (m : nat) : Prop :=
  forall i, (i < m)%nat -> in_span vecs d (S i) (row res i).

(** Two independent rows in dimension 2. *)
Definition example_vecs : matrix :=
  [[RtoC 1; RtoC 0]; [RtoC 1; RtoC 1]].

(** A 1 by 1 matrix that is off the unit circle by one part in a million. *)
Definition almost_one : matrix := [[RtoC (1000001 / 1000000)]].

(** Kronecker delta, the entries of [np.eye]. *)
Definition delta (i j : nat) : R := if Nat.eqb i j then 1 else 0.


(** The members of an ensemble; the other classes have none. *)
Definition members {collab : Collaborators} (self : fidelity)
    : list fidelity :=
  match self with
  | EnsembleFidelityObj _ fids _ => fids
  | _ => []
  end.

(** An instance of [FidelityBase] itself, which implements no core. *)
Definition example_unimplemented : @fidelity (example_collab true) :=
  @FidelityBase.__init__ (example_collab true) None None no_overrides
    (example_system_init true).

(** ** tests/test_spins.py *)

Module TestSpins.

(** An imaginary literal [xj]. *)
Definition Cj (x : R) : C := (0, x).
Definition Ci : C := Cj 1.

(** [controls[i]] on a sequence of floats. *)
Definition getitem (controls : list R) (i : nat) : result R :=
  match nth_error controls i with
  | Some x => Ok x
  | None => Raise IndexError
  end.

(** [single_hf(controls, omega)]: the five Fourier components of the
    Hamiltonian of one spin, a 5 x 2 x 2 complex array. *)
Definition single_hf (controls : list R) (omega : R) : result (list matrix) :=
  match getitem controls 0 with
  | Raise e => Raise e
  | Ok a1 =>
  match getitem controls 1 with
  | Raise e => Raise e
  | Ok b1 =>
  match getitem controls 2 with
  | Raise e => Raise e
  | Ok a2 =>
  match getitem controls 3 with
  | Raise e => Raise e
  | Ok b2 =>
      let q := RtoC (25 / 100) in
      Ok [ [ [C0; Cmul q (Cadd (Cmul Ci (RtoC a2)) (RtoC b2))];
             [Cmul (Cmul q Ci) (Cadd (RtoC a2) (Cmul Ci (RtoC b2))); C0] ];
           [ [C0; Cmul q (Cadd (Cmul Ci (RtoC a1)) (RtoC b1))];
             [Cmul (Cmul q Ci) (Cadd (RtoC a1) (Cmul Ci (RtoC b1))); C0] ];
           [ [RtoC (omega / 2); C0];
             [C0; RtoC (- (omega / 2))] ];
           [ [C0; Cmul (Copp (Cj (25 / 100)))
                       (Csub (RtoC a1) (Cmul Ci (RtoC b1)))];
             [Cmul q (Cadd (Cmul (Copp Ci) (RtoC a1)) (RtoC b1)); C0] ];
           [ [C0; Cmul (Copp (Cj (25 / 100)))
                       (Csub (RtoC a2) (Cmul Ci (RtoC b2)))];
             [Cmul q (Cadd (Cmul (Copp Ci) (RtoC a2)) (RtoC b2)); C0] ] ]
  end end end end.

End TestSpins.

(** Overrides whose per-iteration hook raises. *)
Definition example_hook_raises : @overrides (example_collab true) :=
  @mkOverrides (example_collab true) None None
    (Some (fun _ => Raise ValueError)).

(** Overrides with a penalty of 2 and a penalty gradient of [10, 20] on
    every input. *)
Definition example_penalties : @overrides (example_collab true) :=
  @mkOverrides (example_collab true)
    (Some (fun _ => Ok (VFloat 2))) (Some (fun _ => Ok (VArray [10; 20])))
    None.

(** ** Arrays of dtype float64 used in the statements about rounding *)

Module Binary64.

Import PrimFloat.

Local Open Scope float_scope.

(** [2**-600], whose square underflows to zero, and the one-row array
    [[2**-600, 0]]. *)
Definition tiny : float := 0x1p-600.
Definition tiny_row : list (list float) := [[tiny; 0]].

(** [[1, 1], [2, 2]]: the second row is twice the first. *)
Definition proportional_rows : list (list float) := [[1; 1]; [2; 2]].

(** [[1, 1], [1, 1 + 2**-52]]: independent rows that differ in the last
    bit of one entry. *)
Definition nearly_parallel_rows : list (list float) :=
  [[1; 1]; [1; 0x1.0000000000001p+0]].

(** [[0.6, -0.8], [c, c]] with [c = 1.375 * 2**-538], the doubles nearest
    to 0.6 and 0.8 written out. *)
Definition small : float := 0x1.6p-538.
Definition small_rows : list (list float) :=
  [[0x1.3333333333333p-1; - 0x1.999999999999ap-1]; [small; small]].


Definition half : float := 0x1p-1.

(** The real number that a double stands for (0 for what is not
    finite), and an array of doubles as an array of exact numbers. *)
Definition SF2R (x : SpecFloat.spec_float) : R :=
  match x with
  | SpecFloat.S754_finite s m e =>
      ((if s then -1 else 1) * IZR (Zpos m) * powerRZ 2 e)%R
  | _ => 0%R
  end.

Definition to_R (x : float) : R := SF2R (FloatOps.Prim2SF x).

Definition to_exact (m : list (list float)) : matrix :=
  map (map (fun x => RtoC (to_R x))) m.

End Binary64.

(** * matrix.py at the exact arithmetic *)

(** [Exact] is [Matrix] at [exact_arith]. *)
Lemma exact_product (a b : vec) : Matrix.product a b = Exact.product a b.
Proof. reflexivity. Qed.

Lemma exact_norm (a : vec) : Matrix.norm a = Exact.norm a.
Proof. reflexivity. Qed.

Lemma exact_residual (res : matrix) (v : vec) (i : nat) :
  Matrix.residual res v i = Exact.residual res v i.
Proof. reflexivity. Qed.

Lemma exact_outer_loop (vecs : matrix) (js : list nat) (res : matrix) :
  Matrix.outer_loop vecs js res = Exact.outer_loop vecs js res.
Proof. reflexivity. Qed.

Lemma exact_gs_upto (vecs : matrix) (m : nat) :
  Matrix.gs_upto vecs m = Exact.gs_upto vecs m.
Proof. reflexivity. Qed.

Lemma exact_gram_schmidt (vecs : matrix) :
  Matrix.gram_schmidt vecs = Exact.gram_schmidt vecs.
Proof. reflexivity. Qed.

(** Rewrites a goal about [Matrix] at the exact arithmetic into the
    written-out form. *)
Ltac exact_form :=
  change (@Matrix.product exact_arith) with Exact.product in *;
  change (@Matrix.norm exact_arith) with Exact.norm in *;
  change (@Matrix.residual exact_arith) with Exact.residual in *;
  change (@Matrix.gs_upto exact_arith) with Exact.gs_upto in *;
  change (@Matrix.gram_schmidt exact_arith) with Exact.gram_schmidt in *.

(** * gram_schmidt over every arithmetic *)

Section GramSchmidtGeneric.

Context {A : Arithmetic}.









(** ** The loops *)




Lemma gs_outer_loop_app (vecs : list (list num)) (l1 l2 : list nat)
    (res : list (list num)) :
  Matrix.outer_loop vecs (l1 ++ l2) res =
  match Matrix.outer_loop vecs l1 res with
  | Ok r => Matrix.outer_loop vecs l2 r
  | Raise e => Raise e
  end.
Proof.
  revert res. induction l1 as [|j l1 IH]; intros res; simpl; [reflexivity|].
  destruct (Matrix.outer_step vecs res j); [apply IH | reflexivity].
Qed.

Lemma gs_upto_step (vecs : list (list num)) (m : nat) :
  (1 <= m)%nat ->
  Matrix.gs_upto vecs (S m) =
  match Matrix.gs_upto vecs m with
  | Ok res => Matrix.outer_step vecs res m
  | Raise e => Raise e
  end.
Proof.
  intros Hm. unfold Matrix.gs_upto. destruct vecs as [|v0 vecs]; [reflexivity|].
  destruct (n_is_zero (Matrix.norm v0)); [reflexivity|].
  replace (S m - 1)%nat with ((m - 1) + 1)%nat by lia.
  rewrite seq_app, gs_outer_loop_app.
  replace (1 + (m - 1))%nat with m by lia. simpl.
  destruct (Matrix.outer_loop _ _ _); [|reflexivity].
  destruct (Matrix.outer_step _ _ _); reflexivity.
Qed.

(** A raise ends the computation: later rounds are not run. *)
Lemma gs_upto_raise_later (vecs : list (list num)) (e : exn) (m m' : nat) :
  (m <= m')%nat ->
  Matrix.gs_upto vecs m = Raise e -> Matrix.gs_upto vecs m' = Raise e.
Proof.
  intros Hle Hm. induction Hle as [|m' Hle IH]; [assumption|].
  destruct (Nat.eq_dec m' 0) as [->|Hn].
  - assert (m = 0)%nat by lia. subst. exact Hm.
  - rewrite gs_upto_step by lia. rewrite IH. reflexivity.
Qed.

Lemma gs_outer_step_raise (vecs res : list (list num)) (j : nat) (e : exn) :
  Matrix.outer_step vecs res j = Raise e <->
  e = ArithmeticError /\
  n_is_zero (Matrix.norm (Matrix.residual res (Arr.row vecs j) j)) = true.
Proof.
  unfold Matrix.outer_step.
  destruct (n_is_zero _) eqn:E; split.
  - intros H. injection H as <-. split; reflexivity.
  - intros [-> _]. reflexivity.
  - discriminate.
  - intros [_ H]. discriminate H.
Qed.


(** The first failing round, when row 0 passed. *)
Lemma gs_first_raise (vecs : list (list num)) (m : nat) :
  Matrix.gs_upto vecs m = Raise ArithmeticError ->
  (vecs <> [] /\ n_is_zero (Matrix.norm (Arr.row vecs 0)) = true) \/
  exists j res, (1 <= j < m)%nat /\ Matrix.gs_upto vecs j = Ok res /\
    n_is_zero (Matrix.norm (Matrix.residual res (Arr.row vecs j) j)) = true.
Proof.
  induction m as [|m IH]; intros Hm.
  - left. unfold Matrix.gs_upto in Hm.
    destruct vecs as [|v0 vecs]; [discriminate|].
    split; [discriminate|]. unfold Arr.row; simpl nth.
    destruct (n_is_zero (Matrix.norm v0)); [reflexivity | discriminate].
  - destruct (Nat.eq_dec m 0) as [->|Hn].
    + destruct (IH Hm) as [H0|(j & _ & Hj & _)]; [left; exact H0 | lia].
    + rewrite gs_upto_step in Hm by lia.
      destruct (Matrix.gs_upto vecs m) as [res|e] eqn:E.
      * right. exists m, res. apply gs_outer_step_raise in Hm.
        split; [lia|]. split; [exact E | apply Hm].
      * injection Hm as ->.
        destruct (IH eq_refl) as [H0|(j & res & Hj & H1 & H2)].
        -- left; exact H0.
        -- right. exists j, res. split; [lia|]. split; assumption.
Qed.

Lemma gs_upto_raises (vecs : list (list num)) (m : nat) (e : exn) :
  Matrix.gs_upto vecs m = Raise e ->
  (vecs = [] /\ e = IndexError) \/ (vecs <> [] /\ e = ArithmeticError).
Proof.
  induction m as [|m IH]; intros Hm.
  - unfold Matrix.gs_upto in Hm. destruct vecs as [|v0 vecs].
    + left. split; congruence.
    + right. destruct (n_is_zero _); simpl in Hm; [|discriminate].
      split; congruence.
  - destruct (Nat.eq_dec m 0) as [->|Hn]; [apply IH; exact Hm|].
    rewrite gs_upto_step in Hm by lia.
    destruct (Matrix.gs_upto vecs m) as [res|e'] eqn:E.
    + apply gs_outer_step_raise in Hm. destruct Hm as [-> _].
      right. split; [|reflexivity]. intros ->. discriminate.
    + injection Hm as ->. apply IH. reflexivity.
Qed.

(** C3 (as amended).  In whatever arithmetic the array has,
    [gram_schmidt] raises its [ArithmeticError] (the spec's
    DegenerateVectorError) exactly when a norm that the code tests
    compares equal to zero: the computed norm of the first input row, or,
    in a round [j >= 1] that the computation reaches, the computed norm
    of the residual of [vecs[j]] after the projections onto all [j] rows
    orthonormalised before have been subtracted.  The test is the
    comparison [== 0.0] of the code; the norm of a later input row and the
    norms of the residuals in the middle of a round are not tested. *)
Theorem gram_schmidt_raises_iff_zero_norm (vecs : list (list num)) :
  Matrix.gram_schmidt vecs = Raise ArithmeticError <->
  (vecs <> [] /\ n_is_zero (Matrix.norm (Arr.row vecs 0)) = true) \/
  (exists j res, (1 <= j < length vecs)%nat /\
     Matrix.gs_upto vecs j = Ok res /\
     n_is_zero (Matrix.norm (Matrix.residual res (Arr.row vecs j) j)) = true).
Proof.
  unfold Matrix.gram_schmidt. split.
  - apply gs_first_raise.
  - intros [[Hne H0]|(j & res & Hj & Hres & Hz)].
    + unfold Matrix.gs_upto. destruct vecs as [|v0 vecs]; [congruence|].
      unfold Arr.row in H0; simpl in H0. rewrite H0. reflexivity.
    + apply (gs_upto_raise_later vecs _ (S j)); [lia|].
      rewrite gs_upto_step by lia. rewrite Hres.
      apply gs_outer_step_raise. split; [reflexivity | exact Hz].
Qed.

(** ** Errors and the shape of the result *)

(** X7.  [gram_schmidt] raises [IndexError] exactly on an array without
    rows, and no other error than [IndexError] and [ArithmeticError],
    in every arithmetic. *)
Theorem gram_schmidt_errors (vecs : list (list num)) :
  (Matrix.gram_schmidt vecs = Raise IndexError <-> vecs = []) /\
  (forall e, Matrix.gram_schmidt vecs = Raise e ->
     e = IndexError \/ e = ArithmeticError).
Proof.
  split.
  - split.
    + intros H. destruct (gs_upto_raises _ _ _ H) as [[Hv _]|[_ He]];
        [exact Hv | discriminate].
    + intros ->. reflexivity.
  - intros e H. destruct (gs_upto_raises _ _ _ H) as [[_ He]|[_ He]]; auto.
Qed.





End GramSchmidtGeneric.
(** * Properties *)

(** ** Complex arithmetic *)

Lemma C_eq (z w : C) : fst z = fst w -> snd z = snd w -> z = w.
Proof. destruct z, w; simpl; intros; subst; reflexivity. Qed.

Ltac csimpl :=
  unfold Cdiv, Cinv, Cadd, Csub, Cmul, Copp, Cconj, Cmod2, RtoC, C0, C1 in *;
  simpl fst in *; simpl snd in *.

Ltac cring := intros; apply C_eq; csimpl; ring.

Lemma C_ring_theory : ring_theory C0 C1 Cadd Cmul Csub Copp (@eq C).
Proof.
  constructor; intros; apply C_eq; csimpl; ring.
Qed.

Add Ring C_ring : C_ring_theory.

Lemma Ceqb_true_iff (z w : C) : Ceqb z w = true <-> z = w.
Proof.
  unfold Ceqb. destruct z as [a b], w as [c d]; simpl.
  destruct (Req_dec_T a c); [destruct (Req_dec_T b d)|]; split; intros H;
    try discriminate; try reflexivity; try congruence.
Qed.

Lemma Ceqb_false_iff (z w : C) : Ceqb z w = false <-> z <> w.
Proof.
  rewrite <- Ceqb_true_iff. destruct (Ceqb z w); split; congruence.
Qed.

Lemma Cmod2_nonneg (z : C) : 0 <= Cmod2 z.
Proof. unfold Cmod2. nra. Qed.

Lemma Cmod2_zero_iff (z : C) : Cmod2 z = 0 <-> z = C0.
Proof.
  destruct z as [a b]; unfold Cmod2, C0; simpl. split.
  - intros H. assert (a = 0) by nra. assert (b = 0) by nra. subst. reflexivity.
  - intros H. injection H as -> ->. ring.
Qed.

Lemma Cmul_conj_self (z : C) : Cmul (Cconj z) z = RtoC (Cmod2 z).
Proof. cring. Qed.

Lemma Cconj_involutive (z : C) : Cconj (Cconj z) = z.
Proof. cring. Qed.

Lemma Cconj_mul (z w : C) : Cconj (Cmul z w) = Cmul (Cconj z) (Cconj w).
Proof. cring. Qed.

Lemma Cconj_add (z w : C) : Cconj (Cadd z w) = Cadd (Cconj z) (Cconj w).
Proof. cring. Qed.

Lemma Cconj_C0 : Cconj C0 = C0.
Proof. cring. Qed.

Lemma Cabs_RtoC (x : R) : 0 <= x -> Cabs (RtoC x) = x.
Proof.
  intros Hx. unfold Cabs, Cmod2, RtoC; simpl.
  replace (x * x + 0 * 0) with (x * x) by ring.
  apply sqrt_square; assumption.
Qed.

(** The principal square root of a non-negative real is its real root. *)
Lemma Csqrt_RtoC (x : R) : 0 <= x -> Csqrt (RtoC x) = RtoC (sqrt x).
Proof.
  intros Hx. unfold Csqrt. rewrite Cabs_RtoC by assumption.
  unfold RtoC; simpl. apply C_eq; simpl.
  - f_equal. lra.
  - replace ((x - x) / 2) with 0 by lra. rewrite sqrt_0. ring.
Qed.

Lemma RtoC_inj (x y : R) : RtoC x = RtoC y -> x = y.
Proof. unfold RtoC. congruence. Qed.

Lemma Cmul_inv_r (z : C) : z <> C0 -> Cmul z (Cinv z) = C1.
Proof.
  intros Hz. assert (Hm : Cmod2 z <> 0) by (rewrite Cmod2_zero_iff; exact Hz).
  apply C_eq; csimpl; field; exact Hm.
Qed.

(** ** Dot product, inner product and norm *)

Lemma sumsq_nonneg (a : vec) : 0 <= sumsq a.
Proof.
  induction a as [|z a IH]; simpl; [lra|].
  pose proof (Cmod2_nonneg z). lra.
Qed.

Lemma sumsq_zero_iff (a : vec) : sumsq a = 0 <-> all_zero a.
Proof.
  induction a as [|z a IH]; simpl.
  - split; [constructor | reflexivity].
  - pose proof (Cmod2_nonneg z). pose proof (sumsq_nonneg a). split.
    + intros H1. constructor.
      * apply Cmod2_zero_iff. lra.
      * apply IH. lra.
    + intros H1. inversion H1; subst.
      assert (sumsq a = 0) by (apply IH; assumption).
      assert (Cmod2 C0 = 0) by (apply Cmod2_zero_iff; reflexivity). lra.
Qed.

Lemma product_self (a : vec) : Exact.product a a = RtoC (sumsq a).
Proof.
  unfold Exact.product, dot.
  induction a as [|z a IH]; simpl; [reflexivity|].
  rewrite IH, Cmul_conj_self. cring.
Qed.

Lemma norm_eq (a : vec) : Exact.norm a = RtoC (sqrt (sumsq a)).
Proof.
  unfold Exact.norm. rewrite product_self.
  apply Csqrt_RtoC, sumsq_nonneg.
Qed.

Lemma norm_zero_iff (a : vec) : Exact.norm a = C0 <-> all_zero a.
Proof.
  rewrite norm_eq, <- sumsq_zero_iff. split.
  - intros H. apply RtoC_inj in H.
    apply sqrt_eq_0 in H; [assumption | apply sumsq_nonneg].
  - intros ->. rewrite sqrt_0. reflexivity.
Qed.

(** ** Gram-Schmidt: when it raises *)

Lemma all_zero_dot_r (a q : vec) : all_zero q -> dot a q = C0.
Proof.
  unfold dot. revert q. induction a as [|x a IH]; intros q Hq; [reflexivity|].
  destruct q as [|y q]; [reflexivity|]. inversion Hq; subst. simpl.
  rewrite IH by assumption. cring.
Qed.

Lemma all_zero_inner_step (res : matrix) (q : vec) (i : nat) :
  all_zero q -> all_zero (Exact.inner_step res q i).
Proof.
  intros Hq. unfold Exact.inner_step, Exact.product.
  rewrite all_zero_dot_r by assumption.
  generalize (row res i) as r. unfold vsub, vscale.
  induction Hq as [|y q Hy Hq IH]; intros r; [constructor|].
  destruct r as [|x r]; simpl; [constructor|].
  constructor; [subst y; cring | apply IH].
Qed.

Lemma all_zero_fold_inner (res : matrix) (l : list nat) (q : vec) :
  all_zero q -> all_zero (fold_left (Exact.inner_step res) l q).
Proof.
  revert q. induction l as [|i l IH]; intros q Hq; simpl; [assumption|].
  apply IH, all_zero_inner_step, Hq.
Qed.

Lemma residual_split (res : matrix) (v : vec) (i j : nat) :
  (i <= j)%nat ->
  Exact.residual res v j =
  fold_left (Exact.inner_step res) (seq i (j - i)) (Exact.residual res v i).
Proof.
  intros Hij. unfold Exact.residual.
  replace j with (i + (j - i))%nat at 1 by lia.
  rewrite seq_app, fold_left_app. reflexivity.
Qed.

(** Once a residual vanishes it stays zero for the rest of the inner loop. *)
Lemma residual_zero_mono (res : matrix) (v : vec) (i j : nat) :
  (i <= j)%nat ->
  all_zero (Exact.residual res v i) -> all_zero (Exact.residual res v j).
Proof.
  intros Hij Hz. rewrite (residual_split res v i j Hij).
  apply all_zero_fold_inner, Hz.
Qed.

Lemma outer_loop_app (vecs : matrix) (l1 l2 : list nat) (res : matrix) :
  Exact.outer_loop vecs (l1 ++ l2) res =
  match Exact.outer_loop vecs l1 res with
  | Ok r => Exact.outer_loop vecs l2 r
  | Raise e => Raise e
  end.
Proof.
  revert res. induction l1 as [|j l1 IH]; intros res; simpl; [reflexivity|].
  destruct (Exact.outer_step vecs res j); [apply IH | reflexivity].
Qed.

Lemma gs_upto_succ (vecs : matrix) (m : nat) :
  (1 <= m)%nat ->
  Exact.gs_upto vecs (S m) =
  match Exact.gs_upto vecs m with
  | Ok res => Exact.outer_step vecs res m
  | Raise e => Raise e
  end.
Proof.
  intros Hm. unfold Exact.gs_upto. destruct vecs as [|v0 vecs]; [reflexivity|].
  destruct (Ceqb (Exact.norm v0) C0); [reflexivity|].
  replace (S m - 1)%nat with ((m - 1) + 1)%nat by lia.
  rewrite seq_app, outer_loop_app.
  replace (1 + (m - 1))%nat with m by lia. simpl.
  destruct (Exact.outer_loop _ _ _); [|reflexivity].
  destruct (Exact.outer_step _ _ _); reflexivity.
Qed.

Lemma gs_upto_raise_mono (vecs : matrix) (e : exn) (m m' : nat) :
  (m <= m')%nat ->
  Exact.gs_upto vecs m = Raise e -> Exact.gs_upto vecs m' = Raise e.
Proof.
  intros Hle Hm. induction Hle as [|m' Hle IH]; [assumption|].
  destruct (Nat.eq_dec m' 0) as [->|Hn].
  - assert (m = 0)%nat by lia. subst. exact Hm.
  - rewrite gs_upto_succ by lia. rewrite IH. reflexivity.
Qed.

Lemma outer_step_raises (vecs res : matrix) (j : nat) (e : exn) :
  Exact.outer_step vecs res j = Raise e ->
  e = ArithmeticError /\
  Exact.norm (Exact.residual res (row vecs j) j) = C0.
Proof.
  unfold Exact.outer_step.
  destruct (Ceqb _ C0) eqn:E; [|discriminate].
  intros H. injection H as <-. split; [reflexivity|].
  apply Ceqb_true_iff, E.
Qed.

Lemma outer_step_zero (vecs res : matrix) (j i : nat) :
  (i <= j)%nat ->
  Exact.norm (Exact.residual res (row vecs j) i) = C0 ->
  Exact.outer_step vecs res j = Raise ArithmeticError.
Proof.
  intros Hij Hz. unfold Exact.outer_step.
  assert (Hn : Exact.norm (Exact.residual res (row vecs j) j) = C0).
  { apply norm_zero_iff, (residual_zero_mono res _ i j Hij), norm_zero_iff, Hz. }
  apply Ceqb_true_iff in Hn. rewrite Hn. reflexivity.
Qed.

(** The first failing round, when row 0 passed. *)
Lemma gs_upto_raise_round (vecs : matrix) (m : nat) :
  Exact.gs_upto vecs m = Raise ArithmeticError ->
  Exact.norm (row vecs 0) = C0 \/
  exists j res, (1 <= j < m)%nat /\ Exact.gs_upto vecs j = Ok res /\
                Exact.norm (Exact.residual res (row vecs j) j) = C0.
Proof.
  induction m as [|m IH]; intros Hm.
  - left. unfold Exact.gs_upto in Hm. destruct vecs as [|v0 vecs]; [discriminate|].
    unfold row; simpl nth.
    destruct (Ceqb (Exact.norm v0) C0) eqn:E; [|discriminate].
    apply Ceqb_true_iff, E.
  - destruct (Nat.eq_dec m 0) as [->|Hn].
    + destruct (IH Hm) as [H0|(j & _ & Hj & _)]; [left; exact H0 | lia].
    + rewrite gs_upto_succ in Hm by lia.
      destruct (Exact.gs_upto vecs m) as [res|e] eqn:E.
      * right. exists m, res. apply outer_step_raises in Hm.
        repeat split; try lia; [exact E | apply Hm].
      * injection Hm as ->. destruct (IH eq_refl) as [H0|(j & res & Hj & H1 & H2)].
        -- left; exact H0.
        -- right. exists j, res. repeat split; try lia; assumption.
Qed.

Lemma gs_upto_exn (vecs : matrix) (m : nat) (e : exn) :
  Exact.gs_upto vecs m = Raise e ->
  (vecs = [] /\ e = IndexError) \/ (vecs <> [] /\ e = ArithmeticError).
Proof.
  induction m as [|m IH]; intros Hm.
  - unfold Exact.gs_upto in Hm. destruct vecs as [|v0 vecs].
    + left. split; congruence.
    + right. destruct (Ceqb _ C0); simpl in Hm; [|discriminate].
      split; congruence.
  - destruct (Nat.eq_dec m 0) as [->|Hn]; [apply IH; exact Hm|].
    rewrite gs_upto_succ in Hm by lia.
    destruct (Exact.gs_upto vecs m) as [res|e'] eqn:E.
    + apply outer_step_raises in Hm. destruct Hm as [-> _].
      right. split; [|reflexivity]. intros ->. discriminate.
    + injection Hm as ->. apply IH. reflexivity.
Qed.

(** Round [j] raises when it starts from a residual of norm zero. *)
Lemma gs_round_zero (vecs : matrix) (j i : nat) :
  (1 <= j < nrows vecs)%nat -> (i <= j)%nat ->
  (forall res, Exact.gs_upto vecs j = Ok res ->
               Exact.norm (Exact.residual res (row vecs j) i) = C0) ->
  Exact.gram_schmidt vecs = Raise ArithmeticError.
Proof.
  intros Hj Hij Hz. unfold Exact.gram_schmidt.
  apply (gs_upto_raise_mono vecs _ (S j)); [lia|].
  rewrite gs_upto_succ by lia.
  destruct (Exact.gs_upto vecs j) as [res|e] eqn:E.
  - apply (outer_step_zero vecs res j i Hij), Hz. reflexivity.
  - destruct (gs_upto_exn _ _ _ E) as [[-> _]|[_ ->]]; [|reflexivity].
    simpl in Hj. lia.
Qed.

(** At the exact arithmetic a zero norm is the norm of a zero vector, and a
    residual that has vanished stays zero: there [gram_schmidt] raises
    exactly when some input row, or some residual in any round the
    computation reaches, has norm zero. *)
Lemma exact_raises_iff_zero_norm (vecs : matrix) :
  Exact.gram_schmidt vecs = Raise ArithmeticError <->
  (exists j, (j < nrows vecs)%nat /\ Exact.norm (row vecs j) = C0) \/
  (exists j i res, (1 <= j < nrows vecs)%nat /\ (i <= j)%nat /\
     Exact.gs_upto vecs j = Ok res /\
     Exact.norm (Exact.residual res (row vecs j) i) = C0).
Proof.
  split.
  - intros H. unfold Exact.gram_schmidt in H.
    assert (Hne : (0 < nrows vecs)%nat).
    { destruct vecs; [discriminate | simpl; lia]. }
    destruct (gs_upto_raise_round _ _ H) as [H0|(j & res & Hj & H1 & H2)].
    + left. exists 0%nat. split; assumption.
    + right. exists j, j, res. repeat split; try lia; assumption.
  - intros [(j & Hj & Hz)|(j & i & res & Hj & Hij & Hres & Hz)].
    + destruct (Nat.eq_dec j 0) as [->|Hn].
      * unfold Exact.gram_schmidt, Exact.gs_upto.
        destruct vecs as [|v0 vecs]; [simpl in Hj; lia|].
        unfold row in Hz; simpl in Hz. apply Ceqb_true_iff in Hz.
        rewrite Hz. reflexivity.
      * apply (gs_round_zero vecs j 0); [lia | lia |].
        intros res _. exact Hz.
    + apply (gs_round_zero vecs j i); [lia | assumption |].
      intros res' Hres'. rewrite Hres in Hres'. injection Hres' as <-. exact Hz.
Qed.

(** ** Vector algebra *)

Lemma vsub_length (a b : vec) :
  length a = length b -> length (vsub a b) = length a.
Proof.
  intros H. unfold vsub. rewrite length_map, length_combine. lia.
Qed.

Lemma vscale_length (c : C) (a : vec) : length (vscale c a) = length a.
Proof. apply length_map. Qed.

Lemma vdiv_length (a : vec) (r : C) : length (vdiv a r) = length a.
Proof. apply length_map. Qed.

Lemma vdiv_vscale (a : vec) (r : C) : vdiv a r = vscale (Cinv r) a.
Proof. unfold vdiv, vscale. apply map_ext. cring. Qed.

Lemma nth_vscale (c : C) (a : vec) (k : nat) :
  nth k (vscale c a) C0 = Cmul c (nth k a C0).
Proof.
  unfold vscale. revert k. induction a as [|x a IH]; intros [|k]; simpl;
    try apply IH; try reflexivity; cring.
Qed.

Lemma nth_vsub (a b : vec) (k : nat) :
  length a = length b ->
  nth k (vsub a b) C0 = Csub (nth k a C0) (nth k b C0).
Proof.
  unfold vsub. revert b k. induction a as [|x a IH]; intros [|y b] k Hl;
    try discriminate.
  - destruct k; cring.
  - destruct k; simpl; [reflexivity|]. apply IH. simpl in Hl. lia.
Qed.

Lemma dot_nil_r (a : vec) : dot a [] = C0.
Proof. unfold dot. destruct a; reflexivity. Qed.

Lemma dot_cons (x y : C) (a b : vec) :
  dot (x :: a) (y :: b) = Cadd (Cmul x y) (dot a b).
Proof. reflexivity. Qed.

Lemma dot_vscale_l (c : C) (a x : vec) :
  dot (vscale c a) x = Cmul c (dot a x).
Proof.
  revert x. induction a as [|y a IH]; intros [|z x]; simpl;
    try (unfold dot; simpl; cring).
  unfold vscale in *. simpl. rewrite !dot_cons, IH. cring.
Qed.

Lemma dot_vscale_r (c : C) (a x : vec) :
  dot a (vscale c x) = Cmul c (dot a x).
Proof.
  revert x. induction a as [|y a IH]; intros [|z x]; simpl;
    try (unfold dot; simpl; cring).
  unfold vscale in *. simpl. rewrite !dot_cons, IH. cring.
Qed.

Lemma dot_vsub_l (a b x : vec) :
  length a = length b ->
  dot (vsub a b) x = Csub (dot a x) (dot b x).
Proof.
  revert b x. induction a as [|y a IH]; intros [|z b] x Hl; try discriminate.
  - unfold dot; simpl. cring.
  - destruct x as [|w x]; [rewrite !dot_nil_r; cring|].
    unfold vsub in *. simpl. rewrite !dot_cons, IH by (simpl in Hl; lia). cring.
Qed.

Lemma dot_vsub_r (a b x : vec) :
  length a = length b ->
  dot x (vsub a b) = Csub (dot x a) (dot x b).
Proof.
  revert b x. induction a as [|y a IH]; intros [|z b] x Hl; try discriminate.
  - unfold vsub; simpl. rewrite !dot_nil_r. cring.
  - destruct x as [|w x]; [unfold dot; simpl; cring|].
    unfold vsub in *. simpl. rewrite !dot_cons, IH by (simpl in Hl; lia). cring.
Qed.

Lemma product_vsub_r (x a b : vec) :
  length a = length b ->
  Exact.product x (vsub a b) = Csub (Exact.product x a) (Exact.product x b).
Proof. intros H. unfold Exact.product. apply dot_vsub_r, H. Qed.

Lemma product_vscale_r (c : C) (x a : vec) :
  Exact.product x (vscale c a) = Cmul c (Exact.product x a).
Proof. unfold Exact.product. apply dot_vscale_r. Qed.

Lemma product_vscale_l (c : C) (x a : vec) :
  Exact.product (vscale c a) x = Cmul (Cconj c) (Exact.product a x).
Proof.
  unfold Exact.product.
  replace (map Cconj (vscale c a)) with (vscale (Cconj c) (map Cconj a)).
  - apply dot_vscale_l.
  - unfold vscale. rewrite !map_map. apply map_ext. intros z.
    rewrite Cconj_mul. reflexivity.
Qed.

(** The inner product is conjugate-symmetric. *)
Lemma product_conj_sym (a b : vec) :
  Exact.product a b = Cconj (Exact.product b a).
Proof.
  unfold Exact.product. revert b.
  induction a as [|x a IH]; intros [|y b]; simpl;
    try (unfold dot; simpl; rewrite ?Cconj_C0; reflexivity).
  rewrite !dot_cons, IH, Cconj_add, Cconj_mul, !Cconj_involutive. cring.
Qed.

(** Normalising a non-zero vector by its norm gives a unit vector. *)
Lemma product_normalised (q : vec) :
  Exact.norm q <> C0 ->
  Exact.product (vdiv q (Exact.norm q)) (vdiv q (Exact.norm q)) = C1.
Proof.
  intros Hn. rewrite vdiv_vscale, product_vscale_l, product_vscale_r.
  rewrite product_self. rewrite norm_eq in *.
  set (S := sumsq q) in *. pose proof (sumsq_nonneg q) as HS. fold S in HS.
  assert (Hs : sqrt S <> 0).
  { intros E. apply Hn. rewrite E. reflexivity. }
  assert (Hsq : sqrt S * sqrt S = S) by (apply sqrt_sqrt; exact HS).
  clearbody S. remember (sqrt S) as s eqn:Es. clear Es Hn HS. subst S.
  apply C_eq; csimpl; field; nra.
Qed.

Lemma norm_of_unit (a : vec) : Exact.product a a = C1 -> Exact.norm a = C1.
Proof.
  intros H. unfold Exact.norm. rewrite H.
  change C1 with (RtoC 1). rewrite Csqrt_RtoC by lra. rewrite sqrt_1. reflexivity.
Qed.

(** ** Spans of the input rows *)

Lemma all_zero_nth (a : vec) (k : nat) : all_zero a -> nth k a C0 = C0.
Proof.
  intros H. revert k. induction H as [|x a Hx _ IH]; intros [|k]; simpl; auto.
Qed.

Lemma dot_repeat_zero (n : nat) (x : vec) : dot (repeat C0 n) x = C0.
Proof.
  revert x. induction n as [|n IH]; intros [|y x]; simpl; try reflexivity.
  rewrite dot_cons, IH. cring.
Qed.

Lemma nth_repeat_zero (n t : nat) : nth t (repeat C0 n) C0 = C0.
Proof.
  revert t. induction n as [|n IH]; intros [|t]; simpl; auto.
Qed.

Lemma dot_unit_from (s n j : nat) (x : vec) :
  length x = n ->
  dot (map (fun i => if Nat.eqb i j then C1 else C0) (seq s n)) x =
  if andb (Nat.leb s j) (Nat.ltb j (s + n)) then nth (j - s) x C0 else C0.
Proof.
  revert s x. induction n as [|n IH]; intros s x Hl.
  - destruct x; [|discriminate]. simpl.
    destruct (Nat.leb s j) eqn:E1; destruct (Nat.ltb j (s + 0)) eqn:E2; simpl;
      try reflexivity.
    apply Nat.leb_le in E1. apply Nat.ltb_lt in E2. lia.
  - destruct x as [|y x]; [discriminate|]. simpl in Hl.
    simpl seq. simpl map. rewrite dot_cons, IH by lia.
    destruct (Nat.eqb s j) eqn:Es.
    + apply Nat.eqb_eq in Es. subst s.
      replace (Nat.leb (S j) j) with false by (symmetry; apply Nat.leb_gt; lia).
      replace (Nat.leb j j) with true by (symmetry; apply Nat.leb_le; lia).
      replace (Nat.ltb j (j + S n)) with true by (symmetry; apply Nat.ltb_lt; lia).
      simpl. rewrite Nat.sub_diag. simpl. cring.
    + apply Nat.eqb_neq in Es.
      destruct (Nat.leb (S s) j) eqn:E1.
      * apply Nat.leb_le in E1.
        replace (Nat.leb s j) with true by (symmetry; apply Nat.leb_le; lia).
        replace (Nat.ltb j (s + S n)) with (Nat.ltb j (S s + n))
          by (f_equal; lia).
        destruct (Nat.ltb j (S s + n)); simpl; [|cring].
        replace (j - s)%nat with (S (j - S s)) by lia. simpl. cring.
      * apply Nat.leb_gt in E1.
        replace (Nat.leb s j) with false by (symmetry; apply Nat.leb_gt; lia).
        simpl. cring.
Qed.

Lemma dot_unit_vec (n j : nat) (x : vec) :
  length x = n -> (j < n)%nat -> dot (unit_vec n j) x = nth j x C0.
Proof.
  intros Hl Hj. unfold unit_vec. rewrite dot_unit_from by assumption.
  simpl. replace (Nat.ltb j n) with true by (symmetry; apply Nat.ltb_lt; lia).
  rewrite Nat.sub_0_r. reflexivity.
Qed.

Lemma unit_vec_length (n j : nat) : length (unit_vec n j) = n.
Proof. unfold unit_vec. rewrite length_map, length_seq. reflexivity. Qed.

Lemma nth_unit_vec (n j t : nat) :
  nth t (unit_vec n j) C0 =
  if andb (Nat.ltb t n) (Nat.eqb t j) then C1 else C0.
Proof.
  unfold unit_vec. set (f := fun i : nat => if Nat.eqb i j then C1 else C0).
  destruct (Nat.ltb t n) eqn:E.
  - apply Nat.ltb_lt in E.
    rewrite (nth_indep _ C0 (f 0%nat))
      by (rewrite length_map, length_seq; exact E).
    rewrite map_nth, seq_nth by exact E. reflexivity.
  - apply Nat.ltb_ge in E. simpl. apply nth_overflow.
    rewrite length_map, length_seq. exact E.
Qed.

Lemma col_length (vs : matrix) (k : nat) : length (col vs k) = length vs.
Proof. apply length_map. Qed.

Lemma nth_col (vs : matrix) (k j : nat) :
  nth j (col vs k) C0 = nth k (row vs j) C0.
Proof.
  unfold col, row. revert j. induction vs as [|v vs IH]; intros [|j]; simpl;
    try reflexivity; try apply IH; destruct k; reflexivity.
Qed.

Lemma in_span_mono (vs : matrix) (d m m' : nat) (w : vec) :
  (m <= m')%nat -> in_span vs d m w -> in_span vs d m' w.
Proof.
  intros Hm (cs & Hl & Hs & Hw). exists cs. repeat split; auto.
  intros t Ht. apply Hs. lia.
Qed.

Lemma in_span_ext (vs : matrix) (d m : nat) (w w' : vec) :
  (forall k, (k < d)%nat -> nth k w' C0 = nth k w C0) ->
  in_span vs d m w -> in_span vs d m w'.
Proof.
  intros He (cs & Hl & Hs & Hw). exists cs. repeat split; auto.
  intros k Hk. rewrite He by exact Hk. apply Hw, Hk.
Qed.

Lemma in_span_zero (vs : matrix) (d m : nat) (w : vec) :
  (forall k, (k < d)%nat -> nth k w C0 = C0) -> in_span vs d m w.
Proof.
  intros Hz. exists (repeat C0 (length vs)). repeat split.
  - apply repeat_length.
  - intros t _. apply nth_repeat_zero.
  - intros k Hk. rewrite dot_repeat_zero. apply Hz, Hk.
Qed.

Lemma in_span_vscale (vs : matrix) (d m : nat) (c : C) (w : vec) :
  in_span vs d m w -> in_span vs d m (vscale c w).
Proof.
  intros (cs & Hl & Hs & Hw). exists (vscale c cs). repeat split.
  - rewrite vscale_length. exact Hl.
  - intros t Ht. rewrite nth_vscale, Hs by exact Ht. cring.
  - intros k Hk. rewrite nth_vscale, dot_vscale_l, Hw by exact Hk. reflexivity.
Qed.

Lemma in_span_vsub (vs : matrix) (d m : nat) (a b : vec) :
  length a = length b ->
  in_span vs d m a -> in_span vs d m b -> in_span vs d m (vsub a b).
Proof.
  intros Hab (ca & Hla & Hsa & Hwa) (cb & Hlb & Hsb & Hwb).
  exists (vsub ca cb). repeat split.
  - rewrite vsub_length; congruence.
  - intros t Ht. rewrite nth_vsub, Hsa, Hsb by (congruence || exact Ht). cring.
  - intros k Hk.
    rewrite nth_vsub, dot_vsub_l, Hwa, Hwb by (congruence || exact Hk).
    reflexivity.
Qed.

Lemma in_span_row (vs : matrix) (d j : nat) :
  (j < length vs)%nat -> in_span vs d (S j) (row vs j).
Proof.
  intros Hj. exists (unit_vec (length vs) j). repeat split.
  - apply unit_vec_length.
  - intros t Ht. rewrite nth_unit_vec.
    replace (Nat.eqb t j) with false by (symmetry; apply Nat.eqb_neq; lia).
    rewrite andb_false_r. reflexivity.
  - intros k _. rewrite dot_unit_vec by (rewrite ?col_length; auto).
    symmetry. apply nth_col.
Qed.

(** An independent row is no combination of the rows before it. *)
Lemma indep_not_in_span (vs : matrix) (d j : nat) :
  lin_indep d vs -> (j < length vs)%nat -> ~ in_span vs d j (row vs j).
Proof.
  intros Hind Hj (cs & Hl & Hs & Hw).
  assert (Hz : all_zero (vsub cs (unit_vec (length vs) j))).
  { apply Hind.
    - rewrite vsub_length; rewrite ?unit_vec_length; congruence.
    - intros k Hk. rewrite dot_vsub_l by (rewrite unit_vec_length; exact Hl).
      rewrite dot_unit_vec by (rewrite ?col_length; auto).
      rewrite <- Hw by exact Hk. rewrite nth_col. cring. }
  apply (all_zero_nth _ j) in Hz.
  rewrite nth_vsub in Hz by (rewrite unit_vec_length; exact Hl).
  rewrite Hs in Hz by lia. rewrite nth_unit_vec in Hz.
  replace (Nat.ltb j (length vs)) with true in Hz
    by (symmetry; apply Nat.ltb_lt; exact Hj).
  rewrite Nat.eqb_refl in Hz. simpl in Hz.
  unfold Csub, C0, C1 in Hz. simpl in Hz. injection Hz as H1. lra.
Qed.

(** ** Gram-Schmidt: orthonormality *)

Lemma residual_succ (res : matrix) (v : vec) (i : nat) :
  Exact.residual res v (S i) =
  Exact.inner_step res (Exact.residual res v i) i.
Proof.
  unfold Exact.residual. rewrite seq_S, fold_left_app. reflexivity.
Qed.

Lemma Csub_diag (z : C) : Csub z z = C0.
Proof. cring. Qed.

Lemma set_row_length (j : nat) (v : vec) (m : matrix) :
  length (set_row j v m) = length m.
Proof.
  revert j. induction m as [|r m IH]; intros [|j]; simpl; auto.
Qed.

Lemma row_set_row_same (j : nat) (v : vec) (m : matrix) :
  (j < length m)%nat -> row (set_row j v m) j = v.
Proof.
  unfold row. revert j. induction m as [|r m IH]; intros [|j] H; simpl in *;
    try lia; [reflexivity | apply IH; lia].
Qed.

Lemma row_set_row_other (j i : nat) (v : vec) (m : matrix) :
  i <> j -> row (set_row j v m) i = row m i.
Proof.
  unfold row. revert j i. induction m as [|r m IH]; intros [|j] [|i] H; simpl;
    try reflexivity; try lia. apply IH. lia.
Qed.

Lemma rectangular_row (d : nat) (m : matrix) (i : nat) :
  rectangular d m -> (i < length m)%nat -> length (row m i) = d.
Proof.
  unfold rectangular, row. intros H Hi.
  rewrite Forall_forall in H. apply H, nth_In, Hi.
Qed.

Section GramSchmidt.

Variable vecs : matrix.
Variable d : nat.
Hypothesis Hrect : rectangular d vecs.
Hypothesis Hind : lin_indep d vecs.

(** The invariant of the inner loop for row [j]: the residual keeps its
    length, is orthogonal to the rows already used, and differs from
    [vecs[j]] by a combination of the earlier input rows. *)
Lemma inner_loop_inv (res : matrix) (j : nat) (vj : vec) :
  ortho_upto res d j -> spanned vecs d res j -> length vj = d ->
  forall i, (i <= j)%nat ->
    length (Exact.residual res vj i) = d /\
    (forall k, (k < i)%nat ->
       Exact.product (row res k) (Exact.residual res vj i) = C0) /\
    in_span vecs d j (vsub vj (Exact.residual res vj i)).
Proof.
  intros [Hlen Horth] Hsp Hvj. induction i as [|i IH]; intros Hi.
  - unfold Exact.residual; simpl. repeat split; [assumption | intros; lia |].
    apply in_span_zero. intros k _. rewrite nth_vsub by reflexivity.
    apply Csub_diag.
  - destruct IH as (Hq & Ho & Hs); [lia|].
    rewrite residual_succ. set (q := Exact.residual res vj i) in *.
    unfold Exact.inner_step.
    set (rij := Exact.product (row res i) q).
    assert (Hri : length (row res i) = d) by (apply Hlen; lia).
    assert (Hsc : length q = length (vscale rij (row res i)))
      by (rewrite vscale_length; congruence).
    repeat split.
    + rewrite vsub_length by exact Hsc. exact Hq.
    + intros k Hk. rewrite product_vsub_r, product_vscale_r by exact Hsc.
      rewrite Horth by lia.
      destruct (Nat.eqb k i) eqn:E.
      * apply Nat.eqb_eq in E. subst k. fold rij. cring.
      * apply Nat.eqb_neq in E. rewrite Ho by lia. cring.
    + apply (in_span_ext vecs d j
               (vsub (vsub vj q) (vscale (Copp rij) (row res i)))).
      * intros k _. rewrite !nth_vsub, !nth_vscale;
          rewrite ?vsub_length, ?vscale_length; try congruence.
        cring.
      * apply in_span_vsub.
        -- rewrite vsub_length, vscale_length; congruence.
        -- exact Hs.
        -- apply in_span_vscale, (in_span_mono vecs d (S i)); [lia|].
           apply Hsp. lia.
Qed.

(** One round of the outer loop keeps the invariant and does not raise. *)
Lemma outer_step_inv (res : matrix) (j : nat) :
  length res = length vecs -> (j < length vecs)%nat ->
  ortho_upto res d j -> spanned vecs d res j ->
  exists res', Exact.outer_step vecs res j = Ok res' /\
    length res' = length vecs /\
    ortho_upto res' d (S j) /\ spanned vecs d res' (S j).
Proof.
  intros Hl Hj Hor Hsp.
  assert (Hvj : length (row vecs j) = d) by (apply rectangular_row; assumption).
  destruct (inner_loop_inv res j (row vecs j) Hor Hsp Hvj j (le_n j))
    as (Hq & Ho & Hs).
  unfold Exact.outer_step.
  set (q := Exact.residual res (row vecs j) j) in *.
  destruct (Ceqb (Exact.norm q) C0) eqn:E.
  - exfalso. apply Ceqb_true_iff, norm_zero_iff in E.
    apply (indep_not_in_span vecs d j Hind Hj).
    apply (in_span_ext vecs d j (vsub (row vecs j) q)); [|exact Hs].
    intros k _. rewrite nth_vsub by congruence.
    rewrite (all_zero_nth q k E). cring.
  - apply Ceqb_false_iff in E.
    set (new := vdiv q (Exact.norm q)).
    assert (Hnew : forall k, (k < j)%nat ->
              Exact.product (row res k) new = C0).
    { intros k Hk. unfold new.
      rewrite vdiv_vscale, product_vscale_r, Ho by exact Hk. cring. }
    exists (set_row j new res). destruct Hor as [Hlen Horth].
    assert (Hjr : (j < length res)%nat) by lia.
    repeat split.
    + rewrite set_row_length. exact Hl.
    + intros i Hi. destruct (Nat.eq_dec i j) as [->|Hn].
      * rewrite row_set_row_same by exact Hjr.
        unfold new. rewrite vdiv_length. exact Hq.
      * rewrite row_set_row_other by exact Hn. apply Hlen. lia.
    + intros i k Hi Hk.
      destruct (Nat.eq_dec i j) as [->|Hni]; destruct (Nat.eq_dec k j) as [->|Hnk].
      * rewrite row_set_row_same by exact Hjr. rewrite Nat.eqb_refl.
        apply product_normalised, E.
      * rewrite row_set_row_same by exact Hjr.
        rewrite row_set_row_other by exact Hnk.
        replace (Nat.eqb j k) with false by (symmetry; apply Nat.eqb_neq; lia).
        rewrite product_conj_sym, Hnew by lia. apply Cconj_C0.
      * rewrite row_set_row_same by exact Hjr.
        rewrite row_set_row_other by exact Hni.
        replace (Nat.eqb i j) with false by (symmetry; apply Nat.eqb_neq; lia).
        apply Hnew. lia.
      * rewrite !row_set_row_other by assumption. apply Horth; lia.
    + intros i Hi. destruct (Nat.eq_dec i j) as [->|Hn].
      * rewrite row_set_row_same by exact Hjr. unfold new.
        rewrite vdiv_vscale. apply in_span_vscale.
        apply (in_span_ext vecs d (S j)
                 (vsub (row vecs j) (vsub (row vecs j) q))).
        -- intros k _. rewrite !nth_vsub;
             rewrite ?vsub_length; try congruence. cring.
        -- apply in_span_vsub.
           ++ rewrite vsub_length; congruence.
           ++ apply in_span_row, Hj.
           ++ apply (in_span_mono vecs d j); [lia | exact Hs].
      * rewrite row_set_row_other by exact Hn. apply Hsp. lia.
Qed.

Lemma outer_loop_inv (len start : nat) (res : matrix) :
  (start + len <= length vecs)%nat -> length res = length vecs ->
  ortho_upto res d start -> spanned vecs d res start ->
  exists res', Exact.outer_loop vecs (seq start len) res = Ok res' /\
    length res' = length vecs /\
    ortho_upto res' d (start + len) /\ spanned vecs d res' (start + len).
Proof.
  revert start res. induction len as [|len IH]; intros start res Hb Hl Hor Hsp.
  - exists res. rewrite Nat.add_0_r. simpl. auto.
  - simpl.
    destruct (outer_step_inv res start Hl) as (res1 & E1 & Hl1 & Hor1 & Hsp1);
      [lia | assumption | assumption |].
    rewrite E1.
    destruct (IH (S start) res1) as (res' & E' & Hl' & Hor' & Hsp');
      [lia | assumption | assumption | assumption |].
    exists res'. replace (start + S len)%nat with (S start + len)%nat by lia.
    auto.
Qed.

End GramSchmidt.

(** Row 0 is handled like a round of the outer loop with nothing to
    project away. *)
Lemma gs_upto_as_loop (vecs : matrix) (m : nat) :
  vecs <> [] ->
  Exact.gs_upto vecs m =
  Exact.outer_loop vecs (seq 0 (S (m - 1))) (zeros_like vecs).
Proof.
  intros Hne. unfold Exact.gs_upto. destruct vecs as [|v0 vecs]; [congruence|].
  change (seq 0 (S (m - 1))) with (0%nat :: seq 1 (m - 1)).
  cbn [Exact.outer_loop].
  assert (E : Exact.outer_step (v0 :: vecs) (zeros_like (v0 :: vecs)) 0 =
              if Ceqb (Exact.norm v0) C0 then Raise ArithmeticError
              else Ok (set_row 0 (vdiv v0 (Exact.norm v0))
                         (zeros_like (v0 :: vecs)))) by reflexivity.
  rewrite E. destruct (Ceqb (Exact.norm v0) C0); reflexivity.
Qed.

Lemma zeros_like_length (m : matrix) : length (zeros_like m) = length m.
Proof. apply length_map. Qed.

(** C4 (as amended).  At the exact arithmetic, for [n >= 1] linearly
    independent rows of length [d], [gram_schmidt] raises nothing and
    returns an [n] by [d] array whose rows have norm 1 and are pairwise
    orthogonal for the inner product [product], exactly. *)
Theorem gram_schmidt_orthonormal (d : nat) (vecs : matrix) :
  vecs <> [] -> rectangular d vecs -> lin_indep d vecs ->
  exists O, Matrix.gram_schmidt vecs = Ok O /\
    nrows O = nrows vecs /\ rectangular d O /\
    (forall i, (i < nrows vecs)%nat -> Matrix.norm (row O i) = C1) /\
    (forall i j, (i < nrows vecs)%nat -> (j < nrows vecs)%nat -> i <> j ->
       Matrix.product (row O i) (row O j) = C0).
Proof.
  intros Hne Hrect Hind. exact_form. unfold Exact.gram_schmidt, nrows.
  rewrite gs_upto_as_loop by exact Hne.
  assert (Hn : (0 < length vecs)%nat).
  { destruct vecs; [congruence | simpl; lia]. }
  destruct (outer_loop_inv vecs d Hrect Hind (S (length vecs - 1)) 0
              (zeros_like vecs)) as (O & E & Hl & [Hlen Horth] & _).
  - lia.
  - apply zeros_like_length.
  - split; intros; lia.
  - intros i Hi. lia.
  - replace (0 + S (length vecs - 1))%nat with (length vecs) in * by lia.
    exists O. repeat split.
    + exact E.
    + exact Hl.
    + unfold rectangular. apply Forall_forall. intros v Hv.
      destruct (In_nth _ _ [] Hv) as (i & Hi & <-). apply Hlen. rewrite <- Hl. exact Hi.
    + intros i Hi. apply norm_of_unit. rewrite Horth by assumption.
      rewrite Nat.eqb_refl. reflexivity.
    + intros i j Hi Hj Hij. rewrite Horth by assumption.
      replace (Nat.eqb i j) with false by (symmetry; apply Nat.eqb_neq; exact Hij).
      reflexivity.
Qed.

Lemma example_vecs_indep : lin_indep 2 example_vecs.
Proof.
  intros cs Hl H. destruct cs as [|a [|b [|c cs]]]; try discriminate.
  pose proof (H 0%nat ltac:(lia)) as H0. pose proof (H 1%nat ltac:(lia)) as H1.
  destruct a as [a1 a2], b as [b1 b2].
  unfold dot, example_vecs, col in H0, H1. simpl in H0, H1. csimpl.
  injection H0 as H01 H02. injection H1 as H11 H12.
  assert (b1 = 0) by lra. assert (b2 = 0) by lra.
  assert (a1 = 0) by lra. assert (a2 = 0) by lra. subst.
  repeat constructor.
Qed.

Lemma gram_schmidt_orthonormal_witness :
  (example_vecs <> [] /\ rectangular 2 example_vecs /\
   lin_indep 2 example_vecs) /\
  exists O, Matrix.gram_schmidt example_vecs = Ok O /\
    nrows O = nrows example_vecs /\ rectangular 2 O /\
    (forall i, (i < nrows example_vecs)%nat -> Matrix.norm (row O i) = C1) /\
    (forall i j, (i < nrows example_vecs)%nat -> (j < nrows example_vecs)%nat ->
       i <> j -> Matrix.product (row O i) (row O j) = C0).
Proof.
  assert (H1 : example_vecs <> []) by discriminate.
  assert (H2 : rectangular 2 example_vecs) by (repeat constructor).
  split; [repeat split; [exact H1 | exact H2 | exact example_vecs_indep]|].
  exact (gram_schmidt_orthonormal 2 example_vecs H1 H2 example_vecs_indep).
Defined.

(** ** The unitarity check *)

Lemma Rleb_true_iff (x y : R) : Rleb x y = true <-> x <= y.
Proof. unfold Rleb. destruct (Rle_dec x y); split; auto; discriminate. Qed.

Lemma forallb_seq (n : nat) (p : nat -> bool) :
  forallb p (seq 0 n) = true <-> forall i, (i < n)%nat -> p i = true.
Proof.
  rewrite forallb_forall. split.
  - intros H i Hi. apply H, in_seq. lia.
  - intros H i Hi. apply in_seq in Hi. apply H. lia.
Qed.

Lemma all_pairs_iff (n : nat) (p : nat -> nat -> bool) :
  Matrix.all_pairs n p = true <->
  forall i j, (i < n)%nat -> (j < n)%nat -> p i j = true.
Proof.
  unfold Matrix.all_pairs. rewrite forallb_seq. split.
  - intros H i j Hi Hj. specialize (H i Hi). rewrite forallb_seq in H. auto.
  - intros H i Hi. rewrite forallb_seq. auto.
Qed.

Lemma entryR_eye (n i j : nat) :
  (i < n)%nat -> (j < n)%nat -> Matrix.entryR (eye n) i j = delta i j.
Proof.
  intros Hi Hj. unfold Matrix.entryR, eye, delta.
  set (f := fun i0 : nat =>
              map (fun j0 : nat => if Nat.eqb i0 j0 then 1 else 0) (seq 0 n)).
  rewrite (nth_indep _ [] (f 0%nat)) by (rewrite length_map, length_seq; exact Hi).
  rewrite map_nth, seq_nth by exact Hi. unfold f. simpl.
  set (g := fun j0 : nat => if Nat.eqb i j0 then 1 else 0).
  rewrite (nth_indep _ 0 (g 0%nat)) by (rewrite length_map, length_seq; exact Hj).
  rewrite map_nth, seq_nth by exact Hj. reflexivity.
Qed.

(** What [is_unitary] decides on a square matrix: every entry of
    [adjoint(u) * u] is within [tolerance + rtol * |e|] of the entry [e]
    of the identity, with numpy's default [rtol]. *)
Lemma is_unitary_square (u : matrix) (tolerance : R) :
  ncols u = nrows u ->
  exists b, Matrix.is_unitary u tolerance = Ok b /\
    (b = true <->
     forall i j, (i < nrows u)%nat -> (j < nrows u)%nat ->
       Cabs (Csub (Matrix.entry (matmul (Matrix.adjoint u) u) i j)
                  (RtoC (delta i j)))
       <= tolerance + Matrix.default_rtol * Rabs (delta i j)).
Proof.
  intros Hsq. unfold Matrix.is_unitary, Matrix.allclose.
  rewrite Hsq, Nat.eqb_refl. eexists. split; [reflexivity|].
  rewrite all_pairs_iff. split; intros H i j Hi Hj.
  - specialize (H i j Hi Hj). unfold Matrix.isclose in H.
    rewrite entryR_eye in H by assumption. apply Rleb_true_iff, H.
  - unfold Matrix.isclose. rewrite entryR_eye by assumption.
    apply Rleb_true_iff, H; assumption.
Qed.

(** C5 (the code at the failing input).  On the 1 by 1 matrix
    [[1.000001]] and with the default tolerance [1e-10], [is_unitary]
    answers true although the entry of [adjoint(u) * u] is more than the
    tolerance away from 1: the comparison of [numpy.allclose] adds
    [rtol * |1|] with the default [rtol = 1e-5] to the bound. *)
Theorem is_unitary_accepts_beyond_tolerance :
  Matrix.is_unitary almost_one Matrix.default_tolerance = Ok true /\
  Cabs (Csub (Matrix.entry (matmul (Matrix.adjoint almost_one) almost_one) 0 0)
             (RtoC 1))
  > Matrix.default_tolerance.
Proof.
  assert (E : Csub (Matrix.entry (matmul (Matrix.adjoint almost_one) almost_one)
                      0 0) (RtoC 1)
              = RtoC (2000001 / 1000000000000)).
  { unfold almost_one, Matrix.entry, matmul, Matrix.adjoint, transpose, col,
      ncols, row, dot. simpl. apply C_eq; csimpl; field. }
  split.
  - unfold Matrix.is_unitary, Matrix.allclose.
    change (ncols almost_one) with 1%nat. change (nrows almost_one) with 1%nat.
    rewrite Nat.eqb_refl. f_equal. apply all_pairs_iff.
    intros i j Hi Hj. assert (i = 0)%nat by lia. assert (j = 0)%nat by lia.
    subst i j. unfold Matrix.isclose. apply Rleb_true_iff.
    change (Matrix.entryR (eye 1) 0 0) with 1.
    rewrite E, Cabs_RtoC by lra. rewrite Rabs_R1.
    unfold Matrix.default_tolerance, Matrix.default_rtol. lra.
  - rewrite E, Cabs_RtoC by lra. unfold Matrix.default_tolerance. lra.
Qed.

(** * gram_schmidt on arrays of dtype float64 *)

(** ** The doubles of the examples as real numbers *)

Lemma to_R_one :
  Binary64.to_R PrimFloat.one = IZR 4503599627370496 * powerRZ 2 (-52).
Proof.
  unfold Binary64.to_R.
  replace (FloatOps.Prim2SF PrimFloat.one)
    with (SpecFloat.S754_finite false 4503599627370496 (-52))
    by (vm_compute; reflexivity).
  simpl. ring.
Qed.

Lemma to_R_one_and_ulp :
  Binary64.to_R (nth 1 (nth 1 Binary64.nearly_parallel_rows []) PrimFloat.zero)
  = IZR 4503599627370497 * powerRZ 2 (-52).
Proof.
  unfold Binary64.to_R.
  replace (FloatOps.Prim2SF _)
    with (SpecFloat.S754_finite false 4503599627370497 (-52))
    by (vm_compute; reflexivity).
  simpl. ring.
Qed.

Lemma to_R_tiny :
  Binary64.to_R Binary64.tiny = IZR 4503599627370496 * powerRZ 2 (-652).
Proof.
  unfold Binary64.to_R.
  replace (FloatOps.Prim2SF _)
    with (SpecFloat.S754_finite false 4503599627370496 (-652))
    by (vm_compute; reflexivity).
  simpl. ring.
Qed.

Lemma to_R_zero : Binary64.to_R PrimFloat.zero = 0.
Proof.
  unfold Binary64.to_R.
  replace (FloatOps.Prim2SF _) with (SpecFloat.S754_zero false)
    by (vm_compute; reflexivity).
  reflexivity.
Qed.

Lemma scaled_pos (m : Z) (e : Z) : (0 < m)%Z -> 0 < IZR m * powerRZ 2 e.
Proof.
  intros Hm. apply Rmult_lt_0_compat.
  - apply (IZR_lt 0 m Hm).
  - apply powerRZ_lt. lra.
Qed.

(** ** Linear independence of the example rows *)

Lemma single_row_indep (a z : R) : a <> 0 -> lin_indep 2 [[RtoC a; RtoC z]].
Proof.
  intros Ha cs Hl H.
  destruct cs as [|[x y] [|? ?]]; try discriminate Hl.
  pose proof (H 0%nat ltac:(lia)) as H0.
  unfold dot, col in H0; simpl in H0.
  unfold Cadd, Cmul, RtoC, C0 in H0; simpl in H0.
  injection H0 as Hr Hi.
  assert (Hx : x * a = 0) by lra. assert (Hy : y * a = 0) by lra.
  apply Rmult_integral in Hx. apply Rmult_integral in Hy.
  constructor; [|constructor].
  unfold C0. f_equal; tauto.
Qed.

Lemma close_rows_indep (a b : R) :
  0 < a -> a < b -> lin_indep 2 [[RtoC a; RtoC a]; [RtoC a; RtoC b]].
Proof.
  intros Ha Hab cs Hl H.
  destruct cs as [|[x0 y0] [|[x1 y1] [|? ?]]]; try discriminate Hl.
  pose proof (H 0%nat ltac:(lia)) as H0.
  pose proof (H 1%nat ltac:(lia)) as H1.
  unfold dot, col in H0, H1; simpl in H0, H1.
  unfold Cadd, Cmul, RtoC, C0 in H0, H1; simpl in H0, H1.
  injection H0 as H0r H0i. injection H1 as H1r H1i.
  assert (Hx1 : x1 * (b - a) = 0) by lra.
  assert (Hy1 : y1 * (b - a) = 0) by lra.
  apply Rmult_integral in Hx1. apply Rmult_integral in Hy1.
  assert (x1 = 0) by (destruct Hx1; lra).
  assert (y1 = 0) by (destruct Hy1; lra).
  subst x1 y1.
  assert (Hx0 : x0 * a = 0) by lra. assert (Hy0 : y0 * a = 0) by lra.
  apply Rmult_integral in Hx0. apply Rmult_integral in Hy0.
  assert (x0 = 0) by (destruct Hx0; lra).
  assert (y0 = 0) by (destruct Hy0; lra).
  subst x0 y0. repeat constructor.
Qed.

Lemma tiny_row_indep : lin_indep 2 (Binary64.to_exact Binary64.tiny_row).
Proof.
  unfold Binary64.to_exact, Binary64.tiny_row. cbn [map].
  apply single_row_indep. rewrite to_R_tiny.
  apply Rgt_not_eq, scaled_pos. lia.
Qed.

Lemma nearly_parallel_rows_indep :
  lin_indep 2 (Binary64.to_exact Binary64.nearly_parallel_rows).
Proof.
  unfold Binary64.to_exact. 
  change (map (map (fun x => RtoC (Binary64.to_R x)))
              Binary64.nearly_parallel_rows)
    with [[RtoC (Binary64.to_R PrimFloat.one); RtoC (Binary64.to_R PrimFloat.one)];
          [RtoC (Binary64.to_R PrimFloat.one);
           RtoC (Binary64.to_R
                   (nth 1 (nth 1 Binary64.nearly_parallel_rows [])
                        PrimFloat.zero))]].
  rewrite to_R_one, to_R_one_and_ulp.
  apply close_rows_indep.
  - apply scaled_pos. lia.
  - apply Rmult_lt_compat_r; [apply powerRZ_lt; lra | apply IZR_lt; lia].
Qed.

(** The second of the proportional rows is twice the first. *)
Lemma proportional_rows_dependent :
  ~ lin_indep 2 (Binary64.to_exact Binary64.proportional_rows).
Proof.
  intros H.
  assert (H2 : Binary64.to_R PrimFloat.two
               = IZR 4503599627370496 * powerRZ 2 (-51)).
  { unfold Binary64.to_R.
    replace (FloatOps.Prim2SF _)
      with (SpecFloat.S754_finite false 4503599627370496 (-51))
      by (vm_compute; reflexivity).
    simpl. ring. }
  assert (Hp : powerRZ 2 (-51) = 2 * powerRZ 2 (-52)).
  { change (-51)%Z with (1 + -52)%Z. rewrite powerRZ_add by lra.
    rewrite powerRZ_1. reflexivity. }
  specialize (H [RtoC 2; RtoC (-1)] eq_refl).
  assert (Hz : all_zero [RtoC 2; RtoC (-1)]).
  { apply H. intros k Hk.
    unfold Binary64.to_exact.
    change (map (map (fun x => RtoC (Binary64.to_R x)))
                Binary64.proportional_rows)
      with [[RtoC (Binary64.to_R PrimFloat.one);
             RtoC (Binary64.to_R PrimFloat.one)];
            [RtoC (Binary64.to_R PrimFloat.two);
             RtoC (Binary64.to_R PrimFloat.two)]].
    rewrite to_R_one, H2, Hp.
    destruct k as [|[|k]]; [| |lia]; unfold dot, col; simpl;
      apply C_eq; csimpl; ring. }
  inversion Hz as [|? ? Hc _]. unfold RtoC, C0 in Hc.
  injection Hc as Hc. lra.
Qed.

(** ** What rounding does to gram_schmidt *)

(** The wording of C3 fails on arrays of dtype float64, in both
    directions.  In [[0.6, -0.8], [c, c]] the second input row has a
    computed norm of exactly zero, its squares underflowing, yet nothing
    is raised: the residual that the code tests is larger.  The row
    [[2**-600, 0]] is not zero, yet its computed norm is, and
    [ArithmeticError] is raised.  And on the proportional rows
    [[1, 1], [2, 2]], whose residual is zero in exact arithmetic, the
    computed residual is not: the same row is returned twice. *)
Lemma norm_test_is_on_computed_norms :
  (@n_is_zero binary64
     (Matrix.norm (A := binary64) (Arr.row (A := binary64) Binary64.small_rows 1))
   = true /\
   exists O, Matrix.gram_schmidt (A := binary64) Binary64.small_rows = Ok O) /\
  (PrimFloat.eqb Binary64.tiny PrimFloat.zero = false /\
   Matrix.gram_schmidt (A := binary64) Binary64.tiny_row
   = Raise ArithmeticError) /\
  (~ lin_indep 2 (Binary64.to_exact Binary64.proportional_rows) /\
   exists r, Matrix.gram_schmidt (A := binary64) Binary64.proportional_rows
             = Ok [r; r]).
Proof.
  split; [split|split; split].
  - vm_compute. reflexivity.
  - eexists. vm_compute. reflexivity.
  - vm_compute. reflexivity.
  - vm_compute. reflexivity.
  - exact proportional_rows_dependent.
  - eexists. vm_compute. reflexivity.
Qed.

(** C4 as stated fails on the code.  An array without rows is an
    independent family, and [gram_schmidt] raises [IndexError] on it.  On
    arrays of dtype float64 the one independent row [[2**-600, 0]] raises
    [ArithmeticError], and the independent rows [[1, 1], [1, 1 + 2**-52]]
    come back with an inner product above one half, far from
    orthogonal. *)
Lemma independent_rows_not_orthonormalised :
  Matrix.gram_schmidt (A := exact_arith) [] = Raise IndexError /\
  (lin_indep 2 (Binary64.to_exact Binary64.tiny_row) /\
   Matrix.gram_schmidt (A := binary64) Binary64.tiny_row
   = Raise ArithmeticError) /\
  (lin_indep 2 (Binary64.to_exact Binary64.nearly_parallel_rows) /\
   exists r0 r1,
     Matrix.gram_schmidt (A := binary64) Binary64.nearly_parallel_rows
     = Ok [r0; r1] /\
     PrimFloat.ltb Binary64.half (Matrix.product (A := binary64) r0 r1) = true).
Proof.
  split; [reflexivity|]. split; split.
  - exact tiny_row_indep.
  - vm_compute. reflexivity.
  - exact nearly_parallel_rows_indep.
  - do 2 eexists. split; vm_compute; reflexivity.
Qed.


(** ** The one-slot cache *)

Section CacheFacts.

Context {collab : Collaborators}.

Ltac run_monad :=
  unfold ParametricSystemBase.u, ParametricSystemBase.du,
    ParametricSystemBase._set_cached, ParametricSystemBase._is_cached,
    invoke, log, bind, ret, raise, getattr, set__last_controls, set__last_t,
    set__fixed_system, set_nz in *;
  simpl in *.

(** [_is_cached] reads and does not write. *)
Lemma is_cached_pure (controls : pyobj) (t : scalar) (self : ParametricSystem) :
  snd (ParametricSystemBase._is_cached controls t self) = self.
Proof.
  run_monad. destruct (isinstance_ndarray controls); simpl; [|reflexivity].
  destruct (_last_t self) as [lt|]; simpl; [|reflexivity].
  destruct (py_ne lt t); simpl; [reflexivity|].
  destruct (_last_controls self); reflexivity.
Qed.

Lemma is_cached_true_iff (controls : pyobj) (t : scalar)
    (self : ParametricSystem) :
  fst (ParametricSystemBase._is_cached controls t self) = Ok true <->
  key_matches self controls t.
Proof.
  unfold key_matches. run_monad. split.
  - destruct (isinstance_ndarray controls); simpl; [|discriminate].
    destruct (_last_t self) as [[lt|]|]; simpl; try discriminate.
    destruct (scalar_eqb lt t) eqn:Et; simpl; [|discriminate].
    destruct (_last_controls self) as [lc|]; simpl; [|discriminate].
    intros H. injection H as H. exists lc, lt. auto.
  - intros (lc & lt & Ha & Hc & Ht & Et & Ec).
    rewrite Ha. simpl. rewrite Ht. simpl. rewrite Et. simpl.
    rewrite Hc. simpl. congruence.
Qed.

Lemma is_cached_false (controls : pyobj) (t : scalar)
    (self : ParametricSystem) :
  initialised self -> ~ key_matches self controls t ->
  fst (ParametricSystemBase._is_cached controls t self) = Ok false.
Proof.
  intros [Hc Ht] Hk.
  destruct (fst (ParametricSystemBase._is_cached controls t self)) as [[|]|e]
    eqn:E; [| reflexivity |].
  - exfalso. apply Hk, is_cached_true_iff, E.
  - exfalso. revert E. run_monad.
    destruct (isinstance_ndarray controls); simpl; [|discriminate].
    destruct (_last_t self) as [lt|]; [|congruence]. simpl.
    destruct (py_ne lt t); simpl; [discriminate|].
    destruct (_last_controls self); [|congruence]. discriminate.
Qed.

Lemma is_cached_not_array (controls : pyobj) (t : scalar)
    (self : ParametricSystem) :
  isinstance_ndarray controls = false ->
  ParametricSystemBase._is_cached controls t self = (Ok false, self).
Proof. intros H. run_monad. rewrite H. reflexivity. Qed.

Lemma is_cached_split (controls : pyobj) (t : scalar)
    (self : ParametricSystem) :
  ParametricSystemBase._is_cached controls t self =
  (fst (ParametricSystemBase._is_cached controls t self), self).
Proof.
  rewrite <- (is_cached_pure controls t self) at 3.
  destruct (ParametricSystemBase._is_cached controls t self). reflexivity.
Qed.

(** [_set_cached], step by step. *)
Lemma set_cached_eq (controls : pyobj) (t : scalar) (self : ParametricSystem) :
  ParametricSystemBase._set_cached controls t self =
  match fresh_solve self controls t with
  | (Ok fs, l) =>
      (Ok tt, mkSystem (_hf self) (_dhf self) (Some controls) (Some (Some t))
                (Some fs) (nz self) (omega self) (l ++ calls self))
  | (Raise e, l) => (Raise e, rekeyed self controls t l)
  end.
Proof.
  unfold fresh_solve, rekeyed. run_monad.
  destruct (_hf self controls) as [h|e]; simpl; [|reflexivity].
  destruct (_dhf self controls) as [dh|e]; simpl; [|reflexivity].
  destruct (nz self) as [n|]; simpl; [|reflexivity].
  destruct (omega self) as [w|]; simpl; [|reflexivity].
  destruct (FixedSystem_init h dh n w t); reflexivity.
Qed.

Lemma fresh_solve_ok_calls (controls : pyobj) (t : scalar)
    (self : ParametricSystem) (fs : FixedSystem) (l : list call) :
  fresh_solve self controls t = (Ok fs, l) ->
  l = [Call_FixedSystem; Call_dhf controls; Call_hf controls].
Proof.
  unfold fresh_solve.
  destruct (_hf self controls); [|discriminate].
  destruct (_dhf self controls); [|discriminate].
  destruct (nz self); [|discriminate].
  destruct (omega self); [|discriminate].
  congruence.
Qed.

(** A miss always calls the hook [_hf], first of all, and each of the
    hooks and the solver at most once. *)
Lemma fresh_solve_calls (controls : pyobj) (t : scalar)
    (self : ParametricSystem) :
  exists l', snd (fresh_solve self controls t) = l' ++ [Call_hf controls] /\
    (length (filter is_hf_call (snd (fresh_solve self controls t))) = 1)%nat /\
    (length (filter is_dhf_call (snd (fresh_solve self controls t))) <= 1)%nat /\
    (length (filter is_solver_call (snd (fresh_solve self controls t))) <= 1)%nat.
Proof.
  unfold fresh_solve.
  destruct (_hf self controls); [|exists []; simpl; auto].
  destruct (_dhf self controls);
    [|exists [Call_dhf controls]; simpl; auto].
  destruct (nz self); [|exists [Call_dhf controls]; simpl; auto].
  destruct (omega self); [|exists [Call_dhf controls]; simpl; auto].
  exists [Call_FixedSystem; Call_dhf controls]; simpl; auto.
Qed.

(** The three ways a call of [u] can go. *)
Lemma u_hit (controls : pyobj) (t : scalar) (self : ParametricSystem) :
  fst (ParametricSystemBase._is_cached controls t self) = Ok true ->
  ParametricSystemBase.u controls t self =
  match _fixed_system self with
  | Some fs => (Ok (fs_u fs), self)
  | None => (Raise AttributeError, self)
  end.
Proof.
  intros H. unfold ParametricSystemBase.u, bind.
  rewrite is_cached_split, H. unfold getattr, ret.
  destruct (_fixed_system self); reflexivity.
Qed.

Lemma u_miss (controls : pyobj) (t : scalar) (self : ParametricSystem) :
  fst (ParametricSystemBase._is_cached controls t self) = Ok false ->
  ParametricSystemBase.u controls t self =
  match fresh_solve self controls t with
  | (Ok fs, _) => (Ok (fs_u fs), solved self controls t fs)
  | (Raise e, l) => (Raise e, rekeyed self controls t l)
  end.
Proof.
  intros H. unfold ParametricSystemBase.u, bind at 1.
  rewrite is_cached_split, H. unfold bind at 1. rewrite set_cached_eq.
  destruct (fresh_solve self controls t) as [[fs|e] l] eqn:E; [|reflexivity].
  apply fresh_solve_ok_calls in E. subst l. reflexivity.
Qed.

Lemma u_raise (controls : pyobj) (t : scalar) (self : ParametricSystem)
    (e : exn) :
  fst (ParametricSystemBase._is_cached controls t self) = Raise e ->
  ParametricSystemBase.u controls t self = (Raise e, self).
Proof.
  intros H. unfold ParametricSystemBase.u, bind.
  rewrite is_cached_split, H. reflexivity.
Qed.

Lemma du_hit (controls : pyobj) (t : scalar) (self : ParametricSystem) :
  fst (ParametricSystemBase._is_cached controls t self) = Ok true ->
  ParametricSystemBase.du controls t self =
  match _fixed_system self with
  | Some fs => (Ok (fs_du fs), self)
  | None => (Raise AttributeError, self)
  end.
Proof.
  intros H. unfold ParametricSystemBase.du, bind.
  rewrite is_cached_split, H. unfold getattr, ret.
  destruct (_fixed_system self); reflexivity.
Qed.

Lemma du_miss (controls : pyobj) (t : scalar) (self : ParametricSystem) :
  fst (ParametricSystemBase._is_cached controls t self) = Ok false ->
  ParametricSystemBase.du controls t self =
  match fresh_solve self controls t with
  | (Ok fs, _) => (Ok (fs_du fs), solved self controls t fs)
  | (Raise e, l) => (Raise e, rekeyed self controls t l)
  end.
Proof.
  intros H. unfold ParametricSystemBase.du, bind at 1.
  rewrite is_cached_split, H. unfold bind at 1. rewrite set_cached_eq.
  destruct (fresh_solve self controls t) as [[fs|e] l] eqn:E; [|reflexivity].
  apply fresh_solve_ok_calls in E. subst l. reflexivity.
Qed.

Lemma du_raise (controls : pyobj) (t : scalar) (self : ParametricSystem)
    (e : exn) :
  fst (ParametricSystemBase._is_cached controls t self) = Raise e ->
  ParametricSystemBase.du controls t self = (Raise e, self).
Proof.
  intros H. unfold ParametricSystemBase.du, bind.
  rewrite is_cached_split, H. reflexivity.
Qed.

End CacheFacts.

Section CacheClaims.

Context {collab : Collaborators}.



Lemma at_most_one_more_refl (s : ParametricSystem) : at_most_one_more s s.
Proof. unfold at_most_one_more. repeat split; lia. Qed.

Lemma count_calls_app (p : call -> bool) (self : ParametricSystem)
    (controls : pyobj) (t : scalar) (l : list call) :
  count_calls p (rekeyed self controls t l) =
  (length (filter p l) + count_calls p self)%nat.
Proof.
  unfold count_calls, rekeyed. simpl. rewrite filter_app, length_app.
  reflexivity.
Qed.

(** After a miss, whatever its outcome: the key is the query, and each
    hook and the solver ran at most once. *)
Lemma after_miss (controls : pyobj) (t : scalar) (self : ParametricSystem) :
  fst (ParametricSystemBase._is_cached controls t self) = Ok false ->
  let s' := snd (ParametricSystemBase.u controls t self) in
  _last_controls s' = Some controls /\ _last_t s' = Some (Some t) /\
  at_most_one_more self s' /\
  (count_calls is_hf_call s' = S (count_calls is_hf_call self)).
Proof.
  intros E. rewrite u_miss by exact E.
  destruct (fresh_solve_calls controls t self) as (l' & _ & H1 & H2 & H3).
  destruct (fresh_solve self controls t) as [[fs|e] l] eqn:Ef; simpl in *.
  - apply fresh_solve_ok_calls in Ef. subst l.
    unfold at_most_one_more, count_calls; simpl. repeat split; lia.
  - unfold at_most_one_more. rewrite !count_calls_app. repeat split; lia.
Qed.

Lemma key_matches_self (controls : pyobj) (t : scalar)
    (self : ParametricSystem) :
  isinstance_ndarray controls = true ->
  array_equal controls controls = true -> scalar_eqb t t = true ->
  _last_controls self = Some controls -> _last_t self = Some (Some t) ->
  key_matches self controls t.
Proof. intros Ha Hc Ht H1 H2. exists controls, t. auto. Qed.

Lemma u_hit_state (controls : pyobj) (t : scalar) (self : ParametricSystem) :
  key_matches self controls t ->
  snd (ParametricSystemBase.u controls t self) = self.
Proof.
  intros H. apply is_cached_true_iff in H. rewrite u_hit by exact H.
  destruct (_fixed_system self); reflexivity.
Qed.




End CacheClaims.

(** A slot that was never filled is coherent for every query. *)
Lemma init_coherent {collab : Collaborators}
    (hf : pyobj -> result hamiltonian) (dhf : pyobj -> result dhamiltonian)
    (nz0 : option Z) (omega0 : option scalar) (x : pyobj) (t : scalar) :
  coherent (ParametricSystemBase.__init__ hf dhf nz0 omega0) x t /\
  initialised (ParametricSystemBase.__init__ hf dhf nz0 omega0).
Proof.
  split.
  - intros (lc & lt & _ & _ & H & _). discriminate H.
  - split; discriminate.
Qed.

(** ** The cache on the example system *)

(** A system made with [ParametricSystemWithFunctions] has no
    [_last_t] yet: its first call with an array raises and solves
    nothing. *)
Lemma with_functions_first_call :
  ParametricSystemBase.u good_controls example_t (example_system true) =
  (Raise AttributeError, example_system true).
Proof. reflexivity. Qed.






(** ** Fidelities *)

Lemma np_add_zero_r (a : val) : np_add a (VFloat 0) = Ok a.
Proof.
  destruct a as [x|xs|]; simpl; try reflexivity.
  - do 2 f_equal. lra.
  - do 2 f_equal. rewrite <- (map_id xs) at 2. apply map_ext. intros y. lra.
Qed.

Section FidelityFacts.

Context {collab : Collaborators}.

Lemma fidelity_f_base (x : pyobj) (self : fidelity) :
  overrides_f self = false ->
  fidelity_f x self = FidelityBase.f fidelity__f fidelity_penalty x self.
Proof. destruct self; [reflexivity | reflexivity | discriminate]. Qed.

Lemma fidelity_df_base (x : pyobj) (self : fidelity) :
  overrides_f self = false ->
  fidelity_df x self = FidelityBase.df fidelity__df fidelity_d_penalty x self.
Proof. destruct self; [reflexivity | reflexivity | discriminate]. Qed.

Lemma fidelity_f_operator_distance (x : pyobj) (ov : overrides)
    (sys : ParametricSystem) (t : scalar) (tg : target) (it : Z) :
  fidelity_f x (OperatorDistanceObj ov sys t tg it) =
  OperatorDistance.f x (OperatorDistanceObj ov sys t tg it).
Proof. reflexivity. Qed.

Lemma fidelity_df_operator_distance (x : pyobj) (ov : overrides)
    (sys : ParametricSystem) (t : scalar) (tg : target) (it : Z) :
  fidelity_df x (OperatorDistanceObj ov sys t tg it) =
  OperatorDistance.df x (OperatorDistanceObj ov sys t tg it).
Proof. reflexivity. Qed.

(** The penalties read the controls only. *)
Lemma penalty_pure (x : pyobj) (self : fidelity) :
  snd (fidelity_penalty x self) = self /\
  snd (fidelity_d_penalty x self) = self.
Proof.
  unfold fidelity_penalty, fidelity_d_penalty.
  destruct (ov_penalty (overrides_of self));
    destruct (ov_d_penalty (overrides_of self)); split; reflexivity.
Qed.

(** What the core methods leave alone: the overrides and the counter. *)
Lemma on_system_frame {A : Type} (c : M ParametricSystem A) (self : fidelity) :
  overrides_of (snd (on_system c self)) = overrides_of self /\
  iterations (snd (on_system c self)) = iterations self /\
  overrides_f (snd (on_system c self)) = overrides_f self.
Proof.
  destruct self as [cf cdf ov sys it|ov fids it|ov sys t tg it]; simpl;
    try destruct (c sys); auto.
Qed.

Lemma core_f_frame (x : pyobj) (self : fidelity) :
  overrides_of (snd (fidelity__f x self)) = overrides_of self /\
  iterations (snd (fidelity__f x self)) = iterations self.
Proof.
  unfold fidelity__f, resolve__f.
  destruct self as [[h|] cdf ov sys it|ov fids it|ov sys t tg it].
  - destruct (on_system_frame (h x) (MetricObj (Some h) cdf ov sys it))
      as (H1 & H2 & _). auto.
  - auto.
  - unfold EnsembleFidelity._f.
    destruct (for_each (fidelity_f x) fids) as [[vs|e] fids']; auto.
  - auto.
Qed.

Lemma core_df_frame (x : pyobj) (self : fidelity) :
  overrides_of (snd (fidelity__df x self)) = overrides_of self /\
  iterations (snd (fidelity__df x self)) = iterations self.
Proof.
  unfold fidelity__df, resolve__df.
  destruct self as [cf [h|] ov sys it|ov fids it|ov sys t tg it].
  - destruct (on_system_frame (h x) (MetricObj cf (Some h) ov sys it))
      as (H1 & H2 & _). auto.
  - auto.
  - unfold EnsembleFidelity._df.
    destruct (for_each (fidelity_df x) fids) as [[vs|e] fids']; auto.
  - auto.
Qed.

(** [FidelityBase.f] spelled out: the value of the core, then the value
    of the penalty, then their sum. *)
Lemma base_f_unfold (core pen : pyobj -> M fidelity val) (x : pyobj)
    (self : fidelity) :
  (forall s, snd (pen x s) = s) ->
  FidelityBase.f core pen x self =
  match core x self with
  | (Ok a, self') =>
      match fst (pen x self') with
      | Ok p => (np_add a p, self')
      | Raise e => (Raise e, self')
      end
  | (Raise e, self') => (Raise e, self')
  end.
Proof.
  intros Hp. unfold FidelityBase.f, bind, pure_call.
  destruct (core x self) as [[a|e] self']; [|reflexivity].
  specialize (Hp self'). destruct (pen x self') as [[p|e] s]; simpl in *;
    subst; reflexivity.
Qed.

Lemma base_df_unfold (core pen : pyobj -> M fidelity val) (x : pyobj)
    (self : fidelity) :
  (forall s, snd (pen x s) = s) ->
  FidelityBase.df core pen x self =
  match core x self with
  | (Ok a, self') =>
      match fst (pen x self') with
      | Ok p => (np_add a p, self')
      | Raise e => (Raise e, self')
      end
  | (Raise e, self') => (Raise e, self')
  end.
Proof. apply base_f_unfold. Qed.

Lemma base_f_sum (self : fidelity) (x : pyobj) :
  overrides_f self = false ->
  fidelity_f x self =
    match fidelity__f x self with
    | (Ok a, self') =>
        match fst (fidelity_penalty x self') with
        | Ok p => (np_add a p, self')
        | Raise e => (Raise e, self')
        end
    | (Raise e, self') => (Raise e, self')
    end.
Proof.
  intros Hb. rewrite (fidelity_f_base x self Hb).
  apply base_f_unfold. intros s. apply penalty_pure.
Qed.

Lemma base_df_sum (self : fidelity) (x : pyobj) :
  overrides_f self = false ->
  fidelity_df x self =
    match fidelity__df x self with
    | (Ok a, self') =>
        match fst (fidelity_d_penalty x self') with
        | Ok p => (np_add a p, self')
        | Raise e => (Raise e, self')
        end
    | (Raise e, self') => (Raise e, self')
    end.
Proof.
  intros Hb. rewrite (fidelity_df_base x self Hb).
  apply base_df_unfold. intros s. apply penalty_pure.
Qed.

Lemma base_f_no_penalty (self : fidelity) (x : pyobj) :
  overrides_f self = false -> ov_penalty (overrides_of self) = None ->
  fidelity_f x self = fidelity__f x self.
Proof.
  intros Hb Hn. rewrite (base_f_sum self x Hb).
  destruct (core_f_frame x self) as [Ho _].
  destruct (fidelity__f x self) as [[a|e] self']; [|reflexivity].
  simpl in Ho. unfold fidelity_penalty. rewrite Ho, Hn. simpl.
  rewrite np_add_zero_r. reflexivity.
Qed.

Lemma base_df_no_penalty (self : fidelity) (x : pyobj) :
  overrides_f self = false -> ov_d_penalty (overrides_of self) = None ->
  fidelity_df x self = fidelity__df x self.
Proof.
  intros Hb Hn. rewrite (base_df_sum self x Hb).
  destruct (core_df_frame x self) as [Ho _].
  destruct (fidelity__df x self) as [[a|e] self']; [|reflexivity].
  simpl in Ho. unfold fidelity_d_penalty. rewrite Ho, Hn. simpl.
  rewrite np_add_zero_r. reflexivity.
Qed.

(** C6.  For every instance of a class that takes [f] and [df] from
    [FidelityBase] (every class but [OperatorDistance]): [f(x)] is the
    value of [_f(x)] plus the value of [penalty(x)], [df(x)] the value of
    [_df(x)] plus the value of [d_penalty(x)].  The penalty that is added
    is the one the class overrides, evaluated at [x], and [0.0] when the
    class overrides none (likewise for the gradient); so when the penalty
    (its gradient) is not overridden, [f(x)] is [_f(x)] ([df(x)] is
    [_df(x)]) exactly: same value or raise, same state. *)
Theorem base_f_is_core_plus_penalty (self : fidelity) (x : pyobj) :
  overrides_f self = false ->
  (fidelity_f x self =
     match fidelity__f x self with
     | (Ok a, self') =>
         match fst (fidelity_penalty x self') with
         | Ok p => (np_add a p, self')
         | Raise e => (Raise e, self')
         end
     | (Raise e, self') => (Raise e, self')
     end) /\
  (fidelity_df x self =
     match fidelity__df x self with
     | (Ok a, self') =>
         match fst (fidelity_d_penalty x self') with
         | Ok p => (np_add a p, self')
         | Raise e => (Raise e, self')
         end
     | (Raise e, self') => (Raise e, self')
     end) /\
  (ov_penalty (overrides_of self) = None ->
     fidelity_f x self = fidelity__f x self) /\
  (ov_d_penalty (overrides_of self) = None ->
     fidelity_df x self = fidelity__df x self) /\
  (forall p, ov_penalty (overrides_of self) = Some p ->
     fidelity_f x self =
       match fidelity__f x self with
       | (Ok a, self') =>
           match p x with
           | Ok v => (np_add a v, self')
           | Raise e => (Raise e, self')
           end
       | (Raise e, self') => (Raise e, self')
       end) /\
  (forall p, ov_d_penalty (overrides_of self) = Some p ->
     fidelity_df x self =
       match fidelity__df x self with
       | (Ok a, self') =>
           match p x with
           | Ok v => (np_add a v, self')
           | Raise e => (Raise e, self')
           end
       | (Raise e, self') => (Raise e, self')
       end) /\
  (forall s,
     fidelity_penalty x s
     = (match ov_penalty (overrides_of s) with
        | Some p => p x
        | None => Ok (VFloat 0)
        end, s) /\
     fidelity_d_penalty x s
     = (match ov_d_penalty (overrides_of s) with
        | Some p => p x
        | None => Ok (VFloat 0)
        end, s)).
Proof.
  intros Hb. split; [apply base_f_sum, Hb|]. split; [apply base_df_sum, Hb|].
  split; [intros Hn; apply base_f_no_penalty; assumption|].
  split; [intros Hn; apply base_df_no_penalty; assumption|].
  split; [|split].
  - intros p Hp. rewrite (base_f_sum self x Hb).
    destruct (core_f_frame x self) as [Ho _].
    destruct (fidelity__f x self) as [[a|e] self']; [|reflexivity].
    simpl in Ho. unfold fidelity_penalty. rewrite Ho, Hp. reflexivity.
  - intros p Hp. rewrite (base_df_sum self x Hb).
    destruct (core_df_frame x self) as [Ho _].
    destruct (fidelity__df x self) as [[a|e] self']; [|reflexivity].
    simpl in Ho. unfold fidelity_d_penalty. rewrite Ho, Hp. reflexivity.
  - intros s. unfold fidelity_penalty, fidelity_d_penalty.
    split.
    + destruct (ov_penalty (overrides_of s)); reflexivity.
    + destruct (ov_d_penalty (overrides_of s)); reflexivity.
Qed.

Lemma operator_distance_f_eq (ov : overrides) (system : ParametricSystem)
    (t : scalar) (tg : target) (it : Z) (controls : pyobj) :
  fidelity_f controls (OperatorDistanceObj ov system t tg it) =
    match ParametricSystemBase.u controls t system with
    | (Ok U, system') =>
        (Ok (VFloat (operator_distance U tg)),
         OperatorDistanceObj ov system' t tg it)
    | (Raise e, system') => (Raise e, OperatorDistanceObj ov system' t tg it)
    end.
Proof.
  rewrite fidelity_f_operator_distance.
  unfold OperatorDistance.f, bind, ret, OperatorDistance.get_t,
    OperatorDistance.get_target, on_system.
  destruct (ParametricSystemBase.u controls t system) as [[U|e] s'];
    reflexivity.
Qed.

Lemma operator_distance_df_eq (ov : overrides) (system : ParametricSystem)
    (t : scalar) (tg : target) (it : Z) (controls : pyobj) :
  fidelity_df controls (OperatorDistanceObj ov system t tg it) =
    match ParametricSystemBase.u controls t system with
    | (Ok U, system') =>
        match ParametricSystemBase.du controls t system' with
        | (Ok dU, system'') =>
            (Ok (VArray (d_operator_distance U dU tg)),
             OperatorDistanceObj ov system'' t tg it)
        | (Raise e, system'') =>
            (Raise e, OperatorDistanceObj ov system'' t tg it)
        end
    | (Raise e, system') => (Raise e, OperatorDistanceObj ov system' t tg it)
    end.
Proof.
  rewrite fidelity_df_operator_distance.
  unfold OperatorDistance.df, bind, ret, OperatorDistance.get_t,
    OperatorDistance.get_target, on_system.
  destruct (ParametricSystemBase.u controls t system) as [[U|e] s'];
    [|reflexivity].
  destruct (ParametricSystemBase.du controls t s') as [[dU|e] s''];
    reflexivity.
Qed.

(** C7.  On an [OperatorDistance], whatever its overrides: [f(controls)]
    is [operator_distance(U, target)] for the [U] that [system.u(controls,
    t)] returns, and [df(controls)] is [d_operator_distance(U, dU,
    target)] for that [U] and the [dU] that [system.du(controls, t)]
    returns next; no penalty is called or added. *)
Theorem operator_distance_bypasses_penalty (ov : overrides)
    (system : ParametricSystem) (t : scalar) (tg : target) (it : Z)
    (controls : pyobj) :
  fidelity_f controls (OperatorDistanceObj ov system t tg it) =
    match ParametricSystemBase.u controls t system with
    | (Ok U, system') =>
        (Ok (VFloat (operator_distance U tg)),
         OperatorDistanceObj ov system' t tg it)
    | (Raise e, system') => (Raise e, OperatorDistanceObj ov system' t tg it)
    end /\
  fidelity_df controls (OperatorDistanceObj ov system t tg it) =
    match ParametricSystemBase.u controls t system with
    | (Ok U, system') =>
        match ParametricSystemBase.du controls t system' with
        | (Ok dU, system'') =>
            (Ok (VArray (d_operator_distance U dU tg)),
             OperatorDistanceObj ov system'' t tg it)
        | (Raise e, system'') =>
            (Raise e, OperatorDistanceObj ov system'' t tg it)
        end
    | (Raise e, system') => (Raise e, OperatorDistanceObj ov system' t tg it)
    end.
Proof.
  split; [apply operator_distance_f_eq | apply operator_distance_df_eq].
Qed.

End FidelityFacts.

(** ** The ensemble average *)

Lemma existsb_nan_floats (xs : list R) :
  existsb is_nan (map VFloat xs) = false.
Proof. induction xs; simpl; auto. Qed.

Lemma existsb_nan_arrays (gs : list (list R)) :
  existsb is_nan (map VArray gs) = false.
Proof. induction gs; simpl; auto. Qed.

Lemma floats_of_floats (xs : list R) : floats_of (map VFloat xs) = Some xs.
Proof. induction xs as [|x xs IH]; simpl; [|rewrite IH]; reflexivity. Qed.

Lemma arrays_of_arrays (k : nat) (gs : list (list R)) :
  Forall (fun g => length g = k) gs -> arrays_of k (map VArray gs) = Some gs.
Proof.
  induction 1 as [|g gs Hg _ IH]; simpl; [reflexivity|].
  rewrite Hg, Nat.eqb_refl, IH. reflexivity.
Qed.

Lemma np_mean_floats (xs : list R) :
  xs <> [] ->
  np_mean (map VFloat xs) = Ok (VFloat (Rsum xs / INR (length xs))).
Proof.
  intros Hne. unfold np_mean.
  rewrite existsb_nan_floats, floats_of_floats.
  destruct xs; [congruence | reflexivity].
Qed.

Lemma np_mean_axis0_arrays (k : nat) (gs : list (list R)) :
  gs <> [] -> Forall (fun g => length g = k) gs ->
  np_mean_axis0 (map VArray gs) =
  Ok (VArray (map (fun c => Rsum (map (fun g => nth c g 0) gs)
                            / INR (length gs)) (seq 0 k))).
Proof.
  intros Hne Hk. unfold np_mean_axis0. rewrite existsb_nan_arrays.
  destruct gs as [|g gs]; [congruence|].
  assert (Hg : length g = k) by (inversion Hk; assumption).
  change (floats_of (map VArray (g :: gs))) with (@None (list R)).
  change (first_width (map VArray (g :: gs))) with (length g).
  rewrite Hg, arrays_of_arrays by exact Hk. reflexivity.
Qed.

Section EnsembleFacts.

Context {collab : Collaborators}.

Lemma for_each_values (g : M fidelity val) (fids : list fidelity)
    (vs : list val) :
  Forall2 (fun fid v => fst (g fid) = Ok v) fids vs ->
  fst (for_each g fids) = Ok vs.
Proof.
  induction 1 as [|fid v fids vs Hv _ IH]; simpl; [reflexivity|].
  destruct (g fid) as [[w|e] fid']; simpl in Hv; [|discriminate].
  injection Hv as ->.
  destruct (for_each g fids) as [[ws|e] fids']; simpl in IH; [|discriminate].
  injection IH as ->. reflexivity.
Qed.

Lemma ensemble_f_value (member : M fidelity val) (ov : overrides)
    (fids : list fidelity) (it : Z) (vs : list val) :
  fst (for_each member fids) = Ok vs ->
  fst (EnsembleFidelity._f member (EnsembleFidelityObj ov fids it)) = np_mean vs.
Proof.
  intros H. unfold EnsembleFidelity._f.
  destruct (for_each member fids) as [[ws|e] fids']; simpl in H;
    [|discriminate]. injection H as ->. reflexivity.
Qed.

Lemma ensemble_df_value (member : M fidelity val) (ov : overrides)
    (fids : list fidelity) (it : Z) (vs : list val) :
  fst (for_each member fids) = Ok vs ->
  fst (EnsembleFidelity._df member (EnsembleFidelityObj ov fids it))
  = np_mean_axis0 vs.
Proof.
  intros H. unfold EnsembleFidelity._df.
  destruct (for_each member fids) as [[ws|e] fids']; simpl in H;
    [|discriminate]. injection H as ->. reflexivity.
Qed.

(** C8.  On an [EnsembleFidelity] with at least one member: when the
    members' [f(x)] return the floats [vs], [_f(x)] returns their sum
    divided by the number of members; when the members' [df(x)] return
    the arrays [gs], all of length [k], [_df(x)] returns an array of
    length [k] whose entry [c] is the sum of the entries [c] divided by
    the number of members. *)
Theorem ensemble_core_is_mean (ov : overrides) (fids : list fidelity)
    (it : Z) (x : pyobj) :
  fids <> [] ->
  (forall vs,
     Forall2 (fun fid v => fst (fidelity_f x fid) = Ok (VFloat v)) fids vs ->
     fst (fidelity__f x (EnsembleFidelityObj ov fids it))
     = Ok (VFloat (Rsum vs / INR (length fids)))) /\
  (forall k gs,
     Forall2 (fun fid g => fst (fidelity_df x fid) = Ok (VArray g)
                           /\ length g = k) fids gs ->
     exists mean,
       fst (fidelity__df x (EnsembleFidelityObj ov fids it)) = Ok (VArray mean)
       /\ length mean = k
       /\ forall c, (c < k)%nat ->
            nth c mean 0
            = Rsum (map (fun g => nth c g 0) gs) / INR (length fids)).
Proof.
  intros Hne. split.
  - intros vs H.
    assert (Hl : length fids = length vs) by (eapply Forall2_length; eauto).
    assert (Hv : vs <> []).
    { intros ->. destruct fids; [congruence | discriminate]. }
    unfold fidelity__f, resolve__f.
    rewrite (ensemble_f_value _ ov fids it (map VFloat vs)).
    + rewrite np_mean_floats by exact Hv. rewrite Hl. reflexivity.
    + apply for_each_values. clear -H.
      induction H; simpl; constructor; auto.
  - intros k gs H.
    assert (Hl : length fids = length gs) by (eapply Forall2_length; eauto).
    assert (Hg : gs <> []).
    { intros ->. destruct fids; [congruence | discriminate]. }
    assert (Hk : Forall (fun g => length g = k) gs).
    { clear -H. induction H as [|fid g fids gs [_ Hg] _ IH]; constructor; auto. }
    eexists. split; [|split].
    + unfold fidelity__df, resolve__df.
      rewrite (ensemble_df_value _ ov fids it (map VArray gs)).
      * rewrite (np_mean_axis0_arrays k) by assumption. reflexivity.
      * apply for_each_values. clear -H.
        induction H as [|fid g fids gs [Hv _] _ IH]; simpl; constructor; auto.
    + rewrite length_map, length_seq. reflexivity.
    + intros c Hc.
      set (col_mean := fun c0 : nat =>
             Rsum (map (fun g => nth c0 g 0) gs) / INR (length gs)).
      rewrite (nth_indep _ 0 (col_mean 0%nat))
        by (rewrite length_map, length_seq; exact Hc).
      rewrite map_nth, seq_nth by exact Hc. unfold col_mean.
      rewrite Hl. reflexivity.
Qed.

(** ** The iteration counter *)

Lemma f_keeps_iterations (x : pyobj) (self : fidelity) :
  iterations (snd (fidelity_f x self)) = iterations self.
Proof.
  destruct (overrides_f self) eqn:Hb.
  - destruct self as [| |ov sys t tg it]; try discriminate.
    rewrite operator_distance_f_eq.
    destruct (ParametricSystemBase.u x t sys) as [[U|e] s']; reflexivity.
  - rewrite fidelity_f_base, base_f_unfold
      by (exact Hb || intros s; apply penalty_pure).
    destruct (core_f_frame x self) as [_ Hi].
    destruct (fidelity__f x self) as [[a|e] self']; simpl in *; [|exact Hi].
    destruct (fst (fidelity_penalty x self')); exact Hi.
Qed.

Lemma df_keeps_iterations (x : pyobj) (self : fidelity) :
  iterations (snd (fidelity_df x self)) = iterations self.
Proof.
  destruct (overrides_f self) eqn:Hb.
  - destruct self as [| |ov sys t tg it]; try discriminate.
    rewrite operator_distance_df_eq.
    destruct (ParametricSystemBase.u x t sys) as [[U|e] s']; [|reflexivity].
    destruct (ParametricSystemBase.du x t s') as [[dU|e] s'']; reflexivity.
  - rewrite fidelity_df_base, base_df_unfold
      by (exact Hb || intros s; apply penalty_pure).
    destruct (core_df_frame x self) as [_ Hi].
    destruct (fidelity__df x self) as [[a|e] self']; simpl in *; [|exact Hi].
    destruct (fst (fidelity_d_penalty x self')); exact Hi.
Qed.

Lemma set_iterations_value (v : Z) (self : fidelity) :
  iterations (snd (set_iterations v self)) = v.
Proof. destruct self; reflexivity. Qed.

Lemma iterate_adds_one (x : pyobj) (self : fidelity) :
  iterations (snd (fidelity_iterate x self)) = (iterations self + 1)%Z.
Proof.
  unfold fidelity_iterate, FidelityBase.iterate, bind, get_iterations, ret.
  pose proof (set_iterations_value (iterations self + 1) self) as Hs.
  destruct (set_iterations (iterations self + 1) self) as [[[]|e] s1];
    simpl in Hs; [|exact Hs].
  unfold fidelity__iterate, FidelityBase._iterate, ret.
  destruct (ov__iterate (overrides_of s1)) as [h|].
  - destruct (h x) as [[]|e]; [|exact Hs].
    pose proof (f_keeps_iterations x s1) as Hf.
    destruct (fidelity_f x s1) as [[v|e] s2]; simpl in *; congruence.
  - pose proof (f_keeps_iterations x s1) as Hf.
    destruct (fidelity_f x s1) as [[v|e] s2]; simpl in *; congruence.
Qed.

Lemma step_iterations (self : fidelity) (o : op) :
  iterations (step self o) =
  match o with
  | Op_iterate _ => (iterations self + 1)%Z
  | Op_reset_iterations => 0%Z
  | _ => iterations self
  end.
Proof.
  destruct o as [x|x|x|]; simpl.
  - apply f_keeps_iterations.
  - apply df_keeps_iterations.
  - apply iterate_adds_one.
  - apply set_iterations_value.
Qed.

Lemma constructors_start_at_zero (cf cdf : option (pyobj -> M ParametricSystem val))
    (ov : overrides) (sys : ParametricSystem) (systems : list ParametricSystem)
    (make : ParametricSystem -> fidelity) (t : scalar) (tg : target) :
  iterations (FidelityBase.__init__ cf cdf ov sys) = 0%Z /\
  iterations (EnsembleFidelity.__init__ systems make) = 0%Z /\
  iterations (OperatorDistance.__init__ sys t tg) = 0%Z.
Proof. repeat split. Qed.

(** C9.  [iterate(x)] adds exactly one to [iterations], whatever [x] is
    and whether or not the call raises; [reset_iterations()] sets it to 0;
    [f] and [df] leave it alone.  Hence over any program of the public
    operations the counter does not decrease as long as no reset occurs,
    and a counter that is non-negative (the constructors start it at 0)
    stays so. *)
Theorem iterations_counter (self : fidelity) (x : pyobj) :
  iterations (snd (fidelity_iterate x self)) = (iterations self + 1)%Z /\
  iterations (snd (fidelity_reset_iterations self)) = 0%Z /\
  iterations (snd (fidelity_f x self)) = iterations self /\
  iterations (snd (fidelity_df x self)) = iterations self /\
  (forall ops, forallb (fun o => negb (is_reset o)) ops = true ->
     (iterations self <= iterations (run ops self))%Z) /\
  (forall ops, (0 <= iterations self)%Z -> (0 <= iterations (run ops self))%Z).
Proof.
  split; [apply iterate_adds_one|].
  split; [apply set_iterations_value|].
  split; [apply f_keeps_iterations|].
  split; [apply df_keeps_iterations|].
  split.
  - intros ops. unfold run. revert self.
    induction ops as [|o ops IH]; intros self Hops; simpl; [lia|].
    simpl in Hops. apply andb_prop in Hops. destruct Hops as [Ho Hops].
    specialize (IH (step self o) Hops).
    pose proof (step_iterations self o) as Hs.
    destruct o; simpl in Ho; try discriminate; lia.
  - intros ops. unfold run. revert self.
    induction ops as [|o ops IH]; intros self H0; simpl; [exact H0|].
    apply IH. rewrite step_iterations. destruct o; lia.
Qed.

End EnsembleFacts.

(** ** What the value of [f] and [df] depends on *)

Section Transparency.

Context {collab : Collaborators}.

Lemma same_value_sym {A : Type} (r1 r2 : result A) :
  same_value r1 r2 -> same_value r2 r1.
Proof. destruct r1, r2; simpl; auto. Qed.

Lemma same_value_trans {A : Type} (r1 r2 r3 : result A) :
  same_value r1 r2 -> same_value r2 r3 -> same_value r1 r3.
Proof. destruct r1, r2, r3; simpl; try tauto; congruence. Qed.

Lemma is_cached_no_raise (x : pyobj) (t : scalar) (s : ParametricSystem)
    (e : exn) :
  initialised s ->
  fst (ParametricSystemBase._is_cached x t s) <> Raise e.
Proof.
  intros Hi E.
  assert (Hk : ~ key_matches s x t).
  { intros Hk. apply is_cached_true_iff in Hk. congruence. }
  rewrite (is_cached_false x t s Hi Hk) in E. discriminate.
Qed.

Lemma fresh_solve_ok_inv (s : ParametricSystem) (x : pyobj) (t : scalar)
    (fs : FixedSystem) (l : list call) :
  fresh_solve s x t = (Ok fs, l) ->
  exists h dh n w, _hf s x = Ok h /\ _dhf s x = Ok dh /\ nz s = Some n /\
    omega s = Some w /\ FixedSystem_init h dh n w t = Ok fs.
Proof.
  unfold fresh_solve.
  destruct (_hf s x) as [h|]; [|discriminate].
  destruct (_dhf s x) as [dh|]; [|discriminate].
  destruct (nz s) as [n|]; [|discriminate].
  destruct (omega s) as [w|]; [|discriminate].
  intros H. injection H as H _. exists h, dh, n, w. auto.
Qed.

(** The value of a cached read is the value of a solve for the query,
    whatever the slot holds, when the slot is coherent and the solver
    insensitive. *)
Lemma cached_value {A : Type} (get : FixedSystem -> A)
    (pick : propagator * dpropagator -> A)
    (m : pyobj -> scalar -> M ParametricSystem A)
    (s : ParametricSystem) (x : pyobj) (t : scalar) (n0 : Z) :
  (forall fs, pick (fs_u fs, fs_du fs) = get fs) ->
  (fst (ParametricSystemBase._is_cached x t s) = Ok true ->
   m x t s = match _fixed_system s with
             | Some fs => (Ok (get fs), s)
             | None => (Raise AttributeError, s)
             end) ->
  (fst (ParametricSystemBase._is_cached x t s) = Ok false ->
   m x t s = miss_outcome get s x t) ->
  solver_insensitive -> initialised s -> nz s <> None -> coherent s x t ->
  same_value (fst (m x t s)) (result_map pick (reference_solve s x t n0)).
Proof.
  intros Hpick Hhit Hmiss Hins Hi Hnz Hco.
  destruct (fst (ParametricSystemBase._is_cached x t s)) as [[|]|e] eqn:E.
  - rewrite (Hhit eq_refl).
    destruct (Hco (proj1 (is_cached_true_iff x t s) E))
      as (fs & h & dh & n & w & fs0 & Hfs & Hh & Hdh & Hw & Hsolve & Hu & Hdu).
    rewrite Hfs. unfold reference_solve. rewrite Hh, Hdh, Hw.
    specialize (Hins h dh n n0 w t). rewrite Hsolve in Hins.
    destruct (FixedSystem_init h dh n0 w t) as [b|]; [|contradiction].
    destruct Hins as [Hub Hdub]. simpl.
    rewrite <- Hpick. congruence.
  - rewrite (Hmiss eq_refl). unfold miss_outcome, fresh_solve, reference_solve.
    destruct (_hf s x) as [h|]; [|exact I].
    destruct (_dhf s x) as [dh|]; [|exact I].
    destruct (nz s) as [n|]; [|congruence].
    destruct (omega s) as [w|]; [|exact I].
    specialize (Hins h dh n n0 w t).
    destruct (FixedSystem_init h dh n w t) as [a|];
      destruct (FixedSystem_init h dh n0 w t) as [b|]; simpl;
      try contradiction; [|exact I].
    destruct Hins as [Hub Hdub]. rewrite <- !Hpick. congruence.
  - exfalso. exact (is_cached_no_raise x t s e Hi E).
Qed.

Lemma u_value (s : ParametricSystem) (x : pyobj) (t : scalar) (n0 : Z) :
  solver_insensitive -> initialised s -> nz s <> None -> coherent s x t ->
  same_value (fst (ParametricSystemBase.u x t s))
             (result_map fst (reference_solve s x t n0)).
Proof.
  apply (cached_value fs_u fst ParametricSystemBase.u).
  - reflexivity.
  - apply u_hit.
  - apply u_miss.
Qed.

Lemma du_value (s : ParametricSystem) (x : pyobj) (t : scalar) (n0 : Z) :
  solver_insensitive -> initialised s -> nz s <> None -> coherent s x t ->
  same_value (fst (ParametricSystemBase.du x t s))
             (result_map snd (reference_solve s x t n0)).
Proof.
  apply (cached_value fs_du snd ParametricSystemBase.du).
  - reflexivity.
  - apply du_hit.
  - apply du_miss.
Qed.

(** A successful [u] leaves a state that is as good as the one before. *)
Lemma after_u_ok (s : ParametricSystem) (x : pyobj) (t : scalar)
    (U : propagator) :
  fst (ParametricSystemBase.u x t s) = Ok U ->
  initialised s -> nz s <> None -> coherent s x t ->
  let s' := snd (ParametricSystemBase.u x t s) in
  (forall n0, reference_solve s' x t n0 = reference_solve s x t n0) /\
  initialised s' /\ nz s' <> None /\ coherent s' x t.
Proof.
  intros HU Hi Hnz Hco.
  destruct (fst (ParametricSystemBase._is_cached x t s)) as [[|]|e] eqn:E.
  - apply is_cached_true_iff in E. rewrite (u_hit_state x t s E). simpl. auto.
  - rewrite u_miss in * by exact E.
    destruct (fresh_solve s x t) as [[fs|e] l] eqn:Ef; [|discriminate].
    simpl. destruct (fresh_solve_ok_inv s x t fs l Ef)
      as (h & dh & n & w & Hh & Hdh & Hn & Hw & Hsolve).
    split; [reflexivity|]. split; [split; discriminate|].
    split; [discriminate|].
    intros _. exists fs, h, dh, n, w, fs. simpl. auto 10.
  - exfalso. exact (is_cached_no_raise x t s e Hi E).
Qed.

Lemma reference_solve_agree (s1 s2 : ParametricSystem) (x : pyobj)
    (t : scalar) (n0 : Z) :
  _hf s1 x = _hf s2 x -> _dhf s1 x = _dhf s2 x -> omega s1 = omega s2 ->
  reference_solve s1 x t n0 = reference_solve s2 x t n0.
Proof. intros H1 H2 H3. unfold reference_solve. rewrite H1, H2, H3. reflexivity. Qed.

(** C2, as the code has it.  Take two [OperatorDistance] instances on
    systems with the same hooks and frequency, with any overrides and any
    iteration counts, whose cache slots are coherent for [x] and whose
    key attributes and truncation count are assigned.  If the solver's
    propagator and derivative do not depend on the truncation count it is
    started with, [f(x)] returns the same value on both (or raises on
    both), and so does [df(x)]. *)
Theorem operator_distance_value_determined (ov1 ov2 : overrides)
    (s1 s2 : ParametricSystem) (t : scalar) (tg : target) (it1 it2 : Z)
    (x : pyobj) :
  solver_insensitive ->
  _hf s1 x = _hf s2 x -> _dhf s1 x = _dhf s2 x -> omega s1 = omega s2 ->
  initialised s1 -> initialised s2 -> nz s1 <> None -> nz s2 <> None ->
  coherent s1 x t -> coherent s2 x t ->
  same_value (fst (fidelity_f x (OperatorDistanceObj ov1 s1 t tg it1)))
             (fst (fidelity_f x (OperatorDistanceObj ov2 s2 t tg it2))) /\
  same_value (fst (fidelity_df x (OperatorDistanceObj ov1 s1 t tg it1)))
             (fst (fidelity_df x (OperatorDistanceObj ov2 s2 t tg it2))).
Proof.
  intros Hins Hh Hdh Hw Hi1 Hi2 Hn1 Hn2 Hc1 Hc2.
  pose proof (reference_solve_agree s1 s2 x t 0 Hh Hdh Hw) as Href.
  assert (HU : same_value (fst (ParametricSystemBase.u x t s1))
                          (fst (ParametricSystemBase.u x t s2))).
  { eapply same_value_trans; [apply (u_value s1 x t 0); assumption|].
    rewrite Href. apply same_value_sym, u_value; assumption. }
  split.
  - rewrite !operator_distance_f_eq.
    destruct (ParametricSystemBase.u x t s1) as [[U1|e1] s1'];
      destruct (ParametricSystemBase.u x t s2) as [[U2|e2] s2'];
      simpl in *; try contradiction; [congruence | exact I].
  - rewrite !operator_distance_df_eq.
    destruct (fst (ParametricSystemBase.u x t s1)) as [U1|e1] eqn:E1;
      destruct (fst (ParametricSystemBase.u x t s2)) as [U2|e2] eqn:E2;
      simpl in HU; try contradiction.
    + destruct (after_u_ok s1 x t U1 E1 Hi1 Hn1 Hc1) as (Hr1 & Hi1' & Hn1' & Hc1').
      destruct (after_u_ok s2 x t U2 E2 Hi2 Hn2 Hc2) as (Hr2 & Hi2' & Hn2' & Hc2').
      assert (HdU : same_value
                (fst (ParametricSystemBase.du x t
                        (snd (ParametricSystemBase.u x t s1))))
                (fst (ParametricSystemBase.du x t
                        (snd (ParametricSystemBase.u x t s2))))).
      { eapply same_value_trans; [apply (du_value _ x t 0); assumption|].
        rewrite Hr1, Href, <- Hr2. apply same_value_sym, du_value; assumption. }
      destruct (ParametricSystemBase.u x t s1) as [r1 s1'];
        destruct (ParametricSystemBase.u x t s2) as [r2 s2'].
      simpl in *. subst r1 r2.
      destruct (ParametricSystemBase.du x t s1') as [[dU1|d1] s1''];
        destruct (ParametricSystemBase.du x t s2') as [[dU2|d2] s2''];
        simpl in *; try contradiction; [congruence | exact I].
    + destruct (ParametricSystemBase.u x t s1) as [r1 s1'];
        destruct (ParametricSystemBase.u x t s2) as [r2 s2'].
      simpl in *. subst r1 r2. exact I.
Qed.

End Transparency.

(** ** The fidelities on the examples *)

Lemma base_f_is_core_plus_penalty_witness :
  overrides_f (example_metric example_penalty 1 [1]) = false /\
  fidelity_f good_controls (example_metric example_penalty 1 [1])
  = (Ok (VFloat (1 + 2)), example_metric example_penalty 1 [1]) /\
  fidelity_f good_controls example_ensemble
  = fidelity__f good_controls example_ensemble /\
  fidelity_f good_controls (example_metric example_penalties 1 [1; 2])
  = (Ok (VFloat (1 + 2)), example_metric example_penalties 1 [1; 2]) /\
  fidelity_df good_controls (example_metric example_penalties 1 [1; 2])
  = (Ok (VArray [1 + 10; 2 + 20]), example_metric example_penalties 1 [1; 2]).
Proof.
  split; [reflexivity|]. split; [|split; [|split]].
  - exact (proj1 (base_f_is_core_plus_penalty
                    (example_metric example_penalty 1 [1]) good_controls
                    eq_refl)).
  - exact (proj1 (proj2 (proj2 (base_f_is_core_plus_penalty
                                  example_ensemble good_controls eq_refl)))
             eq_refl).
  - exact (proj1 (proj2 (proj2 (proj2 (proj2 (base_f_is_core_plus_penalty
             (example_metric example_penalties 1 [1; 2]) good_controls
             eq_refl))))) _ eq_refl).
  - exact (proj1 (proj2 (proj2 (proj2 (proj2 (proj2
             (base_f_is_core_plus_penalty
                (example_metric example_penalties 1 [1; 2]) good_controls
                eq_refl)))))) _ eq_refl).
Defined.


(** On an [OperatorDistance] the core is not implemented and [f] does not
    go through it. *)
Lemma operator_distance_core_unimplemented :
  fst (fidelity__f good_controls (example_fresh true))
  = Raise NotImplementedError /\
  fst (fidelity_f good_controls (example_fresh true)) = Ok (VFloat 14).
Proof. split; reflexivity. Qed.

Lemma example_members_f :
  Forall2 (fun fid v => fst (fidelity_f good_controls fid) = Ok (VFloat v))
          example_members [1 / 10; 2 / 10; 3 / 10].
Proof.
  repeat constructor;
    rewrite base_f_no_penalty by reflexivity; reflexivity.
Qed.

Lemma example_members_df :
  Forall2 (fun fid g => fst (fidelity_df good_controls fid) = Ok (VArray g)
                        /\ length g = 2%nat)
          example_members [[1; 2]; [3; 4]; [5; 9]].
Proof.
  repeat constructor;
    rewrite base_df_no_penalty by reflexivity; reflexivity.
Qed.

Lemma ensemble_core_is_mean_witness :
  example_members <> [] /\
  fst (fidelity__f good_controls example_ensemble) = Ok (VFloat (2 / 10)) /\
  exists mean,
    fst (fidelity__df good_controls example_ensemble) = Ok (VArray mean) /\
    length mean = 2%nat /\ nth 0 mean 0 = 3 /\ nth 1 mean 0 = 5.
Proof.
  assert (Hne : example_members <> []) by discriminate.
  destruct (ensemble_core_is_mean no_overrides example_members 0%Z
              good_controls Hne) as [Hf Hdf].
  split; [exact Hne|]. unfold example_ensemble. split.
  - rewrite (Hf _ example_members_f). do 2 f_equal. simpl. field.
  - destruct (Hdf _ _ example_members_df) as (mean & Hm & Hl & Hc).
    exists mean. split; [exact Hm|]. split; [exact Hl|]. split.
    + rewrite (Hc 0%nat) by lia. simpl. field.
    + rewrite (Hc 1%nat) by lia. simpl. field.
Defined.

Lemma iterations_counter_witness :
  (0 <= iterations (example_fresh true))%Z /\
  iterations (snd (fidelity_iterate short_controls (example_fresh true))) = 1%Z /\
  (0 <= iterations
          (run [Op_iterate good_controls; Op_reset_iterations;
                Op_iterate short_controls; Op_df good_controls]
               (example_fresh true)))%Z.
Proof.
  assert (H0 : (0 <= iterations (example_fresh true))%Z) by (simpl; lia).
  destruct (iterations_counter (example_fresh true) short_controls)
    as (H1 & _ & _ & _ & _ & H6).
  split; [exact H0|]. split; [exact H1|]. apply H6, H0.
Defined.

(** C2 as stated fails: the solver is started with the truncation count
    that the previous solve left behind, so with a solver whose
    propagator depends on that count the value of [f(x)] on a fresh
    instance differs from its value after a solve for other controls. *)
Lemma operator_distance_depends_on_history :
  fst (fidelity_f (example_array true [1%Z; 2%Z]) (example_fresh true))
  = Ok (VFloat 14) /\
  fst (fidelity_f (example_array true [1%Z; 2%Z])
         (example_after true [4%Z; 5%Z]))
  = Ok (VFloat 15) /\
  ~ same_value
      (fst (fidelity_f (example_array true [1%Z; 2%Z]) (example_fresh true)))
      (fst (fidelity_f (example_array true [1%Z; 2%Z])
              (example_after true [4%Z; 5%Z]))).
Proof.
  split; [reflexivity|]. split; [reflexivity|].
  intros H.
  change (VFloat 14 = VFloat 15) in H. injection H as H. lra.
Qed.

Lemma example_solver_insensitive : @solver_insensitive (example_collab false).
Proof. intros h dh n n' w t. simpl. split; reflexivity. Qed.

Lemma operator_distance_value_determined_witness :
  (@solver_insensitive (example_collab false) /\
   initialised (example_system_init false) /\
   initialised (example_system_after false [1%Z; 2%Z]) /\
   coherent (example_system_init false) (example_array false [1%Z; 2%Z]) 3%Z /\
   coherent (example_system_after false [1%Z; 2%Z])
            (example_array false [1%Z; 2%Z]) 3%Z) /\
  same_value
    (fst (fidelity_f (example_array false [1%Z; 2%Z])
            (example_distance false (example_system_init false) 0)))
    (fst (fidelity_f (example_array false [1%Z; 2%Z])
            (example_distance false (example_system_after false [1%Z; 2%Z]) 7))).
Proof.
  assert (Hi1 : initialised (example_system_init false))
    by (split; discriminate).
  assert (Hi2 : initialised (example_system_after false [1%Z; 2%Z]))
    by (split; discriminate).
  assert (Hc1 : coherent (example_system_init false)
                         (example_array false [1%Z; 2%Z]) 3%Z).
  { intros (lc & lt & _ & _ & H & _). discriminate H. }
  assert (Hc2 : coherent (example_system_after false [1%Z; 2%Z])
                         (example_array false [1%Z; 2%Z]) 3%Z).
  { intros _.
    exists (mkExampleFs 9 [1%Z; 2%Z] 6), [1%Z; 2%Z], [1%Z; 2%Z], 5%Z, 1%Z,
           (mkExampleFs 9 [1%Z; 2%Z] 6).
    repeat split. }
  split.
  { split; [exact example_solver_insensitive|]. split; [exact Hi1|].
    split; [exact Hi2|]. split; [exact Hc1 | exact Hc2]. }
  exact (proj1 (operator_distance_value_determined
                  no_overrides no_overrides
                  (example_system_init false)
                  (example_system_after false [1%Z; 2%Z])
                  3%Z 0%Z 0%Z 7%Z (example_array false [1%Z; 2%Z])
                  example_solver_insensitive eq_refl eq_refl eq_refl
                  Hi1 Hi2 ltac:(discriminate) ltac:(discriminate) Hc1 Hc2)).
Defined.

(** After a failed miss the slot is no longer coherent: with a solver
    that is insensitive to the truncation count, [f] for the controls
    that failed returns the distance of whatever was solved before. *)
Lemma stale_entry_changes_value :
  let x := example_array false [7%Z] in
  fst (fidelity_f x (example_fresh false)) = Raise IndexError /\
  fst (fidelity_f x (snd (fidelity_f x (example_after false [1%Z; 2%Z]))))
  = Ok (VFloat 9) /\
  fst (fidelity_f x (snd (fidelity_f x (example_after false [4%Z; 5%Z]))))
  = Ok (VFloat 27).
Proof. repeat split. Qed.

(** The identity passes the unitarity check at every tolerance that is
    not negative. *)
Lemma is_unitary_identity2 (tolerance : R) :
  0 <= tolerance ->
  Matrix.is_unitary [[C1; C0]; [C0; C1]] tolerance = Ok true.
Proof.
  intros Ht.
  destruct (is_unitary_square [[C1; C0]; [C0; C1]] tolerance eq_refl)
    as (b & Hb & Hiff).
  rewrite Hb. f_equal. apply Hiff. intros i j Hi Hj.
  assert (Hr : 0 <= Matrix.default_rtol * Rabs (delta i j)).
  { apply Rmult_le_pos; [unfold Matrix.default_rtol; lra | apply Rabs_pos]. }
  replace (Csub (Matrix.entry (matmul (Matrix.adjoint [[C1; C0]; [C0; C1]])
                                 [[C1; C0]; [C0; C1]]) i j)
                (RtoC (delta i j))) with (RtoC 0).
  - rewrite Cabs_RtoC by lra. lra.
  - simpl in Hi, Hj.
    destruct i as [|[|i]]; destruct j as [|[|j]]; try lia;
      unfold Matrix.entry, matmul, Matrix.adjoint, transpose, col, ncols, row,
        dot, delta; simpl; apply C_eq; csimpl; ring.
Qed.

(** * Further properties of matrix.py *)

(** ** The inner product and the norm *)

Lemma Cmod2_mul (z w : C) : Cmod2 (Cmul z w) = Cmod2 z * Cmod2 w.
Proof. unfold Cmod2, Cmul; simpl. ring. Qed.

Lemma sumsq_vscale (c : C) (a : vec) :
  sumsq (vscale c a) = Cmod2 c * sumsq a.
Proof.
  unfold vscale. induction a as [|z a IH]; simpl; [ring|].
  rewrite IH, Cmod2_mul. ring.
Qed.

(** X1.  [product] is an inner product in the convention of the
    docstring: for arrays of one length it is conjugate-symmetric, linear
    in its second argument and conjugate-linear in its first (at the
    exact arithmetic). *)
Theorem product_inner_product_laws (a b c : vec) (k : C) :
  length a = length b -> length b = length c ->
  Matrix.product a b = Cconj (Matrix.product b a) /\
  Matrix.product a (vsub b (vscale k c))
    = Csub (Matrix.product a b) (Cmul k (Matrix.product a c)) /\
  Matrix.product (vsub a (vscale k c)) b
    = Csub (Matrix.product a b) (Cmul (Cconj k) (Matrix.product c b)).
Proof.
  intros Hab Hbc. exact_form. split; [apply product_conj_sym|]. split.
  - rewrite product_vsub_r by (rewrite vscale_length; exact Hbc).
    rewrite product_vscale_r. reflexivity.
  - rewrite (product_conj_sym (vsub a (vscale k c)) b).
    rewrite product_vsub_r by (rewrite vscale_length; congruence).
    rewrite product_vscale_r.
    rewrite (product_conj_sym b a), (product_conj_sym b c).
    apply C_eq; csimpl; ring.
Qed.

Lemma product_inner_product_laws_witness :
  let a := [RtoC 1; (0, 1)] in
  let b := [(0, 1); RtoC 2] in
  Matrix.product a b = Cconj (Matrix.product b a).
Proof.
  exact (proj1 (product_inner_product_laws
                  [RtoC 1; (0, 1)] [(0, 1); RtoC 2] [RtoC 1; RtoC 1] C1
                  eq_refl eq_refl)).
Defined.

(** X2.  At the exact arithmetic [norm] is a real, non-negative number,
    the root of the sum of the squared moduli, and scaling a vector by
    [c] scales its norm by the modulus of [c]. *)
Theorem norm_positive_homogeneous (a : vec) (c : C) :
  Matrix.norm a = RtoC (sqrt (sumsq a)) /\
  0 <= sqrt (sumsq a) /\
  Matrix.norm (vscale c a) = Cmul (RtoC (Cabs c)) (Matrix.norm a).
Proof.
  exact_form. split; [apply norm_eq|]. split; [apply sqrt_pos|].
  rewrite !norm_eq, sumsq_vscale.
  rewrite sqrt_mult by (apply Cmod2_nonneg || apply sumsq_nonneg).
  unfold Cabs. apply C_eq; csimpl; ring.
Qed.

(** ** The adjoint *)

Lemma nth_map_conj (r : vec) (i : nat) :
  nth i (map Cconj r) C0 = Cconj (nth i r C0).
Proof.
  revert i. induction r as [|z r IH]; intros [|i]; simpl;
    try apply IH; try reflexivity; symmetry; apply Cconj_C0.
Qed.

Lemma row_map_conj (m : matrix) (j : nat) :
  row (map (map Cconj) m) j = map Cconj (row m j).
Proof.
  unfold row. revert j. induction m as [|r m IH]; intros [|j]; simpl;
    try reflexivity. apply IH.
Qed.

Lemma ncols_map_conj (m : matrix) : ncols (map (map Cconj) m) = ncols m.
Proof. unfold ncols. rewrite row_map_conj. apply length_map. Qed.

Lemma transpose_length (m : matrix) : length (transpose m) = ncols m.
Proof. unfold transpose. rewrite length_map, length_seq. reflexivity. Qed.

Lemma row_transpose (m : matrix) (i : nat) :
  (i < ncols m)%nat -> row (transpose m) i = col m i.
Proof.
  intros Hi. unfold row, transpose.
  rewrite (nth_indep _ [] (col m 0))
    by (rewrite length_map, length_seq; exact Hi).
  rewrite map_nth, seq_nth by exact Hi. reflexivity.
Qed.

Lemma col_map_conj (m : matrix) (i : nat) :
  col (map (map Cconj) m) i = map Cconj (col m i).
Proof.
  unfold col. rewrite !map_map. apply map_ext. intros r. apply nth_map_conj.
Qed.

Lemma row_adjoint (m : matrix) (i : nat) :
  (i < ncols m)%nat -> row (Matrix.adjoint m) i = map Cconj (col m i).
Proof.
  intros Hi. unfold Matrix.adjoint.
  rewrite row_transpose by (rewrite ncols_map_conj; exact Hi).
  apply col_map_conj.
Qed.

Lemma ncols_rectangular (d : nat) (m : matrix) :
  m <> [] -> rectangular d m -> ncols m = d.
Proof.
  intros Hne Hr. unfold ncols. apply rectangular_row; [exact Hr|].
  destruct m; [congruence | simpl; lia].
Qed.

(** X3.  The adjoint of an [n] by [d] array with [n >= 1] is a [d] by [n]
    array whose entry [(i, j)] is the conjugate of the entry [(j, i)]. *)
Theorem adjoint_entries (d : nat) (m : matrix) :
  m <> [] -> rectangular d m ->
  nrows (Matrix.adjoint m) = d /\
  rectangular (nrows m) (Matrix.adjoint m) /\
  (forall i j, (i < d)%nat -> (j < nrows m)%nat ->
     Matrix.entry (Matrix.adjoint m) i j = Cconj (Matrix.entry m j i)).
Proof.
  intros Hne Hr. pose proof (ncols_rectangular d m Hne Hr) as Hd.
  assert (Hlen : length (Matrix.adjoint m) = d).
  { unfold Matrix.adjoint. rewrite transpose_length, ncols_map_conj. exact Hd. }
  split; [exact Hlen|]. split.
  - unfold rectangular. apply Forall_forall. intros r Hin.
    destruct (In_nth _ _ [] Hin) as (i & Hi & <-).
    change (nth i (Matrix.adjoint m) []) with (row (Matrix.adjoint m) i).
    rewrite row_adjoint by (rewrite Hd, <- Hlen; exact Hi).
    rewrite length_map, col_length. reflexivity.
  - intros i j Hi Hj. unfold Matrix.entry.
    rewrite row_adjoint by (rewrite Hd; exact Hi).
    rewrite nth_map_conj, nth_col. reflexivity.
Qed.

Lemma adjoint_entries_witness :
  Matrix.entry (Matrix.adjoint example_vecs) 1 0
  = Cconj (Matrix.entry example_vecs 0 1).
Proof.
  assert (H1 : example_vecs <> []) by discriminate.
  assert (H2 : rectangular 2 example_vecs)
    by (constructor; [reflexivity | constructor; [reflexivity | constructor]]).
  apply (proj2 (proj2 (adjoint_entries 2 example_vecs H1 H2))); simpl; lia.
Defined.

Lemma Forall_length_nth (d : nat) (m : matrix) (i : nat) :
  rectangular d m -> (i < length m)%nat -> length (nth i m []) = d.
Proof. intros Hr Hi. apply (rectangular_row d m i Hr Hi). Qed.

(** X4.  Taking the adjoint twice gives the array back, for an array
    with at least one row and one column. *)
Theorem adjoint_involutive (d : nat) (m : matrix) :
  m <> [] -> (0 < d)%nat -> rectangular d m ->
  Matrix.adjoint (Matrix.adjoint m) = m.
Proof.
  intros Hne Hd Hr.
  assert (Hlen : length (Matrix.adjoint m) = d).
  { unfold Matrix.adjoint. rewrite transpose_length, ncols_map_conj.
    apply ncols_rectangular; assumption. }
  assert (Hne' : Matrix.adjoint m <> []).
  { intros E. rewrite E in Hlen. simpl in Hlen. lia. }
  assert (Hr' : rectangular (length m) (Matrix.adjoint m)).
  { unfold rectangular. apply Forall_forall. intros r Hin.
    destruct (In_nth _ _ [] Hin) as (i & Hi & <-).
    change (nth i (Matrix.adjoint m) []) with (row (Matrix.adjoint m) i).
    rewrite row_adjoint
      by (rewrite (ncols_rectangular d m Hne Hr), <- Hlen; exact Hi).
    rewrite length_map, col_length. reflexivity. }
  assert (Hc' : ncols (Matrix.adjoint m) = length m)
    by (apply ncols_rectangular; assumption).
  assert (Hlen2 : length (Matrix.adjoint (Matrix.adjoint m)) = length m).
  { unfold Matrix.adjoint at 1.
    rewrite transpose_length, ncols_map_conj. exact Hc'. }
  apply (nth_ext _ _ [] []); [exact Hlen2|].
  intros j Hj0.
  assert (Hj : (j < length m)%nat)
    by exact (eq_ind _ (fun n => (j < n)%nat) Hj0 _ Hlen2).
  change (row (Matrix.adjoint (Matrix.adjoint m)) j = row m j).
  rewrite row_adjoint by (rewrite Hc'; exact Hj).
  assert (Hrow : length (row m j) = d) by (apply rectangular_row; assumption).
  apply (nth_ext _ _ C0 C0).
  - rewrite length_map, col_length. congruence.
  - intros i Hi. rewrite length_map, col_length, Hlen in Hi.
    rewrite nth_map_conj, nth_col.
    rewrite row_adjoint
      by (rewrite (ncols_rectangular d m Hne Hr); exact Hi).
    rewrite nth_map_conj, nth_col. apply Cconj_involutive.
Qed.

Lemma adjoint_involutive_witness :
  Matrix.adjoint (Matrix.adjoint example_vecs) = example_vecs.
Proof.
  apply (adjoint_involutive 2 example_vecs).
  - discriminate.
  - lia.
  - constructor; [reflexivity | constructor; [reflexivity | constructor]].
Defined.

(** ** The unitarity check, column by column *)

Lemma entry_matmul (a b : matrix) (i j : nat) :
  (i < length a)%nat -> (j < ncols b)%nat ->
  Matrix.entry (matmul a b) i j = dot (row a i) (col b j).
Proof.
  intros Hi Hj. unfold Matrix.entry, matmul, row.
  set (f := fun r : vec => map (fun j0 => dot r (col b j0)) (seq 0 (ncols b))).
  rewrite (nth_indep _ [] (f [])) by (rewrite length_map; exact Hi).
  rewrite map_nth. unfold f.
  set (g := fun j0 : nat => dot (nth i a []) (col b j0)).
  rewrite (nth_indep _ C0 (g 0%nat)) by (rewrite length_map, length_seq; exact Hj).
  rewrite map_nth, seq_nth by exact Hj. reflexivity.
Qed.

(** The entries of [adjoint(u) * u] are the inner products of the
    columns of [u]. *)
Lemma entry_gram (u : matrix) (i j : nat) :
  (i < ncols u)%nat -> (j < ncols u)%nat ->
  Matrix.entry (matmul (Matrix.adjoint u) u) i j
  = Exact.product (col u i) (col u j).
Proof.
  intros Hi Hj. rewrite entry_matmul.
  - rewrite row_adjoint by exact Hi. reflexivity.
  - unfold Matrix.adjoint. rewrite transpose_length, ncols_map_conj. exact Hi.
  - exact Hj.
Qed.

(** X5.  On a square array, [is_unitary] answers whether the columns are
    orthonormal for [product] up to the bound of [numpy.allclose]: the
    inner product of columns [i] and [j] is within
    [tolerance + rtol * |e|] of the entry [e] of the identity. *)
Theorem is_unitary_columns (u : matrix) (tolerance : R) :
  ncols u = nrows u ->
  exists b, Matrix.is_unitary u tolerance = Ok b /\
    (b = true <->
     forall i j, (i < nrows u)%nat -> (j < nrows u)%nat ->
       Cabs (Csub (Matrix.product (col u i) (col u j)) (RtoC (delta i j)))
       <= tolerance + Matrix.default_rtol * Rabs (delta i j)).
Proof.
  intros Hsq. exact_form. destruct (is_unitary_square u tolerance Hsq) as (b & Hb & Hiff).
  exists b. split; [exact Hb|]. rewrite Hiff. split; intros H i j Hi Hj.
  - rewrite <- entry_gram by (rewrite Hsq; assumption). apply H; assumption.
  - rewrite entry_gram by (rewrite Hsq; assumption). apply H; assumption.
Qed.

Lemma is_unitary_columns_witness :
  exists b, Matrix.is_unitary example_vecs 0 = Ok b /\
    (b = true <->
     forall i j, (i < nrows example_vecs)%nat -> (j < nrows example_vecs)%nat ->
       Cabs (Csub (Matrix.product (col example_vecs i) (col example_vecs j))
                  (RtoC (delta i j)))
       <= 0 + Matrix.default_rtol * Rabs (delta i j)).
Proof. exact (is_unitary_columns example_vecs 0 eq_refl). Defined.

Lemma isclose_monotone (rtol atol atol' : R) (a : C) (b : R) :
  atol <= atol' ->
  Matrix.isclose rtol atol a b = true -> Matrix.isclose rtol atol' a b = true.
Proof.
  unfold Matrix.isclose. rewrite !Rleb_true_iff. lra.
Qed.

(** X6.  The check is monotone in the tolerance: what passes at one
    tolerance passes at every larger one, whatever the shape of the
    array. *)
Theorem is_unitary_monotone (u : matrix) (tolerance tolerance' : R) :
  tolerance <= tolerance' ->
  Matrix.is_unitary u tolerance = Ok true ->
  Matrix.is_unitary u tolerance' = Ok true.
Proof.
  intros Hle. unfold Matrix.is_unitary, Matrix.allclose.
  destruct (Nat.eqb (ncols u) (nrows u));
    [|destruct (Nat.eqb (nrows u) 1);
      [|destruct (Nat.eqb (ncols u) 1); [|discriminate]]];
    intros H; injection H as H; f_equal;
    rewrite all_pairs_iff in *; intros i j Hi Hj;
    apply (isclose_monotone _ tolerance); auto.
Qed.

Lemma is_unitary_monotone_witness :
  Matrix.is_unitary [[C1; C0]; [C0; C1]] 1 = Ok true.
Proof.
  apply (is_unitary_monotone [[C1; C0]; [C0; C1]] 0 1).
  - lra.
  - apply is_unitary_identity2. lra.
Defined.

(** * Further properties of parametric_system.py *)

Section SystemExtras.

Context {collab : Collaborators}.

(** X12.  [u] and [du] differ only in what they return: on the same
    arguments they leave the instance in the same state, raise in the
    same cases, and when [u] returns the propagator of a solve result
    then [du] returns the derivative of that same result. *)
Theorem u_and_du_agree (controls : pyobj) (t : scalar)
    (self : ParametricSystem) :
  snd (ParametricSystemBase.du controls t self)
    = snd (ParametricSystemBase.u controls t self) /\
  (forall e, fst (ParametricSystemBase.u controls t self) = Raise e <->
             fst (ParametricSystemBase.du controls t self) = Raise e) /\
  (forall U, fst (ParametricSystemBase.u controls t self) = Ok U ->
     exists fs,
       _fixed_system (snd (ParametricSystemBase.u controls t self)) = Some fs /\
       U = fs_u fs /\
       fst (ParametricSystemBase.du controls t self) = Ok (fs_du fs)).
Proof.
  destruct (fst (ParametricSystemBase._is_cached controls t self))
    as [[|]|e0] eqn:E.
  - rewrite u_hit, du_hit by exact E.
    destruct (_fixed_system self) as [fs|] eqn:Efs; simpl.
    + split; [reflexivity|]. split; [intros e; split; discriminate|].
      intros U HU. injection HU as <-. exists fs. auto.
    + split; [reflexivity|]. split; [intros ?; split; intros H; injection H as <-; reflexivity|].
      intros U HU; discriminate HU.
  - rewrite u_miss, du_miss by exact E.
    destruct (fresh_solve self controls t) as [[fs|e1] l]; simpl.
    + split; [reflexivity|]. split; [intros e; split; discriminate|].
      intros U HU. injection HU as <-. exists fs. auto.
    + split; [reflexivity|]. split; [intros ?; split; intros H; injection H as <-; reflexivity|].
      intros U HU; discriminate HU.
  - rewrite (u_raise _ _ _ e0 E), (du_raise _ _ _ e0 E). simpl.
    split; [reflexivity|]. split; [intros ?; split; intros H; injection H as <-; reflexivity|].
      intros U HU; discriminate HU.
Qed.

(** X13.  An instance made by [ParametricSystemWithFunctions] has no key
    attributes: its first call with an array raises [AttributeError],
    changes nothing and calls nothing, for [u] and [du] alike.  A first
    call with controls that are not an array runs the miss and leaves the
    key attributes assigned. *)
Theorem with_functions_needs_base_init {P : Type}
    (hf : pyobj -> P -> scalar -> result hamiltonian)
    (dhf : pyobj -> P -> scalar -> result dhamiltonian)
    (nz0 : Z) (omega0 : scalar) (parameters : P)
    (controls : pyobj) (t : scalar) :
  let self := ParametricSystemWithFunctions.__init__ hf dhf nz0 omega0
                parameters in
  (isinstance_ndarray controls = true ->
     ParametricSystemBase.u controls t self = (Raise AttributeError, self) /\
     ParametricSystemBase.du controls t self = (Raise AttributeError, self)) /\
  (isinstance_ndarray controls = false ->
     ParametricSystemBase.u controls t self = miss_outcome fs_u self controls t /\
     initialised (snd (ParametricSystemBase.u controls t self))).
Proof.
  intros self. split.
  - intros Ha.
    assert (E : fst (ParametricSystemBase._is_cached controls t self)
                = Raise AttributeError).
    { unfold ParametricSystemBase._is_cached, bind, getattr. rewrite Ha.
      reflexivity. }
    split; [apply u_raise, E | apply du_raise, E].
  - intros Ha.
    assert (E : fst (ParametricSystemBase._is_cached controls t self) = Ok false)
      by (rewrite is_cached_not_array by exact Ha; reflexivity).
    rewrite u_miss by exact E. split; [reflexivity|].
    unfold miss_outcome.
    destruct (fresh_solve self controls t) as [[fs|e] l]; split; discriminate.
Qed.


(** X15.  The slot holds one key: after a miss for [(c2, t2)], solved or
    not, a query [(c1, t1)] matches exactly when [c1] is an array, [t2]
    compares equal to [t1] and [c2] to [c1]; whatever was stored before
    is forgotten. *)
Theorem miss_replaces_key (self : ParametricSystem) (c2 : pyobj) (t2 : scalar)
    (c1 : pyobj) (t1 : scalar) :
  fst (ParametricSystemBase._is_cached c2 t2 self) = Ok false ->
  (key_matches (snd (ParametricSystemBase.u c2 t2 self)) c1 t1 <->
   isinstance_ndarray c1 = true /\ scalar_eqb t2 t1 = true /\
   array_equal c2 c1 = true).
Proof.
  intros E. destruct (after_miss c2 t2 self E) as (Hc & Ht & _).
  unfold key_matches. rewrite Hc, Ht. split.
  - intros (lc & lt & Ha & H1 & H2 & H3 & H4).
    injection H1 as <-. injection H2 as <-. auto.
  - intros (Ha & H3 & H4). exists c2, t2. auto.
Qed.

(** X16.  The order of the calls in a miss: [_hf] first; [_dhf] only if
    [_hf] returned; the solver only if both returned (and [nz], [omega]
    are assigned), and then with the results of the hooks, the current
    [nz] and [omega], and [t].  The error of the first call that raises
    is the error of [u]. *)
Theorem miss_call_order (self : ParametricSystem) (controls : pyobj)
    (t : scalar) :
  fst (ParametricSystemBase._is_cached controls t self) = Ok false ->
  let r := ParametricSystemBase.u controls t self in
  (forall e, _hf self controls = Raise e ->
     fst r = Raise e /\ calls (snd r) = Call_hf controls :: calls self) /\
  (forall h e, _hf self controls = Ok h -> _dhf self controls = Raise e ->
     fst r = Raise e /\
     calls (snd r) = Call_dhf controls :: Call_hf controls :: calls self) /\
  (forall h dh n w, _hf self controls = Ok h -> _dhf self controls = Ok dh ->
     nz self = Some n -> omega self = Some w ->
     fst r = result_map fs_u (FixedSystem_init h dh n w t) /\
     calls (snd r) = Call_FixedSystem :: Call_dhf controls
                       :: Call_hf controls :: calls self).
Proof.
  intros E. simpl. rewrite u_miss by exact E. unfold fresh_solve.
  split; [|split].
  - intros e He. rewrite He. split; reflexivity.
  - intros h e Hh Hdh. rewrite Hh, Hdh. split; reflexivity.
  - intros h dh n w Hh Hdh Hn Hw. rewrite Hh, Hdh, Hn, Hw.
    destruct (FixedSystem_init h dh n w t); split; reflexivity.
Qed.

(** X17.  What a call keeps: the hooks and [omega] are never changed;
    assigned key attributes, an assigned [nz] and a stored solve result
    stay assigned; the call log only grows. *)
Theorem call_preserves_setup (controls : pyobj) (t : scalar)
    (self : ParametricSystem) :
  let s' := snd (ParametricSystemBase.u controls t self) in
  _hf s' = _hf self /\ _dhf s' = _dhf self /\ omega s' = omega self /\
  (initialised self -> initialised s') /\
  (nz self <> None -> nz s' <> None) /\
  (_fixed_system self <> None -> _fixed_system s' <> None) /\
  (exists l, calls s' = l ++ calls self).
Proof.
  destruct (fst (ParametricSystemBase._is_cached controls t self))
    as [[|]|e0] eqn:E.
  - apply is_cached_true_iff in E. rewrite (u_hit_state _ _ _ E).
    do 3 (split; [reflexivity|]). do 3 (split; [auto|]).
    exists []. reflexivity.
  - rewrite u_miss by exact E.
    destruct (fresh_solve self controls t) as [[fs|e1] l]; simpl.
    + do 3 (split; [reflexivity|]).
      split; [intros _; split; discriminate|].
      do 2 (split; [intros _; discriminate|]).
      exists [Call_FixedSystem; Call_dhf controls; Call_hf controls].
      reflexivity.
    + do 3 (split; [reflexivity|]).
      split; [intros _; split; discriminate|].
      do 2 (split; [auto|]).
      exists l. reflexivity.
  - rewrite (u_raise _ _ _ e0 E). simpl.
    do 3 (split; [reflexivity|]). do 3 (split; [auto|]).
    exists []. reflexivity.
Qed.

(** X18.  When the truncation count changes: a hit returns without
    touching the instance; a call that raises leaves [nz] and the stored
    result as they were; a miss that returns stores the new solve result
    and takes [nz] from it. *)
Theorem nz_follows_solver (controls : pyobj) (t : scalar)
    (self : ParametricSystem) :
  let s' := snd (ParametricSystemBase.u controls t self) in
  (key_matches self controls t -> s' = self) /\
  (forall e, fst (ParametricSystemBase.u controls t self) = Raise e ->
     nz s' = nz self /\ _fixed_system s' = _fixed_system self) /\
  (~ key_matches self controls t ->
   forall U, fst (ParametricSystemBase.u controls t self) = Ok U ->
     exists fs, _fixed_system s' = Some fs /\ U = fs_u fs /\
       nz s' = Some (fs_params_nz fs) /\
       _last_controls s' = Some controls /\ _last_t s' = Some (Some t)).
Proof.
  simpl. split; [apply u_hit_state|].
  destruct (fst (ParametricSystemBase._is_cached controls t self))
    as [[|]|e0] eqn:E.
  - split.
    + intros e _. apply is_cached_true_iff in E.
      rewrite (u_hit_state _ _ _ E). auto.
    + intros Hk. exfalso. apply Hk, is_cached_true_iff, E.
  - rewrite u_miss by exact E.
    destruct (fresh_solve self controls t) as [[fs|e1] l]; simpl.
    + split; [discriminate|]. intros _ U HU. injection HU as <-.
      exists fs. auto.
    + split; [auto | discriminate].
  - rewrite (u_raise _ _ _ e0 E). simpl. split; [auto | discriminate].
Qed.

(** X19.  [_is_cached] only reads.  It raises nothing but
    [AttributeError], and that only for an array on an instance whose
    key attributes are not all assigned; controls that are not an array
    are never cached. *)
Theorem is_cached_read_only (controls : pyobj) (t : scalar)
    (self : ParametricSystem) :
  snd (ParametricSystemBase._is_cached controls t self) = self /\
  (forall e, fst (ParametricSystemBase._is_cached controls t self) = Raise e ->
     e = AttributeError /\ isinstance_ndarray controls = true /\
     ~ initialised self) /\
  (isinstance_ndarray controls = false ->
     fst (ParametricSystemBase._is_cached controls t self) = Ok false).
Proof.
  split; [apply is_cached_pure|]. split.
  - intros e. unfold ParametricSystemBase._is_cached, bind, ret, getattr.
    destruct (isinstance_ndarray controls); simpl; [|discriminate].
    destruct (_last_t self) as [lt|] eqn:Et; simpl.
    + destruct (py_ne lt t); simpl; [discriminate|].
      destruct (_last_controls self) eqn:Ec; simpl; [discriminate|].
      intros H. injection H as <-. repeat split; auto.
      intros [Hc _]. congruence.
    + intros H. injection H as <-. repeat split; auto.
      intros [_ Ht']. congruence.
  - intros Ha. rewrite is_cached_not_array by exact Ha. reflexivity.
Qed.

(** X20.  The hooks of the base class are abstract: on an instance of
    the bare base class every first call, of [u] or [du], with any
    controls, raises [NotImplementedError] after calling [_hf] and
    nothing else. *)
Theorem base_class_is_abstract (nz0 : option Z) (omega0 : option scalar)
    (controls : pyobj) (t : scalar) :
  let self := ParametricSystemBase.__init__
                ParametricSystemBase._hf_abstract
                ParametricSystemBase._dhf_abstract nz0 omega0 in
  fst (ParametricSystemBase.u controls t self) = Raise NotImplementedError /\
  fst (ParametricSystemBase.du controls t self) = Raise NotImplementedError /\
  calls (snd (ParametricSystemBase.u controls t self)) = [Call_hf controls].
Proof.
  intros self.
  assert (E : fst (ParametricSystemBase._is_cached controls t self) = Ok false).
  { apply is_cached_false; [split; discriminate|].
    intros (lc & lt & _ & _ & H & _). discriminate H. }
  rewrite u_miss, du_miss by exact E. repeat split.
Qed.

End SystemExtras.

Lemma with_functions_needs_base_init_witness :
  ParametricSystemBase.u good_controls example_t (example_system true)
    = (Raise AttributeError, example_system true) /\
  initialised (snd (ParametricSystemBase.u list_controls example_t
                      (example_system true))).
Proof.
  destruct (@with_functions_needs_base_init (example_collab true) unit
              (example_hf true) (example_hf true)
              5%Z 1%Z tt good_controls example_t) as [H1 _].
  destruct (@with_functions_needs_base_init (example_collab true) unit
              (example_hf true) (example_hf true)
              5%Z 1%Z tt list_controls example_t) as [_ H2].
  split; [exact (proj1 (H1 eq_refl)) | exact (proj2 (H2 eq_refl))].
Defined.


Lemma miss_replaces_key_witness :
  key_matches (snd (ParametricSystemBase.u other_controls example_t
                      example_system_solved)) good_controls example_t <->
  isinstance_ndarray good_controls = true /\
  scalar_eqb example_t example_t = true /\
  array_equal other_controls good_controls = true.
Proof.
  exact (miss_replaces_key example_system_solved other_controls
           example_t good_controls example_t eq_refl).
Defined.

Lemma miss_call_order_witness :
  fst (ParametricSystemBase.u short_controls example_t example_system_solved)
    = Raise IndexError /\
  calls (snd (ParametricSystemBase.u short_controls example_t
                example_system_solved))
    = Call_hf short_controls :: calls example_system_solved.
Proof.
  exact (proj1 (miss_call_order example_system_solved short_controls example_t
                  eq_refl) IndexError eq_refl).
Defined.

(** * Further properties of fidelity.py *)

Section FidelityExtras.

Context {collab : Collaborators}.

Lemma for_each_first_raise (g : M fidelity val) (pre post : list fidelity)
    (fid : fidelity) (e : exn) :
  Forall (fun m => exists v, fst (g m) = Ok v) pre ->
  fst (g fid) = Raise e ->
  for_each g (pre ++ fid :: post)
  = (Raise e, map (fun m => snd (g m)) pre ++ snd (g fid) :: post).
Proof.
  intros Hpre Hfid. induction Hpre as [|m pre [v Hv] _ IH]; simpl.
  - destruct (g fid) as [[v|e'] fid']; simpl in *; [discriminate|].
    injection Hfid as ->. reflexivity.
  - destruct (g m) as [[v'|e'] m']; simpl in *; [|discriminate].
    rewrite IH. reflexivity.
Qed.

Lemma ensemble__f_eq (ov : overrides) (fids : list fidelity) (it : Z)
    (x : pyobj) :
  fidelity__f x (EnsembleFidelityObj ov fids it)
  = match for_each (fidelity_f x) fids with
    | (Ok vs, fids') => (np_mean vs, EnsembleFidelityObj ov fids' it)
    | (Raise e, fids') => (Raise e, EnsembleFidelityObj ov fids' it)
    end.
Proof. reflexivity. Qed.

Lemma ensemble__df_eq (ov : overrides) (fids : list fidelity) (it : Z)
    (x : pyobj) :
  fidelity__df x (EnsembleFidelityObj ov fids it)
  = match for_each (fidelity_df x) fids with
    | (Ok vs, fids') => (np_mean_axis0 vs, EnsembleFidelityObj ov fids' it)
    | (Raise e, fids') => (Raise e, EnsembleFidelityObj ov fids' it)
    end.
Proof. reflexivity. Qed.

(** X21.  The list comprehension of an ensemble ends at the first member
    that raises: [f] (and [df]) of the ensemble raises that error, the
    members before it have been evaluated and keep what the evaluation
    did to them, the members after it are not touched, and no penalty is
    evaluated. *)
Theorem ensemble_stops_at_first_raise (ov : overrides)
    (pre post : list fidelity) (fid : fidelity) (it : Z) (x : pyobj)
    (e : exn) :
  (Forall (fun m => exists v, fst (fidelity_f x m) = Ok v) pre ->
   fst (fidelity_f x fid) = Raise e ->
   fidelity_f x (EnsembleFidelityObj ov (pre ++ fid :: post) it)
   = (Raise e,
      EnsembleFidelityObj ov
        (map (fun m => snd (fidelity_f x m)) pre
           ++ snd (fidelity_f x fid) :: post) it)) /\
  (Forall (fun m => exists v, fst (fidelity_df x m) = Ok v) pre ->
   fst (fidelity_df x fid) = Raise e ->
   fidelity_df x (EnsembleFidelityObj ov (pre ++ fid :: post) it)
   = (Raise e,
      EnsembleFidelityObj ov
        (map (fun m => snd (fidelity_df x m)) pre
           ++ snd (fidelity_df x fid) :: post) it)).
Proof.
  split; intros Hpre Hfid.
  - rewrite base_f_sum by reflexivity. rewrite ensemble__f_eq.
    rewrite (for_each_first_raise _ pre post fid e Hpre Hfid). reflexivity.
  - rewrite base_df_sum by reflexivity. rewrite ensemble__df_eq.
    rewrite (for_each_first_raise _ pre post fid e Hpre Hfid). reflexivity.
Qed.

Lemma for_each_counters (g : M fidelity val) (fids : list fidelity) :
  (forall m, iterations (snd (g m)) = iterations m) ->
  map iterations (snd (for_each g fids)) = map iterations fids.
Proof.
  intros Hg. induction fids as [|m fids IH]; simpl; [reflexivity|].
  pose proof (Hg m) as Hm.
  destruct (g m) as [[v|e] m']; simpl in *.
  - destruct (for_each g fids) as [[vs|e] fids']; simpl in *; congruence.
  - congruence.
Qed.

Lemma ensemble_f_state (ov : overrides) (fids : list fidelity) (it : Z)
    (x : pyobj) :
  exists fids',
    snd (fidelity_f x (EnsembleFidelityObj ov fids it))
    = EnsembleFidelityObj ov fids' it /\
    map iterations fids' = map iterations fids.
Proof.
  rewrite base_f_sum by reflexivity. rewrite ensemble__f_eq.
  pose proof (for_each_counters (fidelity_f x) fids (f_keeps_iterations x))
    as Hc.
  destruct (for_each (fidelity_f x) fids) as [[vs|e] fids']; simpl in Hc;
    exists fids'.
  - destruct (np_mean vs) as [a|e]; [|split; [reflexivity | exact Hc]].
    destruct (fst (fidelity_penalty x (EnsembleFidelityObj ov fids' it)));
      split; (reflexivity || exact Hc).
  - split; [reflexivity | exact Hc].
Qed.

Lemma ensemble_df_state (ov : overrides) (fids : list fidelity) (it : Z)
    (x : pyobj) :
  exists fids',
    snd (fidelity_df x (EnsembleFidelityObj ov fids it))
    = EnsembleFidelityObj ov fids' it /\
    map iterations fids' = map iterations fids.
Proof.
  rewrite base_df_sum by reflexivity. rewrite ensemble__df_eq.
  pose proof (for_each_counters (fidelity_df x) fids (df_keeps_iterations x))
    as Hc.
  destruct (for_each (fidelity_df x) fids) as [[vs|e] fids']; simpl in Hc;
    exists fids'.
  - destruct (np_mean_axis0 vs) as [a|e]; [|split; [reflexivity | exact Hc]].
    destruct (fst (fidelity_d_penalty x (EnsembleFidelityObj ov fids' it)));
      split; (reflexivity || exact Hc).
  - split; [reflexivity | exact Hc].
Qed.

Lemma iterate_eq (x : pyobj) (self : fidelity) :
  fidelity_iterate x self =
  let s1 := snd (set_iterations (iterations self + 1) self) in
  match fst (fidelity__iterate x s1) with
  | Raise e => (Raise e, s1)
  | Ok _ =>
      match fidelity_f x s1 with
      | (Ok _, s2) => (Ok tt, s2)
      | (Raise e, s2) => (Raise e, s2)
      end
  end.
Proof.
  unfold fidelity_iterate, FidelityBase.iterate, bind, get_iterations, ret.
  simpl.
  unfold fidelity__iterate, FidelityBase._iterate, ret.
  destruct (ov__iterate _) as [h|]; simpl.
  - destruct (h x) as [[]|e]; [|reflexivity].
    destruct (fidelity_f x _) as [[v|e] s2]; reflexivity.
  - destruct (fidelity_f x _) as [[v|e] s2]; reflexivity.
Qed.

Lemma ensemble_step (ov : overrides) (fids : list fidelity) (it : Z) (o : op) :
  exists fids' it',
    step (EnsembleFidelityObj ov fids it) o = EnsembleFidelityObj ov fids' it' /\
    map iterations fids' = map iterations fids.
Proof.
  destruct o as [x|x|x|]; unfold step.
  - destruct (ensemble_f_state ov fids it x) as (fids' & H1 & H2).
    exists fids', it. auto.
  - destruct (ensemble_df_state ov fids it x) as (fids' & H1 & H2).
    exists fids', it. auto.
  - rewrite iterate_eq. cbv zeta.
    change (snd (set_iterations (iterations (EnsembleFidelityObj ov fids it) + 1)
                   (EnsembleFidelityObj ov fids it)))
      with (EnsembleFidelityObj ov fids (it + 1)).
    destruct (fst (fidelity__iterate x _)) as [[]|e].
    + destruct (ensemble_f_state ov fids (it + 1) x) as (fids' & H1 & H2).
      exists fids', (it + 1)%Z. split; [|exact H2].
      destruct (fidelity_f x (EnsembleFidelityObj ov fids (it + 1)))
        as [[v|e] s2]; exact H1.
    + exists fids, (it + 1)%Z. auto.
  - exists fids, 0%Z. auto.
Qed.

(** X22.  An ensemble counts its own iterations only.  Whatever sequence
    of [f], [df], [iterate] and [reset_iterations] is run on it, it keeps
    its overrides and the number of its members, and every member keeps
    the value of its own iteration counter: [iterate] of the ensemble
    evaluates the members' [f], never their [iterate]. *)
Theorem ensemble_members_keep_counters (ops : list op) (ov : overrides)
    (fids : list fidelity) (it : Z) :
  exists fids' it',
    run ops (EnsembleFidelityObj ov fids it) = EnsembleFidelityObj ov fids' it' /\
    length fids' = length fids /\
    map iterations fids' = map iterations fids.
Proof.
  revert fids it. induction ops as [|o ops IH]; intros fids it.
  - exists fids, it. auto.
  - destruct (ensemble_step ov fids it o) as (fids1 & it1 & H1 & H2).
    destruct (IH fids1 it1) as (fids2 & it2 & H3 & _ & H4).
    exists fids2, it2. unfold run in *. simpl. rewrite H1, H3.
    split; [reflexivity|].
    assert (Hm : map iterations fids2 = map iterations fids) by congruence.
    split; [|exact Hm].
    rewrite <- (length_map iterations fids2), Hm. apply length_map.
Qed.

(** X23.  One solve per gradient.  When [df] of an [OperatorDistance]
    returns for an array that compares equal to itself, the propagator
    and the derivative it hands to [d_operator_distance] are those of one
    and the same solve result, the one left in the slot, and each hook
    and the solver ran at most once. *)
Theorem operator_distance_df_one_solve (ov : overrides)
    (sys : ParametricSystem) (t : scalar) (tg : target) (it : Z) (x : pyobj)
    (g : val) :
  isinstance_ndarray x = true -> array_equal x x = true ->
  scalar_eqb t t = true ->
  fst (fidelity_df x (OperatorDistanceObj ov sys t tg it)) = Ok g ->
  exists fs sys',
    snd (fidelity_df x (OperatorDistanceObj ov sys t tg it))
    = OperatorDistanceObj ov sys' t tg it /\
    _fixed_system sys' = Some fs /\
    g = VArray (d_operator_distance (fs_u fs) (fs_du fs) tg) /\
    at_most_one_more sys sys'.
Proof.
  intros Ha Hc Ht. rewrite operator_distance_df_eq.
  destruct (fst (ParametricSystemBase._is_cached x t sys))
    as [[|]|e0] eqn:E.
  - rewrite u_hit by exact E.
    destruct (_fixed_system sys) as [fs|] eqn:Efs; [|discriminate].
    rewrite du_hit by exact E. rewrite Efs. simpl. intros H.
    injection H as <-. exists fs, sys.
    split; [reflexivity|]. split; [exact Efs|]. split; [reflexivity|].
    apply at_most_one_more_refl.
  - pose proof (after_miss x t sys E) as Hm. simpl in Hm.
    rewrite u_miss in Hm |- * by exact E.
    destruct (fresh_solve sys x t) as [[fs|e1] l]; [|discriminate].
    simpl in Hm. destruct Hm as (_ & _ & Hone & _).
    assert (Hk : key_matches (solved sys x t fs) x t)
      by (apply key_matches_self; auto).
    apply is_cached_true_iff in Hk. rewrite du_hit by exact Hk. simpl.
    intros H. injection H as <-. exists fs, (solved sys x t fs).
    split; [reflexivity|]. split; [reflexivity|]. split; [reflexivity|].
    exact Hone.
  - rewrite (u_raise _ _ _ e0 E). discriminate.
Qed.

Lemma f_counter_frame (x : pyobj) (v : Z) (self : fidelity) :
  fidelity_f x (snd (set_iterations v self))
  = (fst (fidelity_f x self), snd (set_iterations v (snd (fidelity_f x self)))).
Proof.
  destruct self as [cf cdf ov sys it|ov fids it|ov sys t tg it]; simpl snd at 1.
  - rewrite !base_f_sum by reflexivity.
    unfold fidelity__f, resolve__f, FidelityBase._f, raise, on_system.
    destruct cf as [h|]; [|reflexivity].
    destruct (h x sys) as [[a|e] sys']; [|reflexivity].
    unfold fidelity_penalty. simpl.
    destruct (ov_penalty ov) as [p|]; simpl.
    + destruct (p x); reflexivity.
    + reflexivity.
  - rewrite !base_f_sum by reflexivity. rewrite !ensemble__f_eq.
    destruct (for_each (fidelity_f x) fids) as [[vs|e] fids']; [|reflexivity].
    destruct (np_mean vs) as [a|e]; [|reflexivity].
    unfold fidelity_penalty. simpl.
    destruct (ov_penalty ov) as [p|]; simpl.
    + destruct (p x); reflexivity.
    + reflexivity.
  - rewrite !operator_distance_f_eq.
    destruct (ParametricSystemBase.u x t sys) as [[U|e] sys']; reflexivity.
Qed.

(** X24.  [iterate] counts, then runs the hook, then evaluates [f] and
    drops its value.  If the hook raises, [f] is not evaluated and the
    iteration stays counted.  Otherwise [iterate] raises exactly what
    [f] raises and leaves the instance as [f] leaves it, with the
    counter one higher: [f] does not depend on the counter. *)
Theorem iterate_counts_then_evaluates_f (x : pyobj) (self : fidelity) :
  (forall h e, ov__iterate (overrides_of self) = Some h -> h x = Raise e ->
     fidelity_iterate x self
     = (Raise e, snd (set_iterations (iterations self + 1) self))) /\
  ((ov__iterate (overrides_of self) = None \/
    exists h, ov__iterate (overrides_of self) = Some h /\ h x = Ok tt) ->
   fst (fidelity_iterate x self)
   = result_map (fun _ => tt) (fst (fidelity_f x self)) /\
   snd (fidelity_iterate x self)
   = snd (set_iterations (iterations self + 1) (snd (fidelity_f x self)))).
Proof.
  assert (Hov : forall v, overrides_of (snd (set_iterations v self))
                          = overrides_of self)
    by (intros v; destruct self; reflexivity).
  split.
  - intros h e Hh He. rewrite iterate_eq. cbv zeta.
    unfold fidelity__iterate. rewrite Hov, Hh. simpl. rewrite He. reflexivity.
  - intros Hhook. rewrite iterate_eq. cbv zeta.
    assert (Hok : fst (fidelity__iterate x
                         (snd (set_iterations (iterations self + 1) self)))
                  = Ok tt).
    { unfold fidelity__iterate. rewrite Hov.
      destruct Hhook as [Hn|(h & Hh & Hx)].
      - rewrite Hn. reflexivity.
      - rewrite Hh. simpl. rewrite Hx. reflexivity. }
    rewrite Hok, f_counter_frame.
    destruct (fst (fidelity_f x self)) as [v|e]; split; reflexivity.
Qed.

Lemma mean_of_one (v : R) : np_mean [VFloat v] = Ok (VFloat v).
Proof.
  unfold np_mean. simpl. do 2 f_equal. field.
Qed.

Lemma mean_axis0_of_one (g : list R) :
  np_mean_axis0 [VArray g] = Ok (VArray g).
Proof.
  unfold np_mean_axis0. simpl. rewrite Nat.eqb_refl. do 2 f_equal.
  apply nth_ext with (d := 0) (d' := 0).
  - rewrite length_map, length_seq. reflexivity.
  - intros n Hn. rewrite length_map, length_seq in Hn.
    set (f := fun c : nat => Rsum [nth c g 0] / INR 1).
    rewrite (nth_indep _ 0 (f 0%nat))
      by (rewrite length_map, length_seq; exact Hn).
    rewrite map_nth, seq_nth by exact Hn. unfold f. simpl. field.
Qed.

(** X25.  Small ensembles, with no penalty overridden.  An ensemble
    without members returns nan for [f] and [df] and evaluates nothing.
    An ensemble of one member returns the member's value and the member's
    gradient, and raises what the member raises. *)
Theorem small_ensembles (ov : overrides) (it : Z) (x : pyobj) :
  ov_penalty ov = None -> ov_d_penalty ov = None ->
  (fidelity_f x (EnsembleFidelityObj ov [] it)
     = (Ok VNan, EnsembleFidelityObj ov [] it) /\
   fidelity_df x (EnsembleFidelityObj ov [] it)
     = (Ok VNan, EnsembleFidelityObj ov [] it)) /\
  (forall fid v, fst (fidelity_f x fid) = Ok (VFloat v) ->
     fst (fidelity_f x (EnsembleFidelityObj ov [fid] it)) = Ok (VFloat v)) /\
  (forall fid g, fst (fidelity_df x fid) = Ok (VArray g) ->
     fst (fidelity_df x (EnsembleFidelityObj ov [fid] it)) = Ok (VArray g)) /\
  (forall fid e, fst (fidelity_f x fid) = Raise e ->
     fst (fidelity_f x (EnsembleFidelityObj ov [fid] it)) = Raise e) /\
  (forall fid e, fst (fidelity_df x fid) = Raise e ->
     fst (fidelity_df x (EnsembleFidelityObj ov [fid] it)) = Raise e).
Proof.
  intros Hp Hdp.
  assert (Hf : forall fids, fidelity_f x (EnsembleFidelityObj ov fids it)
                 = fidelity__f x (EnsembleFidelityObj ov fids it))
    by (intros fids; apply base_f_no_penalty; [reflexivity | exact Hp]).
  assert (Hdf : forall fids, fidelity_df x (EnsembleFidelityObj ov fids it)
                 = fidelity__df x (EnsembleFidelityObj ov fids it))
    by (intros fids; apply base_df_no_penalty; [reflexivity | exact Hdp]).
  split; [split|split; [|split; [|split]]].
  - rewrite Hf. reflexivity.
  - rewrite Hdf. reflexivity.
  - intros fid v H. rewrite Hf, ensemble__f_eq. simpl.
    destruct (fidelity_f x fid) as [[a|e] fid']; simpl in H; [|discriminate].
    injection H as ->. simpl. apply mean_of_one.
  - intros fid g H. rewrite Hdf, ensemble__df_eq. simpl.
    destruct (fidelity_df x fid) as [[a|e] fid']; simpl in H; [|discriminate].
    injection H as ->. simpl. apply mean_axis0_of_one.
  - intros fid e H. rewrite Hf, ensemble__f_eq. simpl.
    destruct (fidelity_f x fid) as [[a|e'] fid']; simpl in H; [discriminate|].
    injection H as ->. reflexivity.
  - intros fid e H. rewrite Hdf, ensemble__df_eq. simpl.
    destruct (fidelity_df x fid) as [[a|e'] fid']; simpl in H; [discriminate|].
    injection H as ->. reflexivity.
Qed.

End FidelityExtras.

Lemma ensemble_stops_at_first_raise_witness :
  let m1 := example_metric no_overrides (1 / 10) [1; 2] in
  let m2 := example_metric no_overrides (2 / 10) [3; 4] in
  fidelity_f good_controls
    (EnsembleFidelityObj no_overrides ([m1] ++ example_unimplemented :: [m2]) 0)
  = (Raise NotImplementedError,
     EnsembleFidelityObj no_overrides
       (map (fun m => snd (fidelity_f good_controls m)) [m1]
          ++ snd (fidelity_f good_controls example_unimplemented) :: [m2]) 0).
Proof.
  intros m1 m2.
  apply (proj1 (ensemble_stops_at_first_raise no_overrides [m1] [m2]
                  example_unimplemented 0%Z good_controls
                  NotImplementedError)).
  - constructor; [|constructor]. eexists. reflexivity.
  - reflexivity.
Defined.

Lemma operator_distance_df_one_solve_witness :
  exists (fs : @FixedSystem (example_collab true))
         (sys' : @ParametricSystem (example_collab true)),
    snd (fidelity_df good_controls (example_fresh true))
    = @OperatorDistanceObj (example_collab true) no_overrides sys' 3%Z 0%Z 0 /\
    _fixed_system sys' = Some fs /\
    VArray [1; 2]
    = VArray (@d_operator_distance (example_collab true)
                (fs_u fs) (fs_du fs) 0%Z) /\
    at_most_one_more (example_system_init true) sys'.
Proof.
  exact (@operator_distance_df_one_solve (example_collab true) no_overrides
           (example_system_init true) 3%Z 0%Z 0%Z good_controls
           (VArray [1; 2]) eq_refl eq_refl eq_refl eq_refl).
Defined.

Lemma iterate_counts_then_evaluates_f_witness :
  fidelity_iterate good_controls (example_metric example_hook_raises 1 [1])
  = (Raise ValueError,
     snd (set_iterations
            (iterations (example_metric example_hook_raises 1 [1]) + 1)
            (example_metric example_hook_raises 1 [1]))) /\
  fst (fidelity_iterate short_controls (example_fresh true))
  = result_map (fun _ => tt) (fst (fidelity_f short_controls (example_fresh true))).
Proof.
  split.
  - exact (proj1 (iterate_counts_then_evaluates_f good_controls
                    (example_metric example_hook_raises 1 [1]))
             _ ValueError eq_refl eq_refl).
  - exact (proj1 (proj2 (iterate_counts_then_evaluates_f short_controls
                           (example_fresh true)) (or_introl eq_refl))).
Defined.

Lemma small_ensembles_witness :
  fst (fidelity_f good_controls
         (EnsembleFidelityObj no_overrides
            [example_metric no_overrides (1 / 10) [1; 2]] 0))
  = Ok (VFloat (1 / 10)) /\
  fst (fidelity_df good_controls
         (EnsembleFidelityObj no_overrides [example_unimplemented] 0))
  = Raise NotImplementedError.
Proof.
  destruct (@small_ensembles (example_collab true) no_overrides 0%Z
              good_controls eq_refl eq_refl) as (_ & Hf & _ & _ & Hde).
  split.
  - apply Hf. rewrite base_f_no_penalty by reflexivity. reflexivity.
  - apply Hde. reflexivity.
Defined.

(** * The test helper of tests/test_spins.py *)

(** X26.  [single_hf] needs four controls and reads no more: with fewer
    it raises [IndexError]; with four or more it returns five 2 x 2
    blocks that depend on the first four controls only, and block
    [4 - k] is the adjoint of block [k], so the Hamiltonian they are the
    Fourier components of is Hermitian. *)
Theorem single_hf_hermitian (controls : list R) (omega : R) :
  ((length controls < 4)%nat ->
     TestSpins.single_hf controls omega = Raise IndexError) /\
  ((4 <= length controls)%nat ->
     exists hs,
       TestSpins.single_hf controls omega = Ok hs /\
       length hs = 5%nat /\
       (forall k, (k <= 4)%nat ->
          nth (4 - k) hs [] = Matrix.adjoint (nth k hs [])) /\
       TestSpins.single_hf (firstn 4 controls) omega = Ok hs).
Proof.
  destruct controls as [|a1 [|b1 [|a2 [|b2 rest]]]]; simpl length;
    (split; [intros H; try lia; reflexivity | intros H; try lia]).
  eexists. split; [reflexivity|]. split; [reflexivity|]. split; [|reflexivity].
  intros k Hk.
  destruct k as [|[|[|[|[|k]]]]]; try lia;
    unfold Matrix.adjoint, transpose, col, ncols, row; simpl;
    repeat f_equal; apply C_eq;
    unfold TestSpins.Ci, TestSpins.Cj; csimpl; lra.
Qed.

Lemma single_hf_hermitian_witness :
  TestSpins.single_hf [1; 2; 3] 5 = Raise IndexError /\
  exists hs,
    TestSpins.single_hf [1; 2; 3; 4; 9] 5 = Ok hs /\
    nth 4 hs [] = Matrix.adjoint (nth 0 hs []).
Proof.
  split.
  - apply (proj1 (single_hf_hermitian [1; 2; 3] 5)). simpl. lia.
  - destruct (proj2 (single_hf_hermitian [1; 2; 3; 4; 9] 5))
      as (hs & H1 & _ & H2 & _); [simpl; lia|].
    exists hs. split; [exact H1|]. apply (H2 0%nat). lia.
Defined.
